(** * Pipeline Manager front end: editor, document codec, navigation, inliner

    A shallow embedding of [src/pipeline_manager/frontend/src/custom/Editor.js]
    ([PipelineManagerEditor]) and [src/pipeline_manager/frontend/src/core/EditorManager.js]
    ([EditorManager]), and the properties of the specification checked against it;
    with them the notification and terminal stores of [src/unnamed/part_000].

    JavaScript objects that are shared and mutated (graphs, nodes) live in a
    store indexed by references; serialised documents are immutable trees.
    Methods of classes that are not part of these two files (the graph model
    of CustomGraph.js / CustomGraphNode.js, interfaceParser.js, the layout
    engine) are the fields of the class [Collaborators]: every definition and
    theorem below is parametric in them. *)

From Stdlib Require Import String Ascii List ZArith Lia Bool.
From Stdlib Require Import Floats.SpecFloat.
From stdpp Require Import base option list strings gmap pretty.

Local Open Scope string_scope.
Local Open Scope list_scope.

(* ===================================================================== *)
(** * 1. JavaScript prelude                                               *)
(* ===================================================================== *)

(** A call returns a value or throws; [err] is what [err.toString()] gives. *)
Inductive completion (A : Type) : Type :=
| Normal (a : A)
| Throw (err : string).
Arguments Normal {A} a.
Arguments Throw {A} err.

(** An [async] function never throws to its caller: it hands back a promise
    that is later resolved with the returned value or rejected with the
    exception. *)
Inductive settled (A : Type) : Type :=
| Resolved (a : A)
| Rejected (err : string).
Arguments Resolved {A} a.
Arguments Rejected {A} err.

(** Numbers are IEEE 754 doubles (binary64: 53 bits of precision, exponents
    below 1024), with the operations of the standard: a sum that leaves the
    range is an infinity, [0 / 0] is [NaN]. *)
Definition jsnum : Type := spec_float.

#[global] Instance jsnum_eq_dec : EqDecision jsnum.
Proof. solve_decision. Defined.

(** [a + b], [a - b] and [a / b]. *)
Definition js_add (a b : jsnum) : jsnum := SFadd 53 1024 a b.
Definition js_sub (a b : jsnum) : jsnum := SFsub 53 1024 a b.
Definition js_div (a b : jsnum) : jsnum := SFdiv 53 1024 a b.

(** The number with an integer value, array lengths among them. *)
Definition js_int (z : Z) : jsnum := binary_normalize 53 1024 z 0 false.

(** [Number.isFinite(a)]. *)
Definition is_finite (a : jsnum) : bool :=
  match a with
  | S754_zero _ | S754_finite _ _ _ => true
  | S754_infinity _ | S754_nan => false
  end.

(** [`${v}`] for a possibly undefined string. *)
Definition template_literal (v : option string) : string :=
  match v with Some s => s | None => "undefined" end.

(** A plain object used as a dictionary: own properties in insertion order.
    (Keys are identifiers and names, never canonical array indices, which
    JavaScript would enumerate first.) *)
Definition jsobj (A : Type) : Type := list (string * A).

Definition obj_get {A} (o : jsobj A) (k : string) : option A :=
  snd <$> List.find (fun kv => bool_decide (fst kv = k)) o.

Definition obj_has {A} (o : jsobj A) (k : string) : bool :=
  bool_decide (is_Some (obj_get o k)).

(** [o[k] = v]: an existing property keeps its place. *)
Fixpoint obj_set {A} (o : jsobj A) (k : string) (v : A) : jsobj A :=
  match o with
  | [] => [(k, v)]
  | (k', v') :: o' =>
      if bool_decide (k' = k) then (k, v) :: o' else (k', v') :: obj_set o' k v
  end.

(** [delete o[k]]. *)
Definition obj_delete {A} (o : jsobj A) (k : string) : jsobj A :=
  List.filter (fun kv => negb (bool_decide (fst kv = k))) o.

Definition obj_keys {A} (o : jsobj A) : list string := map fst o.
Definition obj_values {A} (o : jsobj A) : list A := map snd o.

(** [Object.fromEntries(entries)]. *)
Definition obj_fromEntries {A} (entries : list (string * A)) : jsobj A :=
  fold_left (fun o kv => obj_set o (fst kv) (snd kv)) entries [].

(* ===================================================================== *)
(** * 2. Dataflow documents                                               *)
(* ===================================================================== *)

Record Vec2 : Type := mkVec2 { vx : jsnum; vy : jsnum }.

(** A boundary interface of a graph (an element of [graph.inputs] or
    [graph.outputs]). *)
Record GraphInterface : Type := mkGraphInterface {
  gi_id : string;
  gi_name : string;
  gi_subgraphNodeId : option string;
  gi_side : string;
  gi_sidePosition : option nat;
}.

Record InterfaceState : Type := mkInterfaceState {
  is_id : string;
  is_name : string;
  is_direction : string;
  is_side : string;
  is_sidePosition : option nat;
  is_subgraphNodeId : option string;
}.

Record ConnectionState : Type := mkConnectionState {
  cs_from : string;
  cs_to : string;
}.

(** The fields of a serialised node other than its expanded subgraph. *)
Record NodeFields : Type := mkNodeFields {
  nf_id : string;
  nf_name : option string;
  nf_type : string;
  nf_position : option Vec2;
  nf_interfaces : list InterfaceState;
  nf_subgraph : option string;
}.

(** The fields of a serialised graph other than its nodes. *)
Record GraphFields : Type := mkGraphFields {
  gf_id : string;
  gf_name : option string;
  gf_connections : list ConnectionState;
  gf_inputs : option (list GraphInterface);
  gf_outputs : option (list GraphInterface);
  gf_panning : option Vec2;
  gf_scaling : option jsnum;
}.

(** A graph state ([Graph] / [GraphTemplate] of the document format); a node
    may carry [graphState], the expanded state of the subgraph it owns. *)
Inductive GraphState : Type :=
| mkGraphState (fields : GraphFields) (nodes : list NodeState)
with NodeState : Type :=
| mkNodeState (fields : NodeFields) (graphState : option GraphState).

Definition gs_fields (g : GraphState) : GraphFields :=
  match g with mkGraphState f _ => f end.
Definition gs_nodes (g : GraphState) : list NodeState :=
  match g with mkGraphState _ ns => ns end.
Definition ns_fields (n : NodeState) : NodeFields :=
  match n with mkNodeState f _ => f end.
Definition ns_graphState (n : NodeState) : option GraphState :=
  match n with mkNodeState _ g => g end.

Definition gs_id (g : GraphState) : string := gf_id (gs_fields g).
Definition ns_subgraph (n : NodeState) : option string := nf_subgraph (ns_fields n).

(** [state.graph]: in the multi-graph form the code reads nothing of it but
    [entryGraph]; otherwise it is the only graph. *)
Inductive GraphField : Type :=
| SingleGraph (graph : GraphState)
| EntryRef (entryGraph : string).

(** A dataflow document; [subgraphs] may be absent. *)
Record Dataflow : Type := mkDataflow {
  df_graph : GraphField;
  df_subgraphs : option (list GraphState);
}.

Definition set_nodes (g : GraphState) (ns : list NodeState) : GraphState :=
  mkGraphState (gs_fields g) ns.

Definition set_graphState (n : NodeState) (g : option GraphState) : NodeState :=
  mkNodeState (ns_fields n) g.

(** [delete graph.inputs; delete graph.outputs]. *)
Definition delete_io (g : GraphState) : GraphState :=
  let f := gs_fields g in
  mkGraphState
    (mkGraphFields (gf_id f) (gf_name f) (gf_connections f) None None
                   (gf_panning f) (gf_scaling f))
    (gs_nodes g).

(** [graph.inputs = []; graph.outputs = []]. *)
Definition empty_io (g : GraphState) : GraphState :=
  let f := gs_fields g in
  mkGraphState
    (mkGraphFields (gf_id f) (gf_name f) (gf_connections f) (Some []) (Some [])
                   (gf_panning f) (gf_scaling f))
    (gs_nodes g).

(** [graph.panning = p; graph.scaling = s]. *)
Definition set_view (g : GraphState) (p : option Vec2) (s : option jsnum) : GraphState :=
  let f := gs_fields g in
  mkGraphState
    (mkGraphFields (gf_id f) (gf_name f) (gf_connections f) (gf_inputs f)
                   (gf_outputs f) p s)
    (gs_nodes g).

(* ===================================================================== *)
(** * 3. Document codec: the parts of [load] and [save] on document trees  *)
(* ===================================================================== *)

Definition TypeError_undefined (prop : string) : string :=
  "TypeError: Cannot read properties of undefined (reading '" +:+ prop +:+ "')".

(** The same for an assignment [o.prop = v] to an undefined [o]. *)
Definition TypeError_set_undefined (prop : string) : string :=
  "TypeError: Cannot set properties of undefined (setting '" +:+ prop +:+ "')".

Definition err_template_count (name : option string) (n : nat) : string :=
  "Expected exactly one template with ID " +:+ template_literal name
    +:+ ", got " +:+ pretty n.

Definition err_template_reused (s : string) : string :=
  "Subgraph " +:+ s
    +:+ " has multiple nodes pointing to it - only unique IDs are allowed".

Definition err_no_root : string :=
  "No root graph found. Make sure you graph does not have any reccurency".

Definition err_no_entry (entry : string) : string :=
  "No entry graph found of id '" +:+ entry +:+ "'".

(** What one call of [recurrentSubgraphLoad] leaves behind: the returned
    errors, the node as mutated, and [usedInstances]. *)
Definition LoadStep : Type := (list string * NodeState * gset string)%type.

(** [nodes.forEach((n) => errors.push(...f(n)))], threading [usedInstances];
    [None] is the model running out of fuel. *)
Fixpoint forEach_load (f : NodeState -> gset string -> option (completion LoadStep))
    (nodes : list NodeState) (used : gset string)
    : option (completion (list string * list NodeState * gset string)) :=
  match nodes with
  | [] => Some (Normal ([], [], used))
  | n :: rest =>
      match f n used with
      | None => None
      | Some (Throw e) => Some (Throw e)
      | Some (Normal (errs, n', used')) =>
          match forEach_load f rest used' with
          | None => None
          | Some (Throw e) => Some (Throw e)
          | Some (Normal (errs', rest', used'')) =>
              Some (Normal (errs ++ errs', n' :: rest', used''))
          end
      end
  end.

(** [recurrentSubgraphLoad] of [load] (Editor.js 201-221). The recursion
    follows template references, so it is written on [fuel]; the
    fuel [load] gives it, [load_fuel], always suffices. *)
Fixpoint recurrentSubgraphLoad (fuel : nat) (subgraphs : option (list GraphState))
    (node : NodeState) (usedInstances : gset string)
    : option (completion LoadStep) :=
  match fuel with
  | O => None
  | S fuel' =>
      match ns_subgraph node with
      | None => Some (Normal ([], node, usedInstances))
      | Some s =>
          match subgraphs with
          | None => Some (Throw (TypeError_undefined "filter"))
          | Some templates =>
              let fittingTemplate :=
                List.filter (fun template => bool_decide (gs_id template = s)) templates in
              match fittingTemplate with
              | [template] =>
                  if bool_decide (s ∈ usedInstances) then
                    Some (Normal ([err_template_reused s], node, usedInstances))
                  else
                    match forEach_load (recurrentSubgraphLoad fuel' subgraphs)
                            (gs_nodes template) ({[s]} ∪ usedInstances) with
                    | None => None
                    | Some (Throw e) => Some (Throw e)
                    | Some (Normal (errors, nodes', used')) =>
                        Some (Normal (errors,
                                      set_graphState node (Some (set_nodes template nodes')),
                                      used'))
                    end
              | _ =>
                  Some (Normal ([err_template_count (nf_name (ns_fields node))
                                   (length fittingTemplate)],
                                node, usedInstances))
              end
          end
      end
  end.

(** [usedSubgraphs] of [load] (Editor.js 239-247). *)
Definition usedSubgraphs (templates : list GraphState) : gset string :=
  fold_left
    (fun used subgraph =>
       fold_left
         (fun used n => match ns_subgraph n with
                        | Some s => {[s]} ∪ used
                        | None => used
                        end)
         (gs_nodes subgraph) used)
    templates ∅.

(** The root and entry graphs, or the error list [load] returns for them
    (Editor.js 237-268). Reading [state.subgraphs] throws when it is absent. *)
Definition resolveGraphs (state : Dataflow)
    : completion (list string + GraphState * GraphState) :=
  match df_graph state with
  | EntryRef entry =>
      match df_subgraphs state with
      | None => Throw (TypeError_undefined "forEach")
      | Some templates =>
          let used := usedSubgraphs templates in
          match List.find (fun subgraph => negb (bool_decide (gs_id subgraph ∈ used)))
                  templates with
          | None => Normal (inl [err_no_root])
          | Some rootGraph =>
              match List.find (fun subgraph => bool_decide (gs_id subgraph = entry))
                      templates with
              | None => Normal (inl [err_no_entry entry])
              | Some entryGraph => Normal (inr (rootGraph, entryGraph))
              end
          end
      end
  | SingleGraph graph => Normal (inr (graph, graph))
  end.

(** Fuel for one pass of [recurrentSubgraphLoad] over a document. *)
Definition load_fuel (state : Dataflow) : nat :=
  S (length (default [] (df_subgraphs state))).

(** The first statements of the [try] block of [load] (Editor.js 271-280):
    every node of the root gets its [graphState]; with no errors the root's
    boundary lists are emptied. *)
Definition instantiateRoot (state : Dataflow) (rootGraph : GraphState)
    : option (completion (list string + GraphState)) :=
  match forEach_load (recurrentSubgraphLoad (load_fuel state) (df_subgraphs state))
          (gs_nodes rootGraph) ∅ with
  | None => None
  | Some (Throw e) => Some (Throw e)
  | Some (Normal (errors, nodes', _)) =>
      match errors with
      | [] => Some (Normal (inr (empty_io (set_nodes rootGraph nodes'))))
      | _ => Some (Normal (inl errors))
      end
  end.

(** [recurrentSubgraphSave] of [save] (Editor.js 98-104) on one node: the
    states pushed to [state.subgraphs], in order, and the node as mutated.
    A pushed [graphState] is the object whose nodes the recursion then strips. *)
Fixpoint recurrentSubgraphSave (node : NodeState)
    : completion (list GraphState * NodeState) :=
  match node with
  | mkNodeState fields graphState =>
      match nf_subgraph fields with
      | None => Normal ([], mkNodeState fields None)
      | Some _ =>
          match graphState with
          | None => Throw (TypeError_undefined "nodes")
          | Some (mkGraphState gfields gnodes) =>
              match
                (fix forEach_save (nodes : list NodeState)
                   : completion (list GraphState * list NodeState) :=
                   match nodes with
                   | [] => Normal ([], [])
                   | n :: rest =>
                       match recurrentSubgraphSave n with
                       | Throw e => Throw e
                       | Normal (pushed, n') =>
                           match forEach_save rest with
                           | Throw e => Throw e
                           | Normal (pushed', rest') =>
                               Normal (pushed ++ pushed', n' :: rest')
                           end
                       end
                   end) gnodes
              with
              | Throw e => Throw e
              | Normal (pushed, gnodes') =>
                  Normal (mkGraphState gfields gnodes' :: pushed,
                          mkNodeState fields None)
              end
          end
      end
  end.

(** [nodes.forEach(recurrentSubgraphSave)]. *)
Fixpoint forEach_save (nodes : list NodeState)
    : completion (list GraphState * list NodeState) :=
  match nodes with
  | [] => Normal ([], [])
  | n :: rest =>
      match recurrentSubgraphSave n with
      | Throw e => Throw e
      | Normal (pushed, n') =>
          match forEach_save rest with
          | Throw e => Throw e
          | Normal (pushed', rest') => Normal (pushed ++ pushed', n' :: rest')
          end
      end
  end.

(** The document [save] builds from the snapshot [graph] of the root graph
    (Editor.js 91-116 and 127-135); [view] is the panning and scaling of the
    root at that moment. *)
Definition saveState (currentGraphId : string) (graph : GraphState)
    (panning : option Vec2) (scaling : option jsnum) : completion Dataflow :=
  let graph := set_view graph panning scaling in
  match forEach_save (gs_nodes graph) with
  | Throw e => Throw e
  | Normal (subgraphs, nodes') =>
      let graph := delete_io (set_nodes graph nodes') in
      match subgraphs with
      | [] => Normal (mkDataflow (SingleGraph graph) None)
      | _ => Normal (mkDataflow (EntryRef currentGraphId) (Some (subgraphs ++ [graph])))
      end
  end.

(* ===================================================================== *)
(** * 4. Live objects and the editor                                      *)
(* ===================================================================== *)

(** References to [Graph] and node objects in the store. *)
Definition gref : Type := nat.
Definition nref : Type := nat.

(** An interface of a live node. *)
Record NodeInterface : Type := mkNodeInterface {
  intf_id : string;
  intf_name : string;
  intf_nodeId : string;
  intf_subgraphNodeId : option string;
  intf_side : string;
  intf_sidePosition : option nat;
  intf_connectionCount : nat;
}.

(** A connection holds its two interfaces; the model keeps them as they
    were when the connection was made. *)
Record Connection : Type := mkConnection {
  conn_from : NodeInterface;
  conn_to : NodeInterface;
}.

Record Node : Type := mkNode {
  node_id : string;
  node_type : string;
  node_position : option Vec2;
  node_inputs : jsobj NodeInterface;
  node_outputs : jsobj NodeInterface;
  node_subgraph : option gref;
}.

Record Graph : Type := mkGraph {
  graph_id : string;
  graph_name : option string;
  graph_nodes : list nref;
  graph_connections : list Connection;
  graph_inputs : list GraphInterface;
  graph_outputs : list GraphInterface;
  graph_panning : option Vec2;
  graph_scaling : option jsnum;
  graph_selectedNodes : list nref;
}.

(** What [new type()] shows of a node class. *)
Record NodeClass : Type := mkNodeClass {
  nc_type : string;
  nc_title : string;
}.

(** An entry of [editor._nodeTypes]. *)
Record NodeTypeInformation : Type := mkNodeTypeInformation {
  nti_type : NodeClass;
  nti_category : string;
  nti_title : string;
  nti_isCategory : bool;
}.

(** [PipelineManagerEditor]: its own fields and those of the BaklavaJS
    [Editor] it extends that the code below touches, with the store of the
    graph and node objects they refer to. *)
Record Editor : Type := mkEditor {
  graphStore : gmap gref Graph;
  nodeStore : gmap nref Node;
  _graph : option gref;
  graphs : list gref;
  subgraphStack : list (string * nref);
  _readonly : bool;
  preview : bool;
  allowLoopbacks : bool;
  graphName : option string;
  _nodeTypes : gmap string NodeTypeInformation;
  _graphTemplates : list GraphState;
  subgraphNodePositions : gmap string Vec2;
  historySuppressed : bool;
  activeAlgorithm : string;
}.

Definition set_graphStore (s : gmap gref Graph) (e : Editor) : Editor :=
  mkEditor s (nodeStore e) (_graph e) (graphs e) (subgraphStack e) (_readonly e)
    (preview e) (allowLoopbacks e) (graphName e) (_nodeTypes e) (_graphTemplates e)
    (subgraphNodePositions e) (historySuppressed e) (activeAlgorithm e).

Definition set_nodeStore (s : gmap nref Node) (e : Editor) : Editor :=
  mkEditor (graphStore e) s (_graph e) (graphs e) (subgraphStack e) (_readonly e)
    (preview e) (allowLoopbacks e) (graphName e) (_nodeTypes e) (_graphTemplates e)
    (subgraphNodePositions e) (historySuppressed e) (activeAlgorithm e).

Definition set__graph (g : option gref) (e : Editor) : Editor :=
  mkEditor (graphStore e) (nodeStore e) g (graphs e) (subgraphStack e) (_readonly e)
    (preview e) (allowLoopbacks e) (graphName e) (_nodeTypes e) (_graphTemplates e)
    (subgraphNodePositions e) (historySuppressed e) (activeAlgorithm e).

Definition set_graphs (gs : list gref) (e : Editor) : Editor :=
  mkEditor (graphStore e) (nodeStore e) (_graph e) gs (subgraphStack e) (_readonly e)
    (preview e) (allowLoopbacks e) (graphName e) (_nodeTypes e) (_graphTemplates e)
    (subgraphNodePositions e) (historySuppressed e) (activeAlgorithm e).

Definition set_subgraphStack (st : list (string * nref)) (e : Editor) : Editor :=
  mkEditor (graphStore e) (nodeStore e) (_graph e) (graphs e) st (_readonly e)
    (preview e) (allowLoopbacks e) (graphName e) (_nodeTypes e) (_graphTemplates e)
    (subgraphNodePositions e) (historySuppressed e) (activeAlgorithm e).

(** The setter [set readonly(val)]. *)
Definition set_readonly (val : bool) (e : Editor) : Editor :=
  mkEditor (graphStore e) (nodeStore e) (_graph e) (graphs e) (subgraphStack e) val
    (preview e) (allowLoopbacks e) (graphName e) (_nodeTypes e) (_graphTemplates e)
    (subgraphNodePositions e) (historySuppressed e) (activeAlgorithm e).

Definition set_allowLoopbacks (val : bool) (e : Editor) : Editor :=
  mkEditor (graphStore e) (nodeStore e) (_graph e) (graphs e) (subgraphStack e)
    (_readonly e) (preview e) val (graphName e) (_nodeTypes e) (_graphTemplates e)
    (subgraphNodePositions e) (historySuppressed e) (activeAlgorithm e).

Definition set_graphName (n : option string) (e : Editor) : Editor :=
  mkEditor (graphStore e) (nodeStore e) (_graph e) (graphs e) (subgraphStack e)
    (_readonly e) (preview e) (allowLoopbacks e) n (_nodeTypes e) (_graphTemplates e)
    (subgraphNodePositions e) (historySuppressed e) (activeAlgorithm e).

Definition set__nodeTypes (t : gmap string NodeTypeInformation) (e : Editor) : Editor :=
  mkEditor (graphStore e) (nodeStore e) (_graph e) (graphs e) (subgraphStack e)
    (_readonly e) (preview e) (allowLoopbacks e) (graphName e) t (_graphTemplates e)
    (subgraphNodePositions e) (historySuppressed e) (activeAlgorithm e).

Definition set__graphTemplates (t : list GraphState) (e : Editor) : Editor :=
  mkEditor (graphStore e) (nodeStore e) (_graph e) (graphs e) (subgraphStack e)
    (_readonly e) (preview e) (allowLoopbacks e) (graphName e) (_nodeTypes e) t
    (subgraphNodePositions e) (historySuppressed e) (activeAlgorithm e).

Definition set_subgraphNodePositions (p : gmap string Vec2) (e : Editor) : Editor :=
  mkEditor (graphStore e) (nodeStore e) (_graph e) (graphs e) (subgraphStack e)
    (_readonly e) (preview e) (allowLoopbacks e) (graphName e) (_nodeTypes e)
    (_graphTemplates e) p (historySuppressed e) (activeAlgorithm e).

(** [suppressHistoryLogging(val)] of History.ts. *)
Definition suppressHistoryLogging (val : bool) (e : Editor) : Editor :=
  mkEditor (graphStore e) (nodeStore e) (_graph e) (graphs e) (subgraphStack e)
    (_readonly e) (preview e) (allowLoopbacks e) (graphName e) (_nodeTypes e)
    (_graphTemplates e) (subgraphNodePositions e) val (activeAlgorithm e).

(** The getter [get readonly()]. *)
Definition readonly (e : Editor) : bool := _readonly e || preview e.

(** ** Methods running on the editor: state and exceptions *)

Definition M (A : Type) : Type := Editor -> completion A * Editor.

Definition ret {A} (a : A) : M A := fun e => (Normal a, e).
Definition throw {A} (err : string) : M A := fun e => (Throw err, e).
Definition bind {A B} (m : M A) (k : A -> M B) : M B :=
  fun e => match m e with
           | (Normal a, e') => k a e'
           | (Throw err, e') => (Throw err, e')
           end.
Definition get : M Editor := fun e => (Normal e, e).
Definition modify (f : Editor -> Editor) : M unit := fun e => (Normal tt, f e).

Notation "'do' x <- m 'in' k" := (bind m (fun x => k))
  (at level 10, x name, m at level 100, k at level 200).
Notation "'do' ' pat <- m 'in' k" := (bind m (fun x => match x with pat => k end))
  (at level 10, pat pattern, m at level 100, k at level 200).
Notation "'run' m 'in' k" := (bind m (fun _ => k))
  (at level 10, m at level 100, k at level 200).

(** [try { m } catch (err) { handler }]. *)
Definition try_catch {A} (m : M A) (handler : string -> M A) : M A :=
  fun e => match m e with
           | (Throw err, e') => handler err e'
           | r => r
           end.

(** [l.forEach(f)]. *)
Fixpoint forEach {A} (l : list A) (f : A -> M unit) : M unit :=
  match l with
  | [] => ret tt
  | a :: l' => run f a in forEach l' f
  end.

(** Reading a property of [o]: a [TypeError] when [o] is undefined. *)
Definition defined {A} (prop : string) (o : option A) : M A :=
  match o with
  | Some a => ret a
  | None => throw (TypeError_undefined prop)
  end.

(** The object behind a reference (a reference to nothing reads as undefined). *)
Definition the_graph (prop : string) (r : option gref) : M (gref * Graph) :=
  do e <- get in
  match r with
  | Some g => match graphStore e !! g with
              | Some G => ret (g, G)
              | None => throw (TypeError_undefined prop)
              end
  | None => throw (TypeError_undefined prop)
  end.

(** The same for an assignment [r.prop = v]: the object to write to. *)
Definition the_graph_to_set (prop : string) (r : option gref) : M (gref * Graph) :=
  do e <- get in
  match r with
  | Some g => match graphStore e !! g with
              | Some G => ret (g, G)
              | None => throw (TypeError_set_undefined prop)
              end
  | None => throw (TypeError_set_undefined prop)
  end.

Definition the_node (prop : string) (n : nref) : M Node :=
  do e <- get in defined prop (nodeStore e !! n).

Definition write_graph (g : gref) (G : Graph) : M unit :=
  modify (fun e => set_graphStore (<[g := G]> (graphStore e)) e).

Definition write_node (n : nref) (N : Node) : M unit :=
  modify (fun e => set_nodeStore (<[n := N]> (nodeStore e)) e).

(** Field updates of live objects. *)
Definition with_nodes (ns : list nref) (G : Graph) : Graph :=
  mkGraph (graph_id G) (graph_name G) ns (graph_connections G) (graph_inputs G)
    (graph_outputs G) (graph_panning G) (graph_scaling G) (graph_selectedNodes G).

Definition with_connections (cs : list Connection) (G : Graph) : Graph :=
  mkGraph (graph_id G) (graph_name G) (graph_nodes G) cs (graph_inputs G)
    (graph_outputs G) (graph_panning G) (graph_scaling G) (graph_selectedNodes G).

Definition with_interfaces (ins outs : list GraphInterface) (G : Graph) : Graph :=
  mkGraph (graph_id G) (graph_name G) (graph_nodes G) (graph_connections G) ins outs
    (graph_panning G) (graph_scaling G) (graph_selectedNodes G).

Definition with_view (p : option Vec2) (s : option jsnum) (G : Graph) : Graph :=
  mkGraph (graph_id G) (graph_name G) (graph_nodes G) (graph_connections G)
    (graph_inputs G) (graph_outputs G) p s (graph_selectedNodes G).

Definition with_selectedNodes (sel : list nref) (G : Graph) : Graph :=
  mkGraph (graph_id G) (graph_name G) (graph_nodes G) (graph_connections G)
    (graph_inputs G) (graph_outputs G) (graph_panning G) (graph_scaling G) sel.

Definition with_position (p : option Vec2) (N : Node) : Node :=
  mkNode (node_id N) (node_type N) p (node_inputs N) (node_outputs N) (node_subgraph N).

Definition with_inputs (i : jsobj NodeInterface) (N : Node) : Node :=
  mkNode (node_id N) (node_type N) (node_position N) i (node_outputs N) (node_subgraph N).

Definition with_outputs (o : jsobj NodeInterface) (N : Node) : Node :=
  mkNode (node_id N) (node_type N) (node_position N) (node_inputs N) o (node_subgraph N).

(** ** Collaborators

    The methods and constants [Editor.js] and [EditorManager.js] use from
    files outside them. Each is typed by what it may read and write. *)
Class Collaborators : Type := {
  (** CustomGraph.js, [save()]: the serialised state of a live graph, with
      the [graphState] of every node that owns a subgraph. *)
  graph_save : Editor -> gref -> GraphState;
  (** CustomGraph.js, [load(state)]: builds the live graph from [state];
      returns its error list or throws. *)
  graph_load : GraphState -> gref -> Editor -> completion (list string) * Editor;
  (** CustomGraph.js, [updateInterfaces()]: the boundary interfaces of the
      graph, recomputed from its content and stored in [inputs]/[outputs]. *)
  updateInterfaces : Editor -> gref -> list GraphInterface * list GraphInterface;
  (** CustomGraph.js, [addConnection(from, to)]: whether the graph accepts
      the connection. *)
  connectionAccepted : Editor -> gref -> NodeInterface -> NodeInterface -> bool;
  (** CustomGraphNode.js, [propagateInterfaces()]: the interfaces it writes
      to nodes of the subgraph, as (node, inputs, outputs). *)
  propagateInterfaces :
    Editor -> nref -> list (nref * (jsobj NodeInterface * jsobj NodeInterface));
  (** interfaceParser.js, [applySidePositions(inputs, outputs)]: an error
      list, or the two dictionaries with positions assigned. *)
  applySidePositions :
    jsobj GraphInterface -> jsobj GraphInterface ->
    list string + jsobj GraphInterface * jsobj GraphInterface;
  (** subgraphInterface.js: the node types of the boundary markers. *)
  SUBGRAPH_INPUT_NODE_TYPE : string;
  SUBGRAPH_OUTPUT_NODE_TYPE : string;
  SUBGRAPH_INOUT_NODE_TYPE : string;
  (** Listeners that may veto an action ([events.before*.emit(..).prevented]). *)
  beforeRegisterNodeType_prevented : NodeClass -> bool;
  beforeAddGraphTemplate_prevented : GraphState -> bool;
  beforeAddNode_prevented : Node -> bool;
  (** [hooks.load.execute(state)]. *)
  hooks_load_execute : Dataflow -> Dataflow;
  (** LayoutManager.js, [computeLayout(graph)]. *)
  computeLayout : GraphState -> GraphState;
  (** The transform [centerZoom] derives from the geometry of the page;
      [None] when it returns without setting one. *)
  centerZoom_transform : Editor -> option (Vec2 * jsnum);
  (** [process.env.VUE_APP_GRAPH_DEVELOPMENT_MODE === 'true']. *)
  developmentMode : bool;
}.

(** BaklavaJS: the prefix of the node type registered for a graph template. *)
Definition GRAPH_NODE_TYPE_PREFIX : string := "__baklava_GraphNode-".

(* ===================================================================== *)
(** * 5. [PipelineManagerEditor] (Editor.js)                              *)
(* ===================================================================== *)

Section Editor.
Context `{Collaborators}.

(** The nodes of a live graph, with the objects behind them. *)
Definition node_objects (e : Editor) (G : Graph) : list (nref * Node) :=
  omap (fun r => pair r <$> nodeStore e !! r) (graph_nodes G).

(** ** The graph library (BaklavaJS [Graph], [AbstractNode], [Editor]) *)

(** [graph.removeConnection(graph.connections[i])]. *)
Definition removeConnection (g : gref) (i : nat) : M unit :=
  do '(_, G) <- the_graph "connections" (Some g) in
  write_graph g (with_connections (delete i (graph_connections G)) G).

(** The connections at the interfaces of the node with this id. *)
Definition touches (nodeId : string) (c : Connection) : bool :=
  bool_decide (intf_nodeId (conn_from c) = nodeId)
  || bool_decide (intf_nodeId (conn_to c) = nodeId).

(** The first occurrence of [n] leaves the array ([splice(indexOf(n), 1)]). *)
Fixpoint remove_first (n : nref) (l : list nref) : list nref :=
  match l with
  | [] => []
  | x :: l' => if bool_decide (x = n) then l' else x :: remove_first n l'
  end.

(** [graph.removeNode(node)]: a node of the graph leaves it together with
    the connections at its interfaces. *)
Definition removeNode (g : gref) (n : nref) : M unit :=
  do '(_, G) <- the_graph "nodes" (Some g) in
  if bool_decide (n ∈ graph_nodes G) then
    do N <- the_node "inputs" n in
    write_graph g
      (with_nodes (remove_first n (graph_nodes G))
         (with_connections
            (List.filter (fun c => negb (touches (node_id N) c)) (graph_connections G)) G))
  else ret tt.

(** [graph.addNode(node)]: the node, or undefined when a listener vetoes. *)
Definition addNode (g : gref) (n : nref) : M (option nref) :=
  do N <- the_node "id" n in
  if beforeAddNode_prevented N then ret None
  else
    do '(_, G) <- the_graph "nodes" (Some g) in
    run write_graph g (with_nodes (graph_nodes G ++ [n]) G) in
    ret (Some n).

(** [graph.addConnection(from, to)]. *)
Definition addConnection (g : gref) (from to : NodeInterface) : M unit :=
  do e <- get in
  if connectionAccepted e g from to then
    do '(_, G) <- the_graph "connections" (Some g) in
    write_graph g (with_connections (graph_connections G ++ [mkConnection from to]) G)
  else ret tt.

(** The connections at an interface, [c.from === intf || c.to === intf]; an
    interface object is known by its [id] and its [nodeId]. *)
Definition same_interface (a b : NodeInterface) : bool :=
  bool_decide (intf_id a = intf_id b) && bool_decide (intf_nodeId a = intf_nodeId b).

Definition at_interface (intf : NodeInterface) (c : Connection) : bool :=
  same_interface intf (conn_from c) || same_interface intf (conn_to c).

(** What removing the interface [intf] of node [n] does to a graph: the
    graph that holds the node (its [graphInstance]) loses the connections at
    the interface. *)
Definition disconnect (n : nref) (intf : NodeInterface) (G : Graph) : Graph :=
  if bool_decide (n ∈ graph_nodes G)
  then with_connections
         (List.filter (fun c => negb (at_interface intf c)) (graph_connections G)) G
  else G.

(** The part of the library's [removeInterface] for an interface that is
    connected ([connectionCount > 0]): the connections at it are removed from
    the graph of the node; a node that is in no graph makes it throw. *)
Definition disconnectInterface (n : nref) (intf : NodeInterface) : M unit :=
  if bool_decide (0 < intf_connectionCount intf) then
    do e <- get in
    if bool_decide (map_Exists (fun _ G => n ∈ graph_nodes G) (graphStore e)) then
      modify (fun e => set_graphStore (disconnect n intf <$> graphStore e) e)
    else
      throw ("Error: Interface is connected, but no graph instance is specified. "
               +:+ "Unable to delete interface")
  else ret tt.

(** [node.removeInput(key)] and [node.removeOutput(key)]. Without an
    interface under [key] nothing happens; otherwise the connections of a
    connected interface are removed and the key is deleted. *)
Definition removeInput (n : nref) (key : string) : M unit :=
  do N <- the_node "inputs" n in
  match obj_get (node_inputs N) key with
  | None => ret tt
  | Some intf =>
      run disconnectInterface n intf in
      write_node n (with_inputs (obj_delete (node_inputs N) key) N)
  end.

Definition removeOutput (n : nref) (key : string) : M unit :=
  do N <- the_node "outputs" n in
  match obj_get (node_outputs N) key with
  | None => ret tt
  | Some intf =>
      run disconnectInterface n intf in
      write_node n (with_outputs (obj_delete (node_outputs N) key) N)
  end.

Definition with_nodeId (nodeId : string) (i : NodeInterface) : NodeInterface :=
  mkNodeInterface (intf_id i) (intf_name i) nodeId (intf_subgraphNodeId i)
    (intf_side i) (intf_sidePosition i) (intf_connectionCount i).

(** [node.addInput(key, intf)] and [node.addOutput(key, intf)]: the
    interface is stored under [key] and bound to the node. *)
Definition addInput (key : string) (intf : NodeInterface) (N : Node) : Node :=
  with_inputs (obj_set (node_inputs N) key (with_nodeId (node_id N) intf)) N.
Definition addOutput (key : string) (intf : NodeInterface) (N : Node) : Node :=
  with_outputs (obj_set (node_outputs N) key (with_nodeId (node_id N) intf)) N.

(** [new NodeInterface(name)]; its random [id] is overwritten at once by
    the [Object.assign] that follows every use. *)
Definition new_NodeInterface (name : string) : NodeInterface :=
  mkNodeInterface "" name "" None "" None 0.

(** [Object.assign(target, source)] for a boundary interface [source]. *)
Definition Object_assign (target : NodeInterface) (source : GraphInterface)
    : NodeInterface :=
  mkNodeInterface (gi_id source) (gi_name source) (intf_nodeId target)
    (match gi_subgraphNodeId source with
     | Some s => Some s
     | None => intf_subgraphNodeId target
     end)
    (gi_side source)
    (match gi_sidePosition source with
     | Some p => Some p
     | None => intf_sidePosition target
     end)
    (intf_connectionCount target).

(** [editor.unregisterNodeType(key)]. *)
Definition unregisterNodeType (key : string) : M unit :=
  modify (fun e => set__nodeTypes (delete key (_nodeTypes e)) e).

(** ** Methods of Editor.js *)

(** [registerGraph(graph)] (80-83). *)
Definition registerGraph (g : gref) : M unit :=
  modify (fun e => set_graphs (graphs e ++ [g]) e).

(** [cleanEditor(suppressHistory = true)] (152-163). *)
Definition cleanEditor (suppressHistory : bool) : M unit :=
  do e <- get in
  do '(graphInstance, G) <- the_graph "connections" (_graph e) in
  run modify (suppressHistoryLogging suppressHistory) in
  run forEach (reverse (seq 0 (length (graph_connections G))))
        (fun i => removeConnection graphInstance i) in
  run forEach (reverse (seq 0 (length (graph_nodes G))))
        (fun i =>
           do '(_, G') <- the_graph "nodes" (Some graphInstance) in
           match graph_nodes G' !! i with
           | Some n => removeNode graphInstance n
           | None => ret tt
           end) in
  modify (suppressHistoryLogging false).

(** [unregisterGraphs()] (165-170). *)
Definition unregisterGraphs : M unit :=
  do e <- get in
  run match graphs e with
      | [] => ret tt
      | _ =>
          do '(_, G) <- the_graph "id" (_graph e) in
          modify (set_graphs
                    (List.filter
                       (fun g => match graphStore e !! g with
                                 | Some G' => bool_decide (graph_id G' = graph_id G)
                                 | None => false
                                 end)
                       (graphs e)))
      end in
  modify (set_subgraphStack []).

(** [unregisterNodes()] (172-176). *)
Definition unregisterNodes : M unit :=
  do e <- get in
  forEach (map fst (map_to_list (_nodeTypes e))) unregisterNodeType.

(** The [options] argument of [registerNodeType]. *)
Record RegisterOptions : Type := mkRegisterOptions {
  opt_category : option string;
  opt_title : option string;
  opt_isCategory : option bool;
}.

(** [registerNodeType(type, options)] (178-190). *)
Definition registerNodeType (type : NodeClass) (options : option RegisterOptions)
    : M unit :=
  if beforeRegisterNodeType_prevented type then ret tt
  else
    modify (fun e =>
      set__nodeTypes
        (<[nc_type type :=
             mkNodeTypeInformation type
               (default "default" (options ≫= opt_category))
               (default (nc_title type) (options ≫= opt_title))
               (default false (options ≫= opt_isCategory))]> (_nodeTypes e)) e).

(** [addGraphTemplate(template, category, type)] (419-434); the class made
    by [CreateCustomGraphNodeType(template, type)] is [nodeClass]. *)
Definition addGraphTemplate (template : GraphState) (category : string)
    (nodeClass : NodeClass) : M unit :=
  if beforeAddGraphTemplate_prevented template then ret tt
  else
    do e <- get in
    if bool_decide (is_Some (_nodeTypes e !! (GRAPH_NODE_TYPE_PREFIX +:+ gs_id template)))
    then ret tt
    else
      run modify (fun e => set__graphTemplates (_graphTemplates e ++ [template]) e) in
      registerNodeType nodeClass
        (Some (mkRegisterOptions (Some category)
                 (gf_name (gs_fields template)) None)).

(** The writes of [subgraphNode.propagateInterfaces()]. *)
Definition apply_propagation
    (writes : list (nref * (jsobj NodeInterface * jsobj NodeInterface))) : M unit :=
  forEach writes
    (fun w =>
       do e <- get in
       match nodeStore e !! w.1 with
       | Some N => write_node w.1 (with_outputs w.2.2 (with_inputs w.2.1 N))
       | None => ret tt
       end).

(** [switchGraph(subgraphNode)] (436-462). The layout it schedules with
    [nextTick().then(...)] runs after the call and is not part of it. *)
Definition switchGraph (subgraphNode : nref) : M unit :=
  run modify (suppressHistoryLogging true) in
  do N <- the_node "propagateInterfaces" subgraphNode in
  match node_subgraph N with
  | None => throw "TypeError: subgraphNode.propagateInterfaces is not a function"
  | Some sg =>
      do e <- get in
      run apply_propagation (propagateInterfaces e subgraphNode) in
      do '(_, Sub) <- the_graph "nodes" (Some sg) in
      run forEach (graph_nodes Sub)
            (fun r =>
               do n <- the_node "id" r in
               do e <- get in
               match subgraphNodePositions e !! node_id n with
               | Some p =>
                   run write_node r (with_position (Some p) n) in
                   modify (fun e => set_subgraphNodePositions
                                      (delete (node_id n) (subgraphNodePositions e)) e)
               | None => ret tt
               end) in
      run modify (set__graph (Some sg)) in
      do '(_, Sub') <- the_graph "name" (Some sg) in
      run modify (set_graphName (graph_name Sub')) in
      modify (suppressHistoryLogging false)
  end.

(** [switchToSubgraph(subgraphNode)] (464-467). *)
Definition switchToSubgraph (subgraphNode : nref) : M unit :=
  do e <- get in
  do '(_, G) <- the_graph "id" (_graph e) in
  run modify (fun e => set_subgraphStack (subgraphStack e ++ [(graph_id G, subgraphNode)]) e) in
  switchGraph subgraphNode.

(** [array.pop()]. *)
Definition pop {A} (l : list A) : option (A * list A) :=
  match reverse l with
  | [] => None
  | x :: r => Some (x, reverse r)
  end.

(** The first interface of [o] that satisfies [p] is replaced by its image. *)
Fixpoint update_first (p : NodeInterface -> bool) (f : NodeInterface -> NodeInterface)
    (o : jsobj NodeInterface) : jsobj NodeInterface :=
  match o with
  | [] => []
  | (k, v) :: o' => if p v then (k, f v) :: o' else (k, v) :: update_first p f o'
  end.

Definition has_subgraphNodeId (id : string) (io : NodeInterface) : bool :=
  bool_decide (intf_subgraphNodeId io = Some id).

(** [Object.keys(ifaces).includes(k.subgraphNodeId)]. *)
Definition keys_include (ifaces : jsobj GraphInterface) (k : NodeInterface) : bool :=
  match intf_subgraphNodeId k with
  | Some s => bool_decide (s ∈ obj_keys ifaces)
  | None => false
  end.

(** The two loops of [backFromSubgraph] over the inputs of the graph node
    (501-517): interfaces that left the boundary are removed, the others are
    added or updated in place. The first loop walks the array
    [Object.values] made before any removal. *)
Definition reconcileInputs (subgraphNode : nref) (ifaces : jsobj GraphInterface) : M unit :=
  do N <- the_node "inputs" subgraphNode in
  run forEach (obj_values (node_inputs N))
        (fun k =>
           if keys_include ifaces k then ret tt
           else removeInput subgraphNode (intf_name k)) in
  forEach ifaces
    (fun entry =>
       let '(id, intf) := entry in
       do N <- the_node "inputs" subgraphNode in
       match List.find (has_subgraphNodeId id) (obj_values (node_inputs N)) with
       | None =>
           write_node subgraphNode
             (addInput (gi_name intf) (Object_assign (new_NodeInterface (gi_name intf)) intf)
                N)
       | Some _ =>
           write_node subgraphNode
             (with_inputs
                (update_first (has_subgraphNodeId id) (fun io => Object_assign io intf)
                   (node_inputs N)) N)
       end).

(** The same two loops over the outputs (519-535). *)
Definition reconcileOutputs (subgraphNode : nref) (ifaces : jsobj GraphInterface) : M unit :=
  do N <- the_node "outputs" subgraphNode in
  run forEach (obj_values (node_outputs N))
        (fun k =>
           if keys_include ifaces k then ret tt
           else removeOutput subgraphNode (intf_name k)) in
  forEach ifaces
    (fun entry =>
       let '(id, intf) := entry in
       do N <- the_node "outputs" subgraphNode in
       match List.find (has_subgraphNodeId id) (obj_values (node_outputs N)) with
       | None =>
           write_node subgraphNode
             (addOutput (gi_name intf) (Object_assign (new_NodeInterface (gi_name intf)) intf)
                N)
       | Some _ =>
           write_node subgraphNode
             (with_outputs
                (update_first (has_subgraphNodeId id) (fun io => Object_assign io intf)
                   (node_outputs N)) N)
       end).

Definition by_subgraphNodeId (l : list GraphInterface) : jsobj GraphInterface :=
  obj_fromEntries (map (fun intf => (template_literal (gi_subgraphNodeId intf), intf)) l).

(** [this._graph.updateInterfaces()] and the call of [applySidePositions]
    (485-491). *)
Definition boundaryInterfaces
    : M (list string + jsobj GraphInterface * jsobj GraphInterface) :=
  do e <- get in
  do '(g, G) <- the_graph "updateInterfaces" (_graph e) in
  let '(ins, outs) := updateInterfaces e g in
  run write_graph g (with_interfaces ins outs G) in
  ret (applySidePositions (by_subgraphNodeId ins) (by_subgraphNodeId outs)).

(** [errors.join('. ')]. *)
Fixpoint join (sep : string) (l : list string) : string :=
  match l with
  | [] => ""
  | [s] => s
  | s :: l' => s +:+ sep +:+ join sep l'
  end.

(** [backFromSubgraph()] (478-542). *)
Definition backFromSubgraph : M unit :=
  do e <- get in
  match pop (subgraphStack e) with
  | None =>
      throw "TypeError: undefined is not iterable (cannot read property Symbol(Symbol.iterator))"
  | Some ((newGraphId, subgraphNode), rest) =>
      run modify (set_subgraphStack rest) in
      let newGraph :=
        head (List.filter
                (fun g => match graphStore e !! g with
                          | Some G => bool_decide (graph_id G = newGraphId)
                          | None => false
                          end)
                (graphs e)) in
      run modify (suppressHistoryLogging true) in
      do ifaceOrPositionErrors <- boundaryInterfaces in
      match ifaceOrPositionErrors with
      | inl errors =>
          throw ("Error: Internal error occurred while returning back from a subgraph. "
                   +:+ "Reason: " +:+ join ". " errors)
      | inr (inputs, outputs) =>
          run reconcileInputs subgraphNode inputs in
          run reconcileOutputs subgraphNode outputs in
          run modify (set__graph newGraph) in
          do '(_, G) <- the_graph "name" newGraph in
          run modify (set_graphName (graph_name G)) in
          modify (suppressHistoryLogging false)
      end
  end.

(** [findInterface(nodeId, intfId, subgraphNodeId)] (544-561). *)
Definition findInterface (nodeId intfId : string) (subgraphNodeId : option string)
    : M (option NodeInterface) :=
  do e <- get in
  do '(_, G) <- the_graph "nodes" (_graph e) in
  match List.find (fun rn => bool_decide (node_id rn.2 = nodeId)) (node_objects e G) with
  | None => ret None
  | Some (_, foundNode) =>
      let all := obj_values (node_inputs foundNode) ++ obj_values (node_outputs foundNode) in
      match List.find (fun intf => bool_decide (intf_id intf = intfId)) all with
      | Some foundIntf => ret (Some foundIntf)
      | None =>
          match subgraphNodeId with
          | Some s =>
              if bool_decide (s = "") then ret None
              else ret (List.find (has_subgraphNodeId s) all)
          | None => ret None
          end
      end
  end.

(** An entry of [subgraphNodeToNode]: [{ nodeId, id }]. *)
Record Endpoint : Type := mkEndpoint {
  ep_nodeId : string;
  ep_id : string;
}.

Definition endpoint_of (i : NodeInterface) : Endpoint :=
  mkEndpoint (intf_nodeId i) (intf_id i).

(** [subgraphNodeToNode] is a [Map] that the code uses as a plain object:
    its entries are written and read as properties. [own_properties] are
    the properties written so far; [prototype] is the entry that an
    assignment to the key ["__proto__"] has put in the prototype slot, [None]
    while that is still [Map.prototype]. *)
Record MapObject : Type := mkMapObject {
  own_properties : gmap string Endpoint;
  prototype : option Endpoint;
}.

(** [new Map()]. *)
Definition new_Map : MapObject := mkMapObject ∅ None.

(** The properties with string keys of [Object.prototype] and of
    [Map.prototype] (ECMAScript 2023). *)
Definition Object_prototype_names : list string :=
  ["constructor"; "hasOwnProperty"; "isPrototypeOf"; "propertyIsEnumerable";
   "toLocaleString"; "toString"; "valueOf"; "__proto__"; "__defineGetter__";
   "__defineSetter__"; "__lookupGetter__"; "__lookupSetter__"].

Definition Map_prototype_names : list string :=
  ["clear"; "constructor"; "delete"; "entries"; "forEach"; "get"; "has"; "keys";
   "set"; "size"; "values"].

(** The names the object inherits: those of [Map.prototype] and, behind
    it, [Object.prototype]; once an entry is the prototype, the two
    properties of the entry and those of [Object.prototype] behind it. *)
Definition inherited_names (m : MapObject) : list string :=
  match prototype m with
  | None => Map_prototype_names ++ Object_prototype_names
  | Some _ => ["nodeId"; "id"] ++ Object_prototype_names
  end.

(** [subgraphNodeToNode[key] = entry] (572, 582, 595), in the strict code
    of a class. A property of its own is overwritten. Otherwise the
    prototype chain decides: ["__proto__"] is an accessor of
    [Object.prototype] whose setter makes [entry] the prototype; ["size"]
    is an accessor of [Map.prototype] without a setter, so the assignment
    throws; every other name, inherited (a method) or not, becomes a
    property of the object. *)
Definition set_property (m : MapObject) (key : string) (entry : Endpoint)
    : completion MapObject :=
  if bool_decide (is_Some (own_properties m !! key)) then
    Normal (mkMapObject (<[key := entry]> (own_properties m)) (prototype m))
  else if bool_decide (key = "__proto__") then
    Normal (mkMapObject (own_properties m) (Some entry))
  else if bool_decide (key = "size") && bool_decide (prototype m = None) then
    Throw "TypeError: Cannot set property size of #<Map> which has only a getter"
  else Normal (mkMapObject (<[key := entry]> (own_properties m)) (prototype m)).

(** [key in subgraphNodeToNode] (646, 652). *)
Definition has_property (m : MapObject) (key : string) : bool :=
  bool_decide (is_Some (own_properties m !! key))
  || bool_decide (key ∈ inherited_names m).

(** [subgraphNodeToNode[key]] for a [key] the object has, as far as the
    code looks at the value, which is at its [nodeId] and [id]: an entry, or
    [None] for a value that has neither. The inherited values are methods,
    the number [size] gives, the strings of the entry that is the prototype,
    and for ["__proto__"] the prototype itself: [Map.prototype] or that
    entry. *)
Definition get_property (m : MapObject) (key : string) : option Endpoint :=
  match own_properties m !! key with
  | Some entry => Some entry
  | None => if bool_decide (key = "__proto__") then prototype m else None
  end.

(** A loop that writes entries stops at the first assignment that throws. *)
Definition forEach_entry {A} (f : MapObject -> A -> completion MapObject) (l : list A)
    (m : MapObject) : completion MapObject :=
  fold_left
    (fun acc a => match acc with
                  | Normal m => f m a
                  | Throw err => Throw err
                  end)
    l (Normal m).

(** The first loop of [unwrapSubgraph] (565-588): where the inputs of the
    graph node lead inside the subgraph. *)
Definition mapInputs (connections : list Connection) (inputs : list NodeInterface)
    (m : MapObject) : completion MapObject :=
  forEach_entry
    (fun m input =>
       match List.find
               (fun c => bool_decide (Some (intf_id (conn_from c)) = intf_subgraphNodeId input))
               connections with
       | Some c => set_property m (intf_id input) (endpoint_of (conn_to c))
       | None =>
           match List.find
                   (fun c => bool_decide (Some (intf_id (conn_to c)) = intf_subgraphNodeId input))
                   connections with
           | Some c => set_property m (intf_id input) (endpoint_of (conn_from c))
           | None => Normal m
           end
       end)
    inputs m.

(** The second loop (589-600), over the outputs. *)
Definition mapOutputs (connections : list Connection) (outputs : list NodeInterface)
    (m : MapObject) : completion MapObject :=
  forEach_entry
    (fun m output =>
       match List.find
               (fun c => bool_decide (Some (intf_id (conn_to c)) = intf_subgraphNodeId output))
               connections with
       | Some c => set_property m (intf_id output) (endpoint_of (conn_from c))
       | None => Normal m
       end)
    outputs m.

(** Both loops, from the empty map. *)
Definition subgraphNodeToNode (connections : list Connection) (N : Node)
    : completion MapObject :=
  match mapInputs connections (obj_values (node_inputs N)) new_Map with
  | Normal m => mapOutputs connections (obj_values (node_outputs N)) m
  | Throw err => Throw err
  end.

Definition subgraphTypes : list string :=
  [SUBGRAPH_INOUT_NODE_TYPE; SUBGRAPH_INPUT_NODE_TYPE; SUBGRAPH_OUTPUT_NODE_TYPE].

(** [subgraphNodes] (605-607). *)
Definition subgraphNodes (e : Editor) (Sub : Graph) : list (nref * Node) :=
  List.filter (fun rn => negb (bool_decide (node_type rn.2 ∈ subgraphTypes)))
    (node_objects e Sub).

(** [n.position.x] and [n.position.y]. *)
Definition position_x (N : Node) : M jsnum := do p <- defined "x" (node_position N) in ret (vx p).
Definition position_y (N : Node) : M jsnum := do p <- defined "y" (node_position N) in ret (vy p).

(** [l.map(f)] for an [f] that may throw. *)
Fixpoint mapM {A B} (f : A -> M B) (l : list A) : M (list B) :=
  match l with
  | [] => ret []
  | a :: l' => do b <- f a in do bs <- mapM f l' in ret (b :: bs)
  end.

(** [values.reduce((sum, value) => sum + value, 0) / count] (609-614). *)
Definition mean (values : list jsnum) (count : nat) : jsnum :=
  js_div (fold_left js_add values (js_int 0)) (js_int (Z.of_nat count)).

Definition reset_connectionCount (i : NodeInterface) : NodeInterface :=
  mkNodeInterface (intf_id i) (intf_name i) (intf_nodeId i) (intf_subgraphNodeId i)
    (intf_side i) (intf_sidePosition i) 0.

(** One round of the loop that copies the nodes of the subgraph (618-635). *)
Definition copyNode (node : nref) (meanX meanY : jsnum) (subgraphNode : nref) : M unit :=
  do sn <- the_node "type" subgraphNode in
  if bool_decide (node_type sn ∈ subgraphTypes) then ret tt
  else
    run match node_position sn with
        | Some p =>
            modify (fun e => set_subgraphNodePositions
                               (<[node_id sn := p]> (subgraphNodePositions e)) e)
        | None => ret tt
        end in
    do e <- get in
    do '(g, _) <- the_graph "addNode" (_graph e) in
    do addedNode <- addNode g subgraphNode in
    match addedNode with
    | None => ret tt
    | Some added =>
        do a <- the_node "position" added in
        do N <- the_node "position" node in
        do ax <- position_x a in
        do nx <- position_x N in
        do ay <- position_y a in
        do ny <- position_y N in
        let p := mkVec2 (js_add ax (js_sub nx meanX)) (js_add ay (js_sub ny meanY)) in
        run write_node added (with_position (Some p) a) in
        do '(g, G) <- the_graph "selectedNodes" (Some g) in
        run write_graph g (with_selectedNodes (graph_selectedNodes G ++ [added]) G) in
        do a <- the_node "inputs" added in
        write_node added
          (with_outputs (map (fun kv => (kv.1, reset_connectionCount kv.2)) (node_outputs a))
             (with_inputs (map (fun kv => (kv.1, reset_connectionCount kv.2)) (node_inputs a)) a))
    end.

(** [connection.from.id in subgraphNodeToNode ? subgraphNodeToNode[..] : connection.from]
    (646-656): the [nodeId] and [id] of the resolved end, [None] when the
    value read from the map has neither. *)
Definition resolveEndpoint (m : MapObject) (i : NodeInterface) : option Endpoint :=
  if has_property m (intf_id i) then get_property m (intf_id i)
  else Some (endpoint_of i).

(** [this.findInterface(connectionFrom.nodeId, connectionFrom.id)] (657-658);
    with an undefined [nodeId] no node is found, every node id being a
    string. *)
Definition findResolved (resolved : option Endpoint) : M (option NodeInterface) :=
  match resolved with
  | Some connectionEnd => findInterface (ep_nodeId connectionEnd) (ep_id connectionEnd) None
  | None =>
      do e <- get in
      do '(_, _) <- the_graph "nodes" (_graph e) in
      ret None
  end.

(** One round of the loop that recreates the connections (643-662). *)
Definition reconnect (m : MapObject) (connection : Connection) : M unit :=
  if bool_decide (intf_name (conn_from connection) = "Connection")
     || bool_decide (intf_name (conn_to connection) = "Connection")
  then ret tt
  else
    let connectionFrom := resolveEndpoint m (conn_from connection) in
    let connectionTo := resolveEndpoint m (conn_to connection) in
    do foundFrom <- findResolved connectionFrom in
    do foundTo <- findResolved connectionTo in
    match foundFrom, foundTo with
    | Some from, Some to =>
        do e <- get in
        do '(g, _) <- the_graph "addConnection" (_graph e) in
        addConnection g from to
    | _, _ => ret tt
    end.

(** A value that was computed, or the exception it threw. *)
Definition lift {A} (c : completion A) : M A := fun e => (c, e).

(** [unwrapSubgraph(node)] (563-663). The first property read of
    [node.subgraph] is [connections], inside the two loops, when the node has
    an interface, and [_nodes] otherwise. *)
Definition unwrapSubgraph (node : nref) : M unit :=
  do N <- the_node "inputs" node in
  let firstRead :=
    match obj_values (node_inputs N) ++ obj_values (node_outputs N) with
    | [] => "_nodes"
    | _ => "connections"
    end in
  do '(sg, Sub) <- the_graph firstRead (node_subgraph N) in
  do subgraphNodeToNode <- lift (subgraphNodeToNode (graph_connections Sub) N) in
  do e <- get in
  let copied := subgraphNodes e Sub in
  do xs <- mapM (fun rn => position_x rn.2) copied in
  let meanX := mean xs (length copied) in
  do ys <- mapM (fun rn => position_y rn.2) copied in
  let meanY := mean ys (length copied) in
  do '(g, G) <- the_graph_to_set "selectedNodes" (_graph e) in
  run write_graph g (with_selectedNodes [] G) in
  run forEach (map fst copied) (copyNode node meanX meanY) in
  do e <- get in
  do '(g, G) <- the_graph "connections" (_graph e) in
  do N <- the_node "id" node in
  let subgraphNodeConnections := List.filter (touches (node_id N)) (graph_connections G) in
  run removeNode g node in
  do N <- the_node "subgraph" node in
  do '(_, Sub) <- the_graph "connections" (node_subgraph N) in
  forEach (graph_connections Sub ++ subgraphNodeConnections) (reconnect subgraphNodeToNode).

(** [isInSubgraph()] (665-667). *)
Definition isInSubgraph (e : Editor) : bool :=
  negb (bool_decide (length (subgraphStack e) = 0)).

(** [updateNodesPosition(updatedGraph)] (681-688). *)
Definition updateNodesPosition (updatedGraph : GraphState) : M unit :=
  forEach (gs_nodes updatedGraph)
    (fun updatedState =>
       do e <- get in
       do '(_, G) <- the_graph "nodes" (_graph e) in
       match List.filter (fun rn => bool_decide (nf_id (ns_fields updatedState) = node_id rn.2))
               (node_objects e G) with
       | (r, node) :: _ =>
           write_node r (with_position (nf_position (ns_fields updatedState)) node)
       | [] => throw (TypeError_set_undefined "position")
       end).

Definition reset_position (n : NodeState) : NodeState :=
  let f := ns_fields n in
  mkNodeState
    (mkNodeFields (nf_id f) (nf_name f) (nf_type f) None (nf_interfaces f) (nf_subgraph f))
    (ns_graphState n).

(** [applyAutolayout(resetLocations = true)] (669-679). *)
Definition applyAutolayout (resetLocations : bool) : M unit :=
  do e <- get in
  do '(g, _) <- the_graph "save" (_graph e) in
  let state := graph_save e g in
  let state := if resetLocations
               then set_nodes state (map reset_position (gs_nodes state))
               else state in
  updateNodesPosition (computeLayout state).

(** [centerZoom()] (347-400). *)
Definition centerZoom : M unit :=
  do e <- get in
  do '(g, G) <- the_graph "nodes" (_graph e) in
  match graph_nodes G with
  | [] => ret tt
  | _ =>
      match centerZoom_transform e with
      | None => ret tt
      | Some (p, s) => write_graph g (with_view (Some p) (Some s) G)
      end
  end.

(** [save()] (85-136). [switchToSubgraph] returns nothing, so the [throw] of
    line 122 is never taken. *)
Definition save : M Dataflow :=
  do e <- get in
  do '(_, G) <- the_graph "id" (_graph e) in
  let currentGraphId := graph_id G in
  let stackCopy := subgraphStack e in
  run forEach stackCopy (fun _ => backFromSubgraph) in
  do e <- get in
  do '(g, G) <- the_graph "save" (_graph e) in
  match saveState currentGraphId (graph_save e g) (graph_panning G) (graph_scaling G) with
  | Throw err => throw err
  | Normal state =>
      run forEach stackCopy (fun frame => switchToSubgraph frame.2) in
      ret state
  end.

(** [deepCleanEditor(suppressHistory = true)] (142-146): [forEach] walks the
    stack while [backFromSubgraph] pops it, so it stops at the index that
    has reached the shrinking length. *)
Fixpoint deepClean_loop (i : nat) (rounds : nat) : M unit :=
  match rounds with
  | O => ret tt
  | S rounds' =>
      do e <- get in
      if bool_decide (i < length (subgraphStack e))
      then run backFromSubgraph in deepClean_loop (S i) rounds'
      else ret tt
  end.

Definition deepCleanEditor (suppressHistory : bool) : M unit :=
  do e <- get in
  run deepClean_loop 0 (length (subgraphStack e)) in
  run cleanEditor suppressHistory in
  modify (set_graphName None).

(** The [dfs] of [load] (301-319) for the path of graph nodes to the entry
    graph. It recurses through live graphs; a depth beyond the number of
    graphs in the store means a graph repeats on the path, where JavaScript
    recurses until the stack overflows: [None]. *)
Fixpoint dfs (fuel : nat) (e : Editor) (entry : string) (subgraph : option gref)
    (path : list nref) : option (list nref) :=
  match fuel with
  | O => None
  | S fuel' =>
      match subgraph ≫= (fun g => graphStore e !! g) with
      | None => Some []
      | Some G =>
          (fix loop (nodes : list (nref * Node)) : option (list nref) :=
             match nodes with
             | [] => Some []
             | (r, n) :: rest =>
                 match node_subgraph n with
                 | None => loop rest
                 | Some sg =>
                     if bool_decide (graph_id <$> graphStore e !! sg = Some entry)
                     then Some (path ++ [r])
                     else
                       match dfs fuel' e entry (Some sg) (path ++ [r]) with
                       | None => None
                       | Some [] => loop rest
                       | Some returnedPath => Some returnedPath
                       end
                 end
             end) (node_objects e G)
      end
  end.

(** The part of [load] after the [try] block has gone through (291-344). *)
Definition load_finish (state : Dataflow) (entryGraph : GraphState)
    (readonlySetting : bool) (errors : list string) : M (list string) :=
  if negb (bool_decide (errors = [])) && negb developmentMode then
    run cleanEditor true in
    run modify (set_readonly readonlySetting) in
    ret errors
  else
    run modify (set_graphName (gf_name (gs_fields entryGraph))) in
    run modify (set_readonly readonlySetting) in
    run match df_graph state with
        | EntryRef entry =>
            do e <- get in
            match dfs (S (size (graphStore e))) e entry (_graph e) [] with
            | None => throw "RangeError: Maximum call stack size exceeded"
            | Some path => forEach path switchToSubgraph
            end
        | SingleGraph _ => ret tt
        end in
    do e <- get in
    run (if bool_decide (activeAlgorithm e = "NoLayout") then ret tt
         else applyAutolayout false) in
    let panning := gf_panning (gs_fields entryGraph) in
    let scaling := gf_scaling (gs_fields entryGraph) in
    run match panning with
        | Some p =>
            do e <- get in
            do '(g, G) <- the_graph_to_set "panning" (_graph e) in
            write_graph g (with_view (Some p) (graph_scaling G) G)
        | None => ret tt
        end in
    run match scaling with
        | Some s =>
            do e <- get in
            do '(g, G) <- the_graph_to_set "scaling" (_graph e) in
            write_graph g (with_view (graph_panning G) (Some s) G)
        | None => ret tt
        end in
    run match panning, scaling with
        | None, None => centerZoom
        | _, _ => ret tt
        end in
    ret errors.

(** The body of [load(state)] (192-345). The inner result says whether the
    [try] block returned from [load] ([inl]) or fell through ([inr]). *)
Definition load_body (state : Dataflow) : M (list string) :=
  run unregisterGraphs in
  do e <- get in
  let readonlySetting := readonly e in
  run modify (set_readonly true) in
  match resolveGraphs state with
  | Throw err => throw err
  | Normal (inl errors) => ret errors
  | Normal (inr (rootGraph, entryGraph)) =>
      do r <-
        try_catch
          (match instantiateRoot state rootGraph with
           | None => throw "RangeError: Maximum call stack size exceeded"
           | Some (Throw err) => throw err
           | Some (Normal (inl errors)) => ret (inl errors)
           | Some (Normal (inr rootGraph')) =>
               let state' := hooks_load_execute state in
               do e <- get in
               do g <- defined "load" (_graph e) in
               do errors <- graph_load rootGraph' g in
               ret (inr (state', errors))
           end)
          (fun err =>
             run cleanEditor true in
             run modify (set_readonly readonlySetting) in
             ret (inl [err])) in
      match r with
      | inl errors => ret errors
      | inr (state', errors) => load_finish state' entryGraph readonlySetting errors
      end
  end.

(** [async load(state)]: the promise it returns. *)
Definition load (state : Dataflow) (e : Editor) : settled (list string) * Editor :=
  match load_body state e with
  | (Normal errors, e') => (Resolved errors, e')
  | (Throw err, e') => (Rejected err, e')
  end.

End Editor.

(* ===================================================================== *)
(** * 6. [EditorManager] (EditorManager.js)                               *)
(* ===================================================================== *)

(** An entry of [nodes] in a specification. *)
Record SpecNode : Type := mkSpecNode {
  sn_name : string;
  sn_category : string;
  sn_inputs : list InterfaceState;
  sn_outputs : list InterfaceState;
  sn_properties : list string;
}.

(** [metadata] of a specification; a field is [None] when the key is absent. *)
Record SpecMetadata : Type := mkSpecMetadata {
  md_readonly : option bool;
  md_allowLoopbacks : option bool;
  md_interfaces : option (jsobj string);
}.

Record Specification : Type := mkSpecification {
  spec_nodes : list SpecNode;
  spec_metadata : SpecMetadata;
}.

(** A [<style>] element of [document.head]. *)
Record StyleElement : Type := mkStyleElement {
  style_id : string;
  style_innerText : string;
}.

(** The manager, with the part of the page it writes to. *)
Record EditorManager : Type := mkEditorManager {
  editor : Editor;
  nodeInterfaceTypes : list string;
  specificationLoaded : bool;
  document_head : list StyleElement;
  toasts : list string;
}.

Definition interfacesStyleId : string := "interfaces-style".

Definition set_editor (e : Editor) (m : EditorManager) : EditorManager :=
  mkEditorManager e (nodeInterfaceTypes m) (specificationLoaded m) (document_head m)
    (toasts m).

Definition set_document_head (h : list StyleElement) (m : EditorManager) : EditorManager :=
  mkEditorManager (editor m) (nodeInterfaceTypes m) (specificationLoaded m) h (toasts m).

(** Methods of the manager: state and exceptions, as for the editor. *)
Definition MM (A : Type) : Type := EditorManager -> completion A * EditorManager.

(** A method of the editor run on [this.editor]. *)
Definition on_editor {A} (m : M A) : MM A :=
  fun mgr => let '(r, e') := m (editor mgr) in (r, set_editor e' mgr).

Definition mm_bind {A B} (m : MM A) (k : A -> MM B) : MM B :=
  fun mgr => match m mgr with
             | (Normal a, mgr') => k a mgr'
             | (Throw err, mgr') => (Throw err, mgr')
             end.

Definition mm_ret {A} (a : A) : MM A := fun mgr => (Normal a, mgr).
Definition mm_modify (f : EditorManager -> EditorManager) : MM unit :=
  fun mgr => (Normal tt, f mgr).

Notation "'step' m 'in' k" := (mm_bind m (fun _ => k))
  (at level 10, m at level 100, k at level 200).

Section EditorManager.
Context `{Collaborators}.
(** NodeFactory.js: [readInterfaceTypes(nodes)] and the class
    [NodeFactory(name, displayName, inputs, properties, outputs, interfaceTypes)]
    builds. *)
Context (readInterfaceTypes : list SpecNode -> jsobj string).
Context (NodeFactory : string -> string -> list InterfaceState -> list string ->
                       list InterfaceState -> jsobj string -> NodeClass).

(** [removeInterfacesStyle()] (79-84): [getElementById] finds the first
    element with the id. *)
Fixpoint remove_first_style (id : string) (h : list StyleElement) : list StyleElement :=
  match h with
  | [] => []
  | s :: h' => if bool_decide (style_id s = id) then h' else s :: remove_first_style id h'
  end.

Definition removeInterfacesStyle : MM unit :=
  mm_modify (fun m => set_document_head (remove_first_style interfacesStyleId (document_head m)) m).

(** The rule [updateInterfacesStyle] writes for one interface type. *)
Definition style_rule (name color : string) : string :=
  ".baklava-node-interface[data-interface-type=" +:+ String (ascii_of_nat 34) ""
    +:+ name +:+ String (ascii_of_nat 34) "" +:+ "] .__port { background-color: "
    +:+ color +:+ "; }".

(** [updateInterfacesStyle(metadata)] (92-107). *)
Definition updateInterfacesStyle (metadata : SpecMetadata) : MM unit :=
  match md_interfaces metadata with
  | Some interfaces =>
      let styles :=
        fold_left (fun styles kv => styles +:+ style_rule kv.1 kv.2) interfaces "" in
      mm_modify (fun m =>
        set_document_head (document_head m ++ [mkStyleElement interfacesStyleId styles]) m)
  | None => mm_ret tt
  end.

(** [cleanEditor()] of the manager (116-131). *)
Definition manager_cleanEditor : MM unit :=
  step on_editor
    (do e <- get in
     do '(graphInstance, G) <- the_graph "connections" (_graph e) in
     run forEach (reverse (seq 0 (length (graph_connections G))))
           (fun i => removeConnection graphInstance i) in
     run forEach (reverse (seq 0 (length (graph_nodes G))))
           (fun i =>
              do '(_, G') <- the_graph "nodes" (Some graphInstance) in
              match graph_nodes G' !! i with
              | Some n => removeNode graphInstance n
              | None => ret tt
              end) in
     do e <- get in
     forEach (map fst (map_to_list (_nodeTypes e))) unregisterNodeType) in
  removeInterfacesStyle.

(** [updateEditorSpecification(dataflowSpecification)] (42-73); [None] is a
    falsy argument. *)
Definition updateEditorSpecification (dataflowSpecification : option Specification)
    : MM unit :=
  match dataflowSpecification with
  | None => mm_ret tt
  | Some spec =>
      fun m =>
        (step (if specificationLoaded m then manager_cleanEditor else mm_ret tt) in
         let nodes := spec_nodes spec in
         let metadata := spec_metadata spec in
         let interfaceTypes := readInterfaceTypes nodes in
         step mm_modify (fun m =>
                mkEditorManager (editor m)
                  (nodeInterfaceTypes m ++ obj_values interfaceTypes)
                  (specificationLoaded m) (document_head m) (toasts m)) in
         step updateInterfacesStyle metadata in
         step on_editor
           (forEach nodes
              (fun node =>
                 let myNode :=
                   NodeFactory (sn_name node) (sn_name node) (sn_inputs node)
                     (sn_properties node) (sn_outputs node) interfaceTypes in
                 registerNodeType myNode
                   (Some (mkRegisterOptions (Some (sn_category node))
                            (Some (sn_name node)) None)))) in
         step on_editor (modify (set_readonly (default false (md_readonly metadata)))) in
         step (fun m =>
                 if readonly (editor m)
                 then (Normal tt,
                       mkEditorManager (editor m) (nodeInterfaceTypes m)
                         (specificationLoaded m) (document_head m)
                         (toasts m ++
                            ["The specification is read-only. Only dataflow loading is allowed."]))
                 else (Normal tt, m)) in
         step on_editor
           (modify (set_allowLoopbacks (default false (md_allowLoopbacks metadata)))) in
         mm_modify (fun m =>
           mkEditorManager (editor m) (nodeInterfaceTypes m) true (document_head m)
             (toasts m))) m
  end.

(** [saveDataflow()] (138-140). *)
Definition saveDataflow : MM Dataflow := on_editor save.

(** [loadDataflow(dataflow)] (152-161). [load] is [async]: the call inside
    [try] hands back its promise and never throws, so the [catch] clause
    cannot run and the promise is returned as it is. *)
Definition loadDataflow (dataflow : Dataflow) (m : EditorManager)
    : settled (list string) * EditorManager :=
  let call : completion (settled (list string) * Editor) :=
    Normal (load dataflow (editor m)) in
  match call with
  | Normal (promise, e') => (promise, set_editor e' m)
  | Throw err =>
      (Resolved ["Unrecognized format. Make sure that the passed dataflow is correct.";
                 err], m)
  end.

End EditorManager.

(* ===================================================================== *)
(** * 7. A graph model after the specification                            *)
(* ===================================================================== *)

(** The collaborators as the specification describes them, simple enough to
    run: the model in which the examples below are evaluated. The theorems
    do not depend on it. *)
Module SpecModel.

Definition interface_of (nodeId : string) (s : InterfaceState) : NodeInterface :=
  mkNodeInterface (is_id s) (is_name s) nodeId (is_subgraphNodeId s) (is_side s)
    (is_sidePosition s) 0.

Definition interfaces_of (nodeId direction : string) (l : list InterfaceState)
    : jsobj NodeInterface :=
  obj_fromEntries
    (map (fun s => (is_name s, interface_of nodeId s))
       (List.filter (fun s => bool_decide (is_direction s = direction)) l)).

Definition fresh_ref {A} (store : gmap nat A) : nat := fresh (dom store).

(** Modelled from the spec: the Graph Model's [load] (CustomGraph.js, not in
    the sources) "applies the instantiated root graph": every node of the
    state becomes a live node, a node carrying [graphState] gets a live
    subgraph built the same way and registered with the editor. *)
Fixpoint build_graph (state : GraphState) (target : gref) (e : Editor) : Editor :=
  match state with
  | mkGraphState fields nodes =>
      let '(refs, e) :=
        (fix build_nodes (nodes : list NodeState) (e : Editor) : list nref * Editor :=
           match nodes with
           | [] => ([], e)
           | n :: rest =>
               let '(r, e) := build_node n e in
               let '(rs, e) := build_nodes rest e in
               (r :: rs, e)
           end) nodes e in
      set_graphStore
        (<[target := mkGraph (gf_id fields) (gf_name fields) refs []
                       (default [] (gf_inputs fields)) (default [] (gf_outputs fields))
                       (gf_panning fields) (gf_scaling fields) []]> (graphStore e)) e
  end
with build_node (state : NodeState) (e : Editor) : nref * Editor :=
  match state with
  | mkNodeState fields graphState =>
      let '(subgraph, e) :=
        match graphState with
        | Some g =>
            let sg := fresh_ref (graphStore e) in
            let e := set_graphStore
                       (<[sg := mkGraph (gs_id g) None [] [] [] [] None None []]>
                          (graphStore e)) e in
            let e := build_graph g sg e in
            (Some sg, set_graphs (graphs e ++ [sg]) e)
        | None => (None, e)
        end in
      let r := fresh_ref (nodeStore e) in
      (r, set_nodeStore
            (<[r := mkNode (nf_id fields) (nf_type fields) (nf_position fields)
                      (interfaces_of (nf_id fields) "input" (nf_interfaces fields))
                      (interfaces_of (nf_id fields) "output" (nf_interfaces fields))
                      subgraph]> (nodeStore e)) e)
  end.

(** The live interface with this id among the nodes of a graph. *)
Definition interface_by_id (e : Editor) (G : Graph) (id : string) : option NodeInterface :=
  List.find (fun i => bool_decide (intf_id i = id))
    (flat_map (fun rn => obj_values (node_inputs rn.2) ++ obj_values (node_outputs rn.2))
       (node_objects e G)).

(** Modelled from the spec: invariant 4, "every Connection endpoint must name
    an existing Node and an existing Interface owned by that node within the
    same graph"; a connection that does not is reported and left out. *)
Definition connect (e : Editor) (G : Graph) (cs : list ConnectionState)
    : list Connection * list string :=
  fold_left
    (fun acc c =>
       match interface_by_id e G (cs_from c), interface_by_id e G (cs_to c) with
       | Some from, Some to => (acc.1 ++ [mkConnection from to], acc.2)
       | _, _ => (acc.1, acc.2 ++ ["Connection from " +:+ cs_from c +:+ " to "
                                     +:+ cs_to c +:+ " names a missing interface"])
       end)
    cs ([], []).

Fixpoint connect_all (fuel : nat) (state : GraphState) (g : gref) (e : Editor)
    : list string * Editor :=
  match fuel, graphStore e !! g with
  | S fuel', Some G =>
      let '(conns, errs) := connect e G (gf_connections (gs_fields state)) in
      let e := set_graphStore (<[g := with_connections conns G]> (graphStore e)) e in
      fold_left
        (fun acc sn =>
           match ns_graphState sn.1, node_subgraph sn.2.2 with
           | Some gs, Some sg =>
               let '(errs', e') := connect_all fuel' gs sg acc.2 in
               (acc.1 ++ errs', e')
           | _, _ => acc
           end)
        (zip (gs_nodes state) (node_objects e G)) (errs, e)
  | _, _ => ([], e)
  end.

Fixpoint depth (state : GraphState) : nat :=
  match state with
  | mkGraphState _ nodes =>
      S (fold_right
           (fun n d => match n with
                       | mkNodeState _ (Some g) => Nat.max (depth g) d
                       | mkNodeState _ None => d
                       end) 0 nodes)
  end.

Definition load_graph (state : GraphState) (g : gref) : M (list string) :=
  fun e =>
    let e := build_graph state g e in
    let '(errs, e) := connect_all (depth state) state g e in
    (Normal errs, e).

Definition state_of_interface (direction : string) (i : NodeInterface) : InterfaceState :=
  mkInterfaceState (intf_id i) (intf_name i) direction (intf_side i)
    (intf_sidePosition i) (intf_subgraphNodeId i).

(** Modelled from the spec: the Graph Model's [save] (CustomGraph.js) gives
    the state of a graph, a node that owns a subgraph with the id of the
    subgraph and its expanded [graphState]. A graph met again on the way down
    is cut off. *)
Fixpoint snapshot (fuel : nat) (e : Editor) (g : gref) : option GraphState :=
  match fuel, graphStore e !! g with
  | S fuel', Some G =>
      Some (mkGraphState
              (mkGraphFields (graph_id G) (graph_name G)
                 (map (fun c => mkConnectionState (intf_id (conn_from c)) (intf_id (conn_to c)))
                    (graph_connections G))
                 (Some (graph_inputs G)) (Some (graph_outputs G))
                 (graph_panning G) (graph_scaling G))
              (map (fun rn =>
                      let n := rn.2 in
                      let sub := node_subgraph n ≫= snapshot fuel' e in
                      mkNodeState
                        (mkNodeFields (node_id n) None (node_type n) (node_position n)
                           (map (state_of_interface "input") (obj_values (node_inputs n))
                              ++ map (state_of_interface "output")
                                   (obj_values (node_outputs n)))
                           (gs_id <$> sub))
                        sub)
                 (node_objects e G)))
  | _, _ => None
  end.

Definition save_graph (e : Editor) (g : gref) : GraphState :=
  default (mkGraphState (mkGraphFields "" None [] None None None None) [])
    (snapshot (S (size (graphStore e))) e g).

Definition INPUT_TYPE : string := "Subgraph input".
Definition OUTPUT_TYPE : string := "Subgraph output".
Definition INOUT_TYPE : string := "Subgraph inout".

Definition boundary_of (i : NodeInterface) : GraphInterface :=
  mkGraphInterface (intf_id i) (intf_name i) (Some (intf_id i)) (intf_side i)
    (intf_sidePosition i).

(** Modelled from the spec: [updateInterfaces] "recomputes the current
    subgraph's boundary-interface set from its live content", the interfaces
    of its boundary markers. *)
Definition marker_interfaces (e : Editor) (g : gref)
    : list GraphInterface * list GraphInterface :=
  match graphStore e !! g with
  | Some G =>
      let markers (types : list string) :=
        flat_map
          (fun rn => map boundary_of
                       (obj_values (node_inputs rn.2) ++ obj_values (node_outputs rn.2)))
          (List.filter (fun rn => bool_decide (node_type rn.2 ∈ types)) (node_objects e G)) in
      (markers [INPUT_TYPE; INOUT_TYPE], markers [OUTPUT_TYPE])
  | None => ([], [])
  end.

Definition same_place (a b : GraphInterface) : bool :=
  bool_decide (gi_side a = gi_side b)
  && match gi_sidePosition a, gi_sidePosition b with
     | Some p, Some q => bool_decide (p = q)
     | _, _ => false
     end.

Fixpoint clashes (l : list GraphInterface) : list string :=
  match l with
  | [] => []
  | a :: l' =>
      (if existsb (same_place a) l'
       then ["Interface " +:+ gi_name a +:+ " shares its side position"]
       else [])
        ++ clashes l'
  end.

(** Modelled from the spec: reconciliation fails on an "inconsistent side
    assignment"; otherwise the interfaces are handed back as they are. *)
Definition side_positions (inputs outputs : jsobj GraphInterface)
    : list string + jsobj GraphInterface * jsobj GraphInterface :=
  match clashes (obj_values inputs ++ obj_values outputs) with
  | [] => inr (inputs, outputs)
  | errors => inl errors
  end.

(** The model in which the examples are run: nothing is vetoed, no hook or
    layout engine changes a document, the page has no geometry, and
    interfaces carry no values for [propagateInterfaces] to write. *)
Definition collaborators : Collaborators := {|
  graph_save := save_graph;
  graph_load := load_graph;
  updateInterfaces := marker_interfaces;
  connectionAccepted := fun _ _ _ _ => true;
  propagateInterfaces := fun _ _ => [];
  applySidePositions := side_positions;
  SUBGRAPH_INPUT_NODE_TYPE := INPUT_TYPE;
  SUBGRAPH_OUTPUT_NODE_TYPE := OUTPUT_TYPE;
  SUBGRAPH_INOUT_NODE_TYPE := INOUT_TYPE;
  beforeRegisterNodeType_prevented := fun _ => false;
  beforeAddGraphTemplate_prevented := fun _ => false;
  beforeAddNode_prevented := fun _ => false;
  hooks_load_execute := fun state => state;
  computeLayout := fun state => state;
  centerZoom_transform := fun _ => None;
  developmentMode := false;
|}.

(** An editor as constructed: one empty, registered root graph. *)
Definition new_editor : Editor :=
  mkEditor {[0 := mkGraph "root" None [] [] [] [] None None []]} ∅ (Some 0) [0] []
    false false false None ∅ [] ∅ false "NoLayout".

End SpecModel.

(* ===================================================================== *)
(** * 8. Predicates of the specification                                  *)
(* ===================================================================== *)

(** ** Root detection *)
(** A template id is referenced when some node of some template names it. *)
Definition referenced (templates : list GraphState) (id : string) : Prop :=
  exists t n, t ∈ templates /\ n ∈ gs_nodes t /\ ns_subgraph n = Some id.

(** ** Induction on document trees *)
Section NodeState_induction.

Variables (P : NodeState -> Prop) (Q : GraphState -> Prop).

Hypothesis plain_case : forall fields, P (mkNodeState fields None).

Hypothesis owner_case : forall fields g, Q g -> P (mkNodeState fields (Some g)).

Hypothesis graph_case :
  forall fields nodes, Forall P nodes -> Q (mkGraphState fields nodes).

Fixpoint NodeState_tree_ind (n : NodeState) : P n :=
  match n with
  | mkNodeState fields None => plain_case fields
  | mkNodeState fields (Some g) => owner_case fields g (GraphState_tree_ind g)
  end
with GraphState_tree_ind (g : GraphState) : Q g :=
  match g with
  | mkGraphState fields nodes =>
      graph_case fields nodes
        ((fix all (l : list NodeState) : Forall P l :=
            match l with
            | [] => @List.Forall_nil _ P
            | n :: l' => @List.Forall_cons _ P n l' (NodeState_tree_ind n) (all l')
            end) nodes)
  end.

End NodeState_induction.

Definition stripped (g : GraphState) : Prop :=
  Forall (fun n => ns_graphState n = None) (gs_nodes g).

Definition no_io (g : GraphState) : Prop :=
  gf_inputs (gs_fields g) = None /\ gf_outputs (gs_fields g) = None.

(** The two forms of a saved document. *)
Definition single_form (state : Dataflow) : Prop :=
  df_subgraphs state = None
  /\ exists root, df_graph state = SingleGraph root /\ no_io root /\ stripped root.

Definition multi_form (entry : string) (state : Dataflow) : Prop :=
  df_graph state = EntryRef entry
  /\ exists subgraphs root,
       df_subgraphs state = Some (subgraphs ++ [root]) /\ subgraphs <> []
       /\ no_io root /\ Forall stripped (subgraphs ++ [root]).

(** ** What navigation leaves alone *)
(** The registry, the id of every graph and the subgraph of every node. *)
Record skeleton (e e' : Editor) : Prop := mkSkeleton {
  skeleton_graphs : graphs e' = graphs e;
  skeleton_ids : forall g, graph_id <$> graphStore e' !! g = graph_id <$> graphStore e !! g;
  skeleton_subgraphs :
    forall n, node_subgraph <$> nodeStore e' !! n = node_subgraph <$> nodeStore e !! n;
}.

(** The skeleton, the active graph and the navigation stack. *)
Record quiet (e e' : Editor) : Prop := mkQuiet {
  quiet_skeleton : skeleton e e';
  quiet_graph : _graph e' = _graph e;
  quiet_stack : subgraphStack e' = subgraphStack e;
}.

Definition same_node_but_inputs (N N' : Node) : Prop :=
  node_id N' = node_id N /\ node_type N' = node_type N
  /\ node_position N' = node_position N /\ node_outputs N' = node_outputs N
  /\ node_subgraph N' = node_subgraph N.

Definition same_node_but_outputs (N N' : Node) : Prop :=
  node_id N' = node_id N /\ node_type N' = node_type N
  /\ node_position N' = node_position N /\ node_inputs N' = node_inputs N
  /\ node_subgraph N' = node_subgraph N.

(** ** What reconciliation leaves of the graph node *)
(** The node without the interface under [key]. *)
Definition without_input (key : string) (N : Node) : Node :=
  with_inputs (obj_delete (node_inputs N) key) N.
Definition without_output (key : string) (N : Node) : Node :=
  with_outputs (obj_delete (node_outputs N) key) N.

(** The node after the two loops of [reconcileInputs]. *)
Definition reconciled_inputs (ifaces : jsobj GraphInterface) (N : Node) : Node :=
  let N :=
    fold_left
      (fun N k => if keys_include ifaces k then N else without_input (intf_name k) N)
      (obj_values (node_inputs N)) N in
  fold_left
    (fun N entry =>
       let '(id, intf) := entry in
       match List.find (has_subgraphNodeId id) (obj_values (node_inputs N)) with
       | None =>
           addInput (gi_name intf) (Object_assign (new_NodeInterface (gi_name intf)) intf) N
       | Some _ =>
           with_inputs
             (update_first (has_subgraphNodeId id) (fun io => Object_assign io intf)
                (node_inputs N)) N
       end)
    ifaces N.

(** The node after the two loops of [reconcileOutputs]. *)
Definition reconciled_outputs (ifaces : jsobj GraphInterface) (N : Node) : Node :=
  let N :=
    fold_left
      (fun N k => if keys_include ifaces k then N else without_output (intf_name k) N)
      (obj_values (node_outputs N)) N in
  fold_left
    (fun N entry =>
       let '(id, intf) := entry in
       match List.find (has_subgraphNodeId id) (obj_values (node_outputs N)) with
       | None =>
           addOutput (gi_name intf) (Object_assign (new_NodeInterface (gi_name intf)) intf) N
       | Some _ =>
           with_outputs
             (update_first (has_subgraphNodeId id) (fun io => Object_assign io intf)
                (node_outputs N)) N
       end)
    ifaces N.

(** The stores of graphs differ in connections only. *)
Definition connections_only (s s' : gmap gref Graph) : Prop :=
  forall g,
    match s !! g, s' !! g with
    | Some G, Some G' => G' = with_connections (graph_connections G') G
    | None, None => True
    | _, _ => False
    end.

(** Node [n] has become [f] of what it was, the graphs have at most lost
    connections, and nothing else has changed. *)
Definition reconciles (n : nref) (f : Node -> Node) (e e' : Editor) : Prop :=
  exists N,
    nodeStore e !! n = Some N
    /\ e' = set_nodeStore (<[n := f N]> (nodeStore e)) (set_graphStore (graphStore e') e)
    /\ connections_only (graphStore e) (graphStore e').

(** ** [save] and the navigation state *)
Definition subgraph_of (e : Editor) (n : nref) : option gref :=
  nodeStore e !! n ≫= node_subgraph.

Definition id_of (e : Editor) (g : gref) : option string :=
  graph_id <$> graphStore e !! g.

(** Frames as [switchToSubgraph] pushes them: a frame records the id of the
    graph the frame below it leads into. *)
Fixpoint chained (e : Editor) (stack : list (string * nref)) : Prop :=
  match stack with
  | (_, n) :: (((gid, _) :: _) as rest) =>
      subgraph_of e n ≫= id_of e = Some gid /\ chained e rest
  | _ => True
  end.

(** The stack is chained and its top frame leads into the active graph. *)
Definition navigation_consistent (e : Editor) : Prop :=
  chained e (subgraphStack e)
  /\ match last (subgraphStack e) with
     | Some (_, n) => _graph e = subgraph_of e n
     | None => True
     end.

(** ** The centroid of [unwrapSubgraph] *)
(** [addedNode.position.x += node.position.x - meanX], and the same for [y]
    (625-626): the position [p] of a copied node, moved by the position
    [pN] of the graph node less the centroid. *)
Definition translated (p pN : Vec2) (meanX meanY : jsnum) : Vec2 :=
  mkVec2 (js_add (vx p) (js_sub (vx pN) meanX)) (js_add (vy p) (js_sub (vy pN) meanY)).

(** The [x] and the [y] of the nodes that have a position. *)
Definition xs_of (nodes : list (nref * Node)) : list jsnum :=
  omap (fun rn => vx <$> node_position rn.2) nodes.
Definition ys_of (nodes : list (nref * Node)) : list jsnum :=
  omap (fun rn => vy <$> node_position rn.2) nodes.

(** Where the copied node [Nr] is after the call, [N'] being what the store
    then holds for it: where it was when a listener vetoed [addNode],
    translated otherwise. *)
Definition moved_to `{Collaborators} (N Nr N' : Node) (meanX meanY : jsnum) : Prop :=
  exists p, node_position Nr = Some p
    /\ if beforeAddNode_prevented Nr then node_position N' = Some p
       else exists pN, node_position N = Some pN
                       /\ node_position N' = Some (translated p pN meanX meanY).

(** [ep] is an end of a connection of the subgraph. *)
Definition is_end (conns : list Connection) (ep : Endpoint) : Prop :=
  exists c, c ∈ conns /\ (ep = endpoint_of (conn_from c) \/ ep = endpoint_of (conn_to c)).

(** Every entry written to [subgraphNodeToNode], as an own property or in
    the place of its prototype, is an end of a connection of the subgraph. *)
Definition ends_in (conns : list Connection) (m : MapObject) : Prop :=
  (forall k ep, own_properties m !! k = Some ep -> is_end conns ep)
  /\ (forall ep, prototype m = Some ep -> is_end conns ep).

(** [i] is an interface of a node of the graph [G]. *)
Definition interface_in (e : Editor) (G : Graph) (i : NodeInterface) : Prop :=
  exists rn, rn ∈ node_objects e G
             /\ i ∈ obj_values (node_inputs rn.2) ++ obj_values (node_outputs rn.2).

(** Both ends of [c] are interfaces of nodes of [G]. *)
Definition joins (e : Editor) (G : Graph) (c : Connection) : Prop :=
  interface_in e G (conn_from c) /\ interface_in e G (conn_to c).

(** The graph [g] is shown and has the connections [conns]. *)
Definition wired (g : gref) (conns : list Connection) (e : Editor) : Prop :=
  _graph e = Some g /\ exists G, graphStore e !! g = Some G /\ graph_connections G = conns.

(** No node of the active graph has this id. *)
Definition absent (e : Editor) (nodeId : string) : Prop :=
  exists g G, _graph e = Some g /\ graphStore e !! g = Some G
              /\ forall rn, rn ∈ node_objects e G -> node_id rn.2 <> nodeId.

(** An end that resolves to nothing, or to a node that the graph on display
    does not hold. *)
Definition unresolved (e : Editor) (resolved : option Endpoint) : Prop :=
  match resolved with
  | Some ep => absent e (ep_nodeId ep)
  | None => exists g G, _graph e = Some g /\ graphStore e !! g = Some G
  end.

(** The connections of the graph shown are [kept], then connections
    created between interfaces of the nodes of [G0] in [e0]. *)
Definition reconnected (e0 : Editor) (G0 : Graph) (g : gref) (kept : list Connection)
    (e : Editor) : Prop :=
  _graph e = Some g /\ nodeStore e = nodeStore e0
  /\ exists G created,
       graphStore e !! g = Some G /\ graph_nodes G = graph_nodes G0
       /\ graph_connections G = kept ++ created /\ Forall (joins e0 G0) created.

(** Only the store of graphs differs. *)
Definition only_graphs (e e' : Editor) : Prop := e' = set_graphStore (graphStore e') e.

Section Registry.
Context `{Collaborators}.
Context (NodeFactory : string -> string -> list InterfaceState -> list string ->
                       list InterfaceState -> jsobj string -> NodeClass).

(** The registry the nodes of a specification produce, on top of [types]. *)
Definition register_all (nodes : list SpecNode) (interfaceTypes : jsobj string)
    (types : gmap string NodeTypeInformation) : gmap string NodeTypeInformation :=
  fold_left
    (fun types node =>
       let myNode :=
         NodeFactory (sn_name node) (sn_name node) (sn_inputs node) (sn_properties node)
           (sn_outputs node) interfaceTypes in
       if beforeRegisterNodeType_prevented myNode then types
       else <[nc_type myNode :=
                mkNodeTypeInformation myNode (sn_category node) (sn_name node) false]> types)
    nodes types.

End Registry.

(** The stylesheet a specification injects. *)
Definition interface_style (spec : Specification) : list StyleElement :=
  match md_interfaces (spec_metadata spec) with
  | Some interfaces =>
      [mkStyleElement interfacesStyleId
         (fold_left (fun styles kv => styles +:+ style_rule kv.1 kv.2) interfaces "")]
  | None => []
  end.

(** The active graph is in the store and its nodes are objects. *)
Definition graph_alive (g : gref) (e : Editor) : Prop :=
  exists G, graphStore e !! g = Some G
            /\ forall n, n ∈ graph_nodes G -> is_Some (nodeStore e !! n).

(** ** Entering a subgraph and leaving it at once *)
(** The boundary [ifaces] and the interfaces [ios] of one side of the graph
    node agree: every interface names a boundary entry, every entry carries
    its own key as [subgraphNodeId] and is held by an interface. *)
Definition in_sync (ifaces : jsobj GraphInterface) (ios : jsobj NodeInterface) : bool :=
  forallb (keys_include ifaces) (obj_values ios)
  && forallb
       (fun entry =>
          bool_decide (gi_subgraphNodeId entry.2 = Some entry.1)
          && existsb (has_subgraphNodeId entry.1) (obj_values ios))
       ifaces.

(** No update in place changes an interface. *)
Definition settled_side (ifaces : jsobj GraphInterface) (ios : jsobj NodeInterface) : Prop :=
  forall id intf io,
    (id, intf) ∈ ifaces -> io ∈ obj_values ios -> has_subgraphNodeId id io = true ->
    Object_assign io intf = io.

(** The interfaces of node [n] are as before. *)
Definition keeps_interfaces (n : nref) (e e' : Editor) : Prop :=
  forall N, nodeStore e !! n = Some N ->
            exists N', nodeStore e' !! n = Some N'
                       /\ node_inputs N' = node_inputs N
                       /\ node_outputs N' = node_outputs N.

(** ** [load], [save] and [load] again *)
(** The tree [load] hands to the graph model, with the entry graph. *)
Definition document_tree (state : Dataflow) : option (GraphState * GraphState) :=
  match resolveGraphs state with
  | Normal (inr (rootGraph, entryGraph)) =>
      match instantiateRoot state rootGraph with
      | Some (Normal (inr tree)) => Some (tree, entryGraph)
      | _ => None
      end
  | _ => None
  end.

(** A node that names no subgraph carries no [graphState]. *)
Definition plain (n : NodeState) : bool :=
  match ns_subgraph n, ns_graphState n with
  | None, Some _ => false
  | _, _ => true
  end.

(** A document as [save] writes them: no stray [graphState], and the graph
    of a single-graph document is not itself the subgraph of a node. *)
Definition valid_document (state : Dataflow) : bool :=
  let templates := default [] (df_subgraphs state) in
  forallb (fun t => forallb plain (gs_nodes t)) templates
  && match df_graph state with
     | SingleGraph graph =>
         forallb plain (gs_nodes graph)
         && negb (bool_decide (gs_id graph ∈ usedSubgraphs (graph :: templates)))
     | EntryRef _ => true
     end.

(** The ids of the expanded subgraphs below a node, in the order [save]
    pushes them. *)
Fixpoint subgraph_ids (n : NodeState) : list string :=
  match n with
  | mkNodeState fields (Some (mkGraphState gfields nodes)) =>
      match nf_subgraph fields with
      | Some _ => gf_id gfields :: flat_map subgraph_ids nodes
      | None => []
      end
  | mkNodeState _ None => []
  end.

Definition strip (n : NodeState) : NodeState := mkNodeState (ns_fields n) None.

(** A node as [recurrentSubgraphLoad] leaves it when it reports no error,
    with [usedInstances] before and after; [R] holds of the ids met. *)
Inductive Inst (R : string -> Prop) : gset string -> NodeState -> gset string -> Prop :=
| Inst_plain fields used :
    nf_subgraph fields = None -> Inst R used (mkNodeState fields None) used
| Inst_owner fields s gfields nodes used used' :
    nf_subgraph fields = Some s -> gf_id gfields = s -> s ∉ used -> R s ->
    InstList R ({[s]} ∪ used) nodes used' ->
    Inst R used (mkNodeState fields (Some (mkGraphState gfields nodes))) used'
with InstList (R : string -> Prop) : gset string -> list NodeState -> gset string -> Prop :=
| InstList_nil used : InstList R used [] used
| InstList_cons n rest used used1 used2 :
    Inst R used n used1 -> InstList R used1 rest used2 ->
    InstList R used (n :: rest) used2.

Scheme Inst_mut := Minimality for Inst Sort Prop
  with InstList_mut := Minimality for InstList Sort Prop.

Combined Scheme Inst_mutind from Inst_mut, InstList_mut.

(** A tree as [load] builds them: a node carries the expanded state of its
    subgraph exactly when it names one, the state has the id the node names,
    and the ids met on the way through the tree are distinct and none of them
    is the id of the root. *)
Definition loaded_tree (S : GraphState) : Prop :=
  exists used', InstList (fun id => id <> gs_id S) ∅ (gs_nodes S) used'.

(** The template [t] is the only one of its id among [subgraphs]. *)
Definition unique_in (subgraphs : option (list GraphState)) (t : GraphState) : Prop :=
  exists l, subgraphs = Some l
            /\ List.filter (fun t' => bool_decide (gs_id t' = gs_id t)) l = [t].

(** What [save] pushes for nodes that [load] instantiated: [heads] are the
    subgraph ids of the nodes themselves, [ids] those of all the expanded
    subgraphs below them. *)
Record saved (R : string -> Prop) (used used' : gset string) (heads ids : list string)
    (pushed : list GraphState) : Prop := mkSaved {
  saved_ids : map gs_id pushed = ids;
  saved_nodup : NoDup ids;
  saved_used : forall id, id ∈ used' <-> id ∈ ids \/ id ∈ used;
  saved_fresh : forall id, id ∈ ids -> (id ∉ used) /\ R id;
  saved_parent : forall id, id ∈ ids -> id ∈ heads \/ referenced pushed id;
  saved_refs : forall s, s ∈ heads \/ referenced pushed s -> s ∈ ids;
}.

Definition reloads_node (n : NodeState) (used used' : gset string)
    (pushed : list GraphState) : Prop :=
  forall subgraphs fuel,
    (forall t, t ∈ pushed -> unique_in subgraphs t) -> length pushed < fuel ->
    recurrentSubgraphLoad fuel subgraphs (strip n) used = Some (Normal ([], n, used')).

Definition reloads_nodes (nodes : list NodeState) (used used' : gset string)
    (pushed : list GraphState) : Prop :=
  forall subgraphs fuel,
    (forall t, t ∈ pushed -> unique_in subgraphs t) -> length pushed < fuel ->
    forEach_load (recurrentSubgraphLoad fuel subgraphs) (map strip nodes) used
    = Some (Normal ([], nodes, used')).

(** ** The fuel of [recurrentSubgraphLoad] *)
(** The templates whose id is not yet in [usedInstances]: every level of
    the recursion takes one away. *)
Definition unused (templates : list GraphState) (used : gset string) : nat :=
  length (List.filter (fun t => negb (bool_decide (gs_id t ∈ used))) templates).

Definition returns_growing (used : gset string) (r : option (completion LoadStep)) : Prop :=
  exists c, r = Some c
            /\ forall errs n' used', c = Normal (errs, n', used') -> used ⊆ used'.

(* ===================================================================== *)
(** * 9. Example documents and editors                                    *)
(* ===================================================================== *)

Definition example_node (id : string) (subgraph : option string) : NodeState :=
  mkNodeState (mkNodeFields id (Some id) "Filter" (Some (mkVec2 (js_int 0) (js_int 0))) [] subgraph)
    None.

Definition example_graph (id : string) (nodes : list NodeState) : GraphState :=
  mkGraphState (mkGraphFields id (Some id) [] None None None None) nodes.

(** Two templates that name each other: no root. *)
Definition cyclic_templates : list GraphState :=
  [example_graph "a" [example_node "n" (Some "b")];
   example_graph "b" [example_node "m" (Some "a")]].

(** Documents on which [load] returns early. *)
Definition no_root (entry : string) : Dataflow := mkDataflow (EntryRef entry) (Some []).

Definition no_entry : Dataflow := mkDataflow (EntryRef "b") (Some [example_graph "a" []]).

Definition no_template : Dataflow :=
  mkDataflow (SingleGraph (example_graph "a" [example_node "n" (Some "s")])) (Some []).

(** Two templates, neither referenced. *)
Definition two_roots : list GraphState := [example_graph "a" []; example_graph "b" []].

(** A document with one subgraph, saved while the subgraph was shown. *)
Definition nested_document : Dataflow :=
  mkDataflow (EntryRef "inner")
    (Some [example_graph "outer" [example_node "owner" (Some "inner")];
           example_graph "inner" [example_node "leaf" None]]).

(** The editor after loading it: inside the subgraph, one frame on the stack. *)
Definition nested_editor : Editor :=
  (@load SpecModel.collaborators nested_document SpecModel.new_editor).2.

Definition nested_saved : Dataflow * Editor :=
  match @save SpecModel.collaborators nested_editor with
  | (Normal state, e) => (state, e)
  | (Throw _, e) => (nested_document, e)
  end.

(** ** A graph node around a pass-through subgraph *)
Definition port (nodeId id : string) (subgraphNodeId : option string) : NodeInterface :=
  mkNodeInterface id id nodeId subgraphNodeId "left" None 1.

Definition origin : option Vec2 := Some (mkVec2 (js_int 0) (js_int 0)).

(** The parent graph [0]: [A] -> [N] -> [C]; [N] owns the subgraph [1], in
    which the input marker is wired straight to the output marker. With
    [with_filter] the subgraph also holds an ordinary node. *)
Definition passthrough (with_filter : bool) : Editor :=
  let a_out := port "A" "a_out" None in
  let n_in := port "N" "n_in" (Some "bi") in
  let n_out := port "N" "n_out" (Some "bo") in
  let c_in := port "C" "c_in" None in
  let bi := port "BI" "bi" None in
  let bo := port "BO" "bo" None in
  mkEditor
    {[0 := mkGraph "root" None [0; 1; 2]
             [mkConnection a_out n_in; mkConnection n_out c_in] [] [] None None [];
      1 := mkGraph "sub" None (if with_filter then [3; 4; 5] else [3; 4])
             [mkConnection bi bo] [] [] None None []]}
    {[0 := mkNode "A" "Source" origin [] [("a_out", a_out)] None;
      1 := mkNode "N" "Group" (Some (mkVec2 (js_int 10) (js_int 4)))
             [("n_in", n_in)] [("n_out", n_out)] (Some 1);
      2 := mkNode "C" "Sink" origin [("c_in", c_in)] [] None;
      3 := mkNode "BI" SpecModel.INPUT_TYPE origin [] [("bi", bi)] None;
      4 := mkNode "BO" SpecModel.OUTPUT_TYPE origin [("bo", bo)] [] None;
      5 := mkNode "F" "Filter" (Some (mkVec2 (js_int 2) (js_int 6))) [] [] None]}
    (Some 0) [0; 1] [] false false false None ∅ [] ∅ false "NoLayout".

Definition unwrapped (with_filter : bool) : completion unit * Editor :=
  @unwrapSubgraph SpecModel.collaborators 1 (passthrough with_filter).







(** The same parent graph around a subgraph in which the markers are wired
    through an ordinary node: [BI] -> [F] -> [BO]. *)
Definition filtered : Editor :=
  let a_out := port "A" "a_out" None in
  let n_in := port "N" "n_in" (Some "bi") in
  let n_out := port "N" "n_out" (Some "bo") in
  let c_in := port "C" "c_in" None in
  let bi := port "BI" "bi" None in
  let bo := port "BO" "bo" None in
  let f_in := port "F" "f_in" None in
  let f_out := port "F" "f_out" None in
  mkEditor
    {[0 := mkGraph "root" None [0; 1; 2]
             [mkConnection a_out n_in; mkConnection n_out c_in] [] [] None None [];
      1 := mkGraph "sub" None [3; 4; 5]
             [mkConnection bi f_in; mkConnection f_out bo] [] [] None None []]}
    {[0 := mkNode "A" "Source" origin [] [("a_out", a_out)] None;
      1 := mkNode "N" "Group" (Some (mkVec2 (js_int 10) (js_int 4)))
             [("n_in", n_in)] [("n_out", n_out)] (Some 1);
      2 := mkNode "C" "Sink" origin [("c_in", c_in)] [] None;
      3 := mkNode "BI" SpecModel.INPUT_TYPE origin [] [("bi", bi)] None;
      4 := mkNode "BO" SpecModel.OUTPUT_TYPE origin [("bo", bo)] [] None;
      5 := mkNode "F" "Filter" (Some (mkVec2 (js_int 2) (js_int 6)))
             [("f_in", f_in)] [("f_out", f_out)] None]}
    (Some 0) [0; 1] [] false false false None ∅ [] ∅ false "NoLayout".

(** The graph node whose input interface has the id [size]. *)
Definition sized : Editor :=
  let a_out := port "A" "a_out" None in
  let n_in := port "N" "size" (Some "bi") in
  let bi := port "BI" "bi" None in
  let bo := port "BO" "bo" None in
  mkEditor
    {[0 := mkGraph "root" None [0; 1] [mkConnection a_out n_in] [] [] None None [];
      1 := mkGraph "sub" None [3; 4] [mkConnection bi bo] [] [] None None []]}
    {[0 := mkNode "A" "Source" origin [] [("a_out", a_out)] None;
      1 := mkNode "N" "Group" origin [("size", n_in)] [] (Some 1);
      3 := mkNode "BI" SpecModel.INPUT_TYPE origin [] [("bi", bi)] None;
      4 := mkNode "BO" SpecModel.OUTPUT_TYPE origin [("bo", bo)] [] None]}
    (Some 0) [0; 1] [] false false false None ∅ [] ∅ false "NoLayout".

(** The pass-through editor with the graph node and the node of its subgraph
    at the two ends of the range of finite numbers. *)
Definition huge : jsnum := js_int (2 ^ 1023).

Definition far_apart : Editor :=
  let e := passthrough true in
  set_nodeStore
    (<[1 := mkNode "N" "Group" (Some (mkVec2 (js_sub (js_int 0) huge) (js_int 4)))
              [("n_in", port "N" "n_in" (Some "bi"))]
              [("n_out", port "N" "n_out" (Some "bo"))] (Some 1)]>
       (<[5 := mkNode "F" "Filter" (Some (mkVec2 huge (js_int 6))) [] [] None]>
          (nodeStore e)))
    e.

(** The node has a position of two finite numbers. *)
Definition finite_position (N : Node) : bool :=
  match node_position N with
  | Some p => is_finite (vx p) && is_finite (vy p)
  | None => false
  end.

(** A node factory that keeps the name, and no interface types. *)
Definition plain_factory (name displayName : string) (inputs : list InterfaceState)
    (properties : list string) (outputs : list InterfaceState) (types : jsobj string)
    : NodeClass :=
  mkNodeClass name displayName.

Definition plain_update (spec : Specification) : MM unit :=
  updateEditorSpecification (H := SpecModel.collaborators) (fun _ => []) plain_factory
    (Some spec).

Definition new_manager : EditorManager :=
  mkEditorManager SpecModel.new_editor [] false [] [].

Definition first_specification : Specification :=
  mkSpecification [mkSpecNode "Source" "io" [] [] []]
    (mkSpecMetadata None None (Some [("data", "red")])).

Definition second_specification : Specification :=
  mkSpecification [mkSpecNode "Sink" "io" [] [] []]
    (mkSpecMetadata None None (Some [("data", "blue")])).

Definition a_template : GraphState :=
  mkGraphState (mkGraphFields "t" (Some "Template") [] None None None None) [].

(** The first specification, a subgraph template registered under it, then
    the second specification. *)
Definition two_specifications : MM unit :=
  step plain_update first_specification in
  step on_editor
    (addGraphTemplate (H := SpecModel.collaborators) a_template "Subgraphs"
       (mkNodeClass (GRAPH_NODE_TYPE_PREFIX +:+ "t") "Template")) in
  plain_update second_specification.

(** A graph node with one input that names the boundary marker [x]. *)
Definition owner_node : Node :=
  mkNode "n" "graph" None
    [("data", mkNodeInterface "x" "data" "n" (Some "x") "left" (Some 0) 0)] [] (Some 1).

(** The marker of that input inside the subgraph. *)
Definition marker_node : Node :=
  mkNode "m" SpecModel.INPUT_TYPE None []
    [("data", mkNodeInterface "x" "data" "m" None "left" (Some 0) 0)] None.

(** The node in the root graph; its subgraph is empty. *)
Definition stale_editor : Editor :=
  mkEditor
    {[0 := mkGraph "root" None [0] [] [] [] None None [];
      1 := mkGraph "s" None [] [] [] [] None None []]}
    {[0 := owner_node]} (Some 0) [0; 1] []
    false false false None ∅ [] ∅ false "NoLayout".

(** The same with the marker in the subgraph. *)
Definition synced_editor : Editor :=
  mkEditor
    {[0 := mkGraph "root" None [0] [] [] [] None None [];
      1 := mkGraph "s" None [1] [] [] [] None None []]}
    {[0 := owner_node; 1 := marker_node]} (Some 0) [0; 1] []
    false false false None ∅ [] ∅ false "NoLayout".

Definition enter_and_leave (n : nref) : M unit :=
  run switchToSubgraph (H := SpecModel.collaborators) n in
  backFromSubgraph (H := SpecModel.collaborators).

(** The tree [load] builds from the document with one subgraph. *)
Definition nested_tree : GraphState :=
  empty_io
    (example_graph "outer"
       [set_graphState (example_node "owner" (Some "inner"))
          (Some (example_graph "inner" [example_node "leaf" None]))]).

(** The editor after loading what [save] returned. *)
Definition reloaded : Editor :=
  (@load SpecModel.collaborators nested_saved.1 nested_saved.2).2.

(* ===================================================================== *)
(** * 10. The notification and terminal stores (src/unnamed/part_000)     *)
(* ===================================================================== *)

(** The two places a value is kept in: [localStorage] when the test at
    start-up found it usable ([storageAvailable]), the map [pmStorage]
    otherwise. A write to a usable [localStorage] is taken to succeed. *)
Record Storage : Type := mkStorage {
  storageAvailable : bool;
  localStorage : gmap string string;
  pmStorage : gmap string string;
}.

(** [get(key)] (22-25), [null] being [None]; the name [get] is the
    editor monad's. *)
Definition storage_get (key : string) (s : Storage) : option string :=
  if storageAvailable s then localStorage s !! key else pmStorage s !! key.

(** [set(key, value)] (27-30). *)
Definition storage_set (key value : string) (s : Storage) : Storage :=
  if storageAvailable s
  then mkStorage (storageAvailable s) (<[key := value]> (localStorage s)) (pmStorage s)
  else mkStorage (storageAvailable s) (localStorage s) (<[key := value]> (pmStorage s)).

(** [remove(key)] (32-35). *)
Definition storage_remove (key : string) (s : Storage) : Storage :=
  if storageAvailable s
  then mkStorage (storageAvailable s) (delete key (localStorage s)) (pmStorage s)
  else mkStorage (storageAvailable s) (localStorage s) (delete key (pmStorage s)).

(** [array.filter((_, idx) => keep(idx))], the indices counted from [i]. *)
Fixpoint filter_index {A} (keep : nat -> bool) (i : nat) (l : list A) : list A :=
  match l with
  | [] => []
  | a :: l' => if keep i then a :: filter_index keep (S i) l' else filter_index keep (S i) l'
  end.

(** [JSON.stringify] of the two arrays, and [JSON.parse(text) || []] of a
    stored text, which may throw. A notification is whatever the callers
    pass. *)
Class JSON (Notification : Type) : Type := {
  stringify_notifications : list Notification -> string;
  stringify_logs : list string -> string;
  parse_notifications : string -> completion (list Notification);
  parse_logs : string -> completion (list string);
}.

(** The two reactive stores with the storage behind them. *)
Record Stores (Notification : Type) : Type := mkStores {
  storage : Storage;
  notifications : list Notification;
  logs : list string;
}.
Arguments mkStores {Notification} storage notifications logs.
Arguments storage {Notification} s.
Arguments notifications {Notification} s.
Arguments logs {Notification} s.

(** The [messages] argument of [addParsed]: nothing, a string or an array. *)
Inductive Messages : Type :=
| NoMessages
| OneMessage (message : string)
| ManyMessages (messages : list string).

(** [if (messages)]: the empty string is falsy, every array is truthy. *)
Definition truthy (messages : Messages) : bool :=
  match messages with
  | NoMessages => false
  | OneMessage message => negb (bool_decide (message = ""))
  | ManyMessages _ => true
  end.

Definition newline : string := String (ascii_of_nat 10) "".

(** The text [addParsed] builds (86-100). *)
Definition parsedMessage (title : string) (messages : Messages) : string :=
  if truthy messages then
    let messages :=
      match messages with
      | OneMessage message => [message]
      | ManyMessages messages => messages
      | NoMessages => []
      end in
    fold_left (fun parsedMessage message => parsedMessage +:+ newline +:+ "    " +:+ message)
      messages (title +:+ ":")
  else title +:+ ".".

Module notificationStore.
Section Methods.
Context {Notification : Type} `{JSON Notification}.

(** [notifications: JSON.parse(get('notifications')) || []] (39): what the
    store starts with; [JSON.parse(null)] is [null]. *)
Definition initial (s : Storage) : completion (list Notification) :=
  match storage_get "notifications" s with
  | Some text => parse_notifications text
  | None => Normal []
  end.

(** [add(notification)] (40-45). *)
Definition add (notification : Notification) (st : Stores Notification)
    : Stores Notification :=
  let newNotifications := notifications st ++ [notification] in
  mkStores
    (storage_set "notifications" (stringify_notifications newNotifications) (storage st))
    newNotifications (logs st).

(** [remove()] (47-50). *)
Definition remove (st : Stores Notification) : Stores Notification :=
  mkStores (storage_remove "notifications" (storage st)) [] (logs st).

(** [removeOne(index)] (52-57); [index] is a number. *)
Definition removeOne (index : Z) (st : Stores Notification) : Stores Notification :=
  let newNotifications :=
    filter_index (fun idx => negb (Z.eqb index (Z.of_nat idx))) 0 (notifications st) in
  mkStores
    (storage_set "notifications" (stringify_notifications newNotifications) (storage st))
    newNotifications (logs st).

End Methods.
End notificationStore.

Module terminalStore.
Section Methods.
Context {Notification : Type} `{JSON Notification}.

(** [logs: JSON.parse(get('logs')) || []] (61). *)
Definition initial (s : Storage) : completion (list string) :=
  match storage_get "logs" s with
  | Some text => parse_logs text
  | None => Normal []
  end.

(** [add(log)] (62-67). *)
Definition add (log : string) (st : Stores Notification) : Stores Notification :=
  let newNotifications := logs st ++ [log] in
  mkStores (storage_set "logs" (stringify_logs newNotifications) (storage st))
    (notifications st) newNotifications.

(** [addParsed(title, messages)] (85-102). *)
Definition addParsed (title : string) (messages : Messages) (st : Stores Notification)
    : Stores Notification :=
  add (parsedMessage title messages) st.

(** [remove()] (104-107). *)
Definition remove (st : Stores Notification) : Stores Notification :=
  mkStores (storage_remove "logs" (storage st)) (notifications st) [].

End Methods.
End terminalStore.

(** The stores hold what the storage would give them at start-up. *)
Definition persisted {Notification : Type} `{JSON Notification}
    (st : Stores Notification) : Prop :=
  notificationStore.initial (storage st) = Normal (notifications st)
  /\ terminalStore.initial (storage st) = Normal (logs st).

(* ===================================================================== *)
(** * 11. Predicates and examples of the further properties               *)
(* ===================================================================== *)

(** ** Predicates *)

(** The graph [g] of the store replaced by [G]. *)
Definition put (g : gref) (G : Graph) (e : Editor) : Editor :=
  set_graphStore (<[g := G]> (graphStore e)) e.

(** What [cleanEditor] leaves of an editor whose active graph is [g]. *)
Definition cleaned (g : gref) (G : Graph) (e : Editor) : Editor :=
  suppressHistoryLogging false (put g (with_nodes [] (with_connections [] G)) e).

(** Every template of the editor is listed once and has its graph node type
    in the registry. *)
Definition templates_registered (e : Editor) : Prop :=
  NoDup (map gs_id (_graphTemplates e))
  /\ forall t, t ∈ _graphTemplates e ->
               is_Some (_nodeTypes e !! (GRAPH_NODE_TYPE_PREFIX +:+ gs_id t)).

(** The editors differ in positions of nodes only. *)
Definition moved (e e' : Editor) : Prop :=
  graphStore e' = graphStore e /\ _graph e' = _graph e
  /\ subgraphStack e' = subgraphStack e
  /\ forall r,
       match nodeStore e !! r, nodeStore e' !! r with
       | Some N, Some N' => N' = with_position (node_position N') N
       | None, None => True
       | _, _ => False
       end.

(** The ids of the live nodes of a graph. *)
Definition node_ids (e : Editor) (G : Graph) : list string :=
  map (fun rn => node_id rn.2) (node_objects e G).

(** The stylesheets of the page that carry the id of the interface styles. *)
Definition interface_styles (h : list StyleElement) : nat :=
  length (List.filter (fun s => bool_decide (style_id s = interfacesStyleId)) h).

(** Every node that names a subgraph carries its [graphState], all the
    way down. *)
Fixpoint expanded (n : NodeState) : bool :=
  match n with
  | mkNodeState fields graphState =>
      match nf_subgraph fields with
      | None => true
      | Some _ =>
          match graphState with
          | None => false
          | Some (mkGraphState _ nodes) => forallb expanded nodes
          end
      end
  end.

(** From graph [g] the nodes of [path] lead into one another's subgraphs,
    the last of them into a graph with the id [entry]. *)
Fixpoint leads_to (e : Editor) (entry : string) (g : gref) (path : list nref) : Prop :=
  match path with
  | [] => False
  | r :: rest =>
      exists G N sg,
        graphStore e !! g = Some G /\ r ∈ graph_nodes G
        /\ nodeStore e !! r = Some N /\ node_subgraph N = Some sg
        /\ match rest with
           | [] => id_of e sg = Some entry
           | _ => leads_to e entry sg rest
           end
  end.

(** The same without the graphs the nodes are in: what navigation needs. *)
Fixpoint chain (e : Editor) (entry : string) (path : list nref) : Prop :=
  match path with
  | [] => False
  | r :: rest =>
      exists sg, subgraph_of e r = Some sg
                 /\ match rest with
                    | [] => id_of e sg = Some entry
                    | _ => chain e entry rest
                    end
  end.

(** The graph shown is [g] and holds these nodes and this selection. *)
Definition shows (g : gref) (nodes selected : list nref) (e : Editor) : Prop :=
  _graph e = Some g /\
  exists G, graphStore e !! g = Some G /\ graph_nodes G = nodes
            /\ graph_selectedNodes G = selected.

(** The same nodes are live in both editors, with the same types. *)
Definition same_types (e e' : Editor) : Prop :=
  forall r, node_type <$> nodeStore e' !! r = node_type <$> nodeStore e !! r.

(** ** Examples *)

(** A document nested twice, the innermost graph on display. *)
Definition deep_document : Dataflow :=
  mkDataflow (EntryRef "inner")
    (Some [example_graph "outer" [example_node "owner" (Some "middle")];
           example_graph "middle" [example_node "holder" (Some "inner")];
           example_graph "inner" [example_node "leaf" None]]).

Definition deep_editor : Editor :=
  (@load SpecModel.collaborators deep_document SpecModel.new_editor).2.

(** The same with the top frame gone from the stack while the innermost
    graph is still shown, as after a [backFromSubgraph] that threw. *)
Definition popped_editor : Editor := set_subgraphStack [("outer", 2)] deep_editor.

(** The model of the examples with a graph library whose [load] throws. *)
Definition failing_collaborators : Collaborators := {|
  graph_save := SpecModel.save_graph;
  graph_load := fun _ _ => throw "Error: the graph cannot be loaded";
  updateInterfaces := SpecModel.marker_interfaces;
  connectionAccepted := fun _ _ _ _ => true;
  propagateInterfaces := fun _ _ => [];
  applySidePositions := SpecModel.side_positions;
  SUBGRAPH_INPUT_NODE_TYPE := SpecModel.INPUT_TYPE;
  SUBGRAPH_OUTPUT_NODE_TYPE := SpecModel.OUTPUT_TYPE;
  SUBGRAPH_INOUT_NODE_TYPE := SpecModel.INOUT_TYPE;
  beforeRegisterNodeType_prevented := fun _ => false;
  beforeAddGraphTemplate_prevented := fun _ => false;
  beforeAddNode_prevented := fun _ => false;
  hooks_load_execute := fun state => state;
  computeLayout := fun state => state;
  centerZoom_transform := fun _ => None;
  developmentMode := false;
|}.

(** A document with one graph. *)
Definition flat_document : Dataflow :=
  mkDataflow (SingleGraph (example_graph "a" [example_node "n" None])) None.

(** A document whose only connection names interfaces that do not exist. *)
Definition dangling_document : Dataflow :=
  mkDataflow
    (SingleGraph
       (mkGraphState
          (mkGraphFields "a" (Some "a") [mkConnectionState "x" "y"] None None None None)
          [example_node "n" None]))
    None.

(** Stores whose texts are single words. *)
Definition one_word (l : list string) : string := String.concat "," l.
Definition read_word (text : string) : completion (list string) :=
  Normal (if bool_decide (text = "") then [] else [text]).

Definition word_json : JSON string := {|
  stringify_notifications := one_word;
  stringify_logs := one_word;
  parse_notifications := read_word;
  parse_logs := read_word;
|}.

Definition empty_stores : Stores string := mkStores (mkStorage false ∅ ∅) [] [].

(* ===================================================================== *)
(** * 12. Theorems                                                        *)
(* ===================================================================== *)

(** ** Reasoning about methods *)
Lemma bind_Normal {A B} (m : M A) (k : A -> M B) e b e' :
  bind m k e = (Normal b, e') <->
  exists a e1, m e = (Normal a, e1) /\ k a e1 = (Normal b, e').
Proof.
  unfold bind. split.
  - destruct (m e) as [[a|err] e1]; [eauto | discriminate].
  - intros (a & e1 & -> & Hk). done.
Qed.

Lemma bind_Throw {A B} (m : M A) (k : A -> M B) e err e' :
  bind m k e = (Throw err, e') <->
  m e = (Throw err, e') \/ exists a e1, m e = (Normal a, e1) /\ k a e1 = (Throw err, e').
Proof.
  unfold bind. split.
  - destruct (m e) as [[a|err0] e1]; [eauto | intros [= -> ->]; eauto].
  - intros [-> | (a & e1 & -> & Hk)]; done.
Qed.

Lemma the_graph_Normal prop r e g G e' :
  the_graph prop r e = (Normal (g, G), e') <->
  r = Some g /\ graphStore e !! g = Some G /\ e' = e.
Proof.
  unfold the_graph, bind, get, ret, throw. split.
  - destruct r as [g0|]; [|discriminate].
    destruct (graphStore e !! g0) eqn:HG; [|discriminate].
    intros [= -> -> ->]. done.
  - intros (-> & -> & ->). done.
Qed.

Lemma the_graph_to_set_Normal prop r e g G e' :
  the_graph_to_set prop r e = (Normal (g, G), e') <->
  r = Some g /\ graphStore e !! g = Some G /\ e' = e.
Proof.
  unfold the_graph_to_set, bind, get, ret, throw. split.
  - destruct r as [g0|]; [|discriminate].
    destruct (graphStore e !! g0) eqn:HG; [|discriminate].
    intros [= -> -> ->]. done.
  - intros (-> & -> & ->). done.
Qed.

Lemma lift_Normal {A} (c : completion A) e a e' :
  lift c e = (Normal a, e') <-> c = Normal a /\ e' = e.
Proof. unfold lift. split; [by intros [= -> ->] | by intros [-> ->]]. Qed.

Lemma the_node_Normal prop n e N e' :
  the_node prop n e = (Normal N, e') <-> nodeStore e !! n = Some N /\ e' = e.
Proof.
  unfold the_node, bind, get, defined, ret, throw. split.
  - destruct (nodeStore e !! n); [intros [= -> ->]; done | discriminate].
  - intros (-> & ->). done.
Qed.

Lemma elem_of_used_nodes (nodes : list NodeState) (acc : gset string) s :
  s ∈ fold_left (fun used n => match ns_subgraph n with
                               | Some s => {[s]} ∪ used
                               | None => used
                               end) nodes acc
  <-> s ∈ acc \/ exists n, n ∈ nodes /\ ns_subgraph n = Some s.
Proof.
  revert acc. induction nodes as [|n nodes IH]; intros acc; simpl.
  - split; [auto | intros [?|(n & Hn & _)]; [done | by apply elem_of_nil in Hn]].
  - rewrite IH. split.
    + intros [Hs | (m & Hm & Hsub)].
      * destruct (ns_subgraph n) as [s'|] eqn:Hn; [|auto].
        apply elem_of_union in Hs as [Hs%elem_of_singleton | Hs]; [|auto].
        subst. right. exists n. split; [left | done].
      * right. exists m. split; [by right | done].
    + intros [Hs | (m & Hm & Hsub)].
      * left. destruct (ns_subgraph n); [set_solver | done].
      * apply elem_of_cons in Hm as [-> | Hm].
        -- left. rewrite Hsub. set_solver.
        -- right. eauto.
Qed.

Lemma elem_of_usedSubgraphs_acc (templates : list GraphState) (acc : gset string) s :
  s ∈ fold_left
        (fun used subgraph =>
           fold_left (fun used n => match ns_subgraph n with
                                    | Some s => {[s]} ∪ used
                                    | None => used
                                    end) (gs_nodes subgraph) used)
        templates acc
  <-> s ∈ acc \/ referenced templates s.
Proof.
  revert acc. induction templates as [|t templates IH]; intros acc; simpl.
  - split; [auto | intros [?|(t & n & Ht & _)]; [done | by apply elem_of_nil in Ht]].
  - rewrite IH, elem_of_used_nodes. split.
    + intros [[Hs | (n & Hn & Hsub)] | (t' & n & Ht' & Hn & Hsub)].
      * auto.
      * right. exists t, n. split; [left | done].
      * right. exists t', n. split; [by right | done].
    + intros [Hs | (t' & n & Ht' & Hn & Hsub)]; [auto|].
      apply elem_of_cons in Ht' as [-> | Ht'].
      * left. right. eauto.
      * right. exists t', n. done.
Qed.

Lemma elem_of_usedSubgraphs templates s :
  s ∈ usedSubgraphs templates <-> referenced templates s.
Proof.
  unfold usedSubgraphs. rewrite elem_of_usedSubgraphs_acc. set_solver.
Qed.

Lemma find_none_iff {A} (p : A -> bool) (l : list A) :
  List.find p l = None <-> forall x, x ∈ l -> p x = false.
Proof.
  induction l as [|a l IH]; simpl.
  - split; [intros _ x Hx; by apply elem_of_nil in Hx | done].
  - destruct (p a) eqn:Hp.
    + split; [discriminate | intros Hall; rewrite Hall in Hp; [done | left]].
    + rewrite IH. split.
      * intros Hall x [-> | Hx]%elem_of_cons; auto.
      * intros Hall x Hx. apply Hall. by right.
Qed.

Lemma find_first {A} (p : A -> bool) (pre : list A) (x : A) (post : list A) :
  (forall y, y ∈ pre -> p y = false) -> p x = true ->
  List.find p (pre ++ x :: post) = Some x.
Proof.
  induction pre as [|a pre IH]; simpl; intros Hpre Hx.
  - by rewrite Hx.
  - rewrite (Hpre a) by left. apply IH; [|done]. intros y Hy. apply Hpre. by right.
Qed.

Lemma unregisterGraphs_keeps `{Collaborators} e r e' :
  unregisterGraphs e = (r, e') ->
  graphStore e' = graphStore e /\ nodeStore e' = nodeStore e /\ _graph e' = _graph e
  /\ _readonly e' = _readonly e /\ preview e' = preview e.
Proof.
  unfold unregisterGraphs, bind, get, modify, the_graph, bind, get, throw, ret.
  intros Heq. destruct (graphs e) as [|g0 gs] eqn:Hg; simpl in Heq.
  - injection Heq as <- <-. done.
  - destruct (_graph e) as [g|] eqn:Hcur; simpl in Heq.
    + destruct (graphStore e !! g) eqn:HG; simpl in Heq; injection Heq as <- <-; done.
    + injection Heq as <- <-. done.
Qed.

Lemma unregisterGraphs_returns `{Collaborators} e g G :
  _graph e = Some g -> graphStore e !! g = Some G ->
  exists e', unregisterGraphs e = (Normal tt, e').
Proof.
  intros Hcur HG.
  unfold unregisterGraphs, bind, get, modify, the_graph, bind, get, throw, ret.
  destruct (graphs e); simpl; [eauto|]. rewrite Hcur. simpl. rewrite HG. simpl. eauto.
Qed.

(** [unregisterGraphs] in an editor that shows a graph. *)
Lemma unregisterGraphs_run `{Collaborators} e g G :
  _graph e = Some g -> graphStore e !! g = Some G ->
  unregisterGraphs e
  = (Normal tt,
     set_subgraphStack []
       (set_graphs
          (List.filter
             (fun g' => match graphStore e !! g' with
                        | Some G' => bool_decide (graph_id G' = graph_id G)
                        | None => false
                        end)
             (graphs e)) e)).
Proof.
  intros Hcur HG.
  unfold unregisterGraphs, bind, get, modify, the_graph, bind, get, throw, ret.
  destruct (graphs e) as [|g0 gs] eqn:Hgs; simpl.
  - f_equal. destruct e; simpl in *. by subst.
  - rewrite Hcur. simpl. by rewrite HG.
Qed.

(** Claim C2, as the code has it. For a multi-graph document loaded into an
    editor that shows a graph: (1) when every template is referenced by a
    node of some template, [load] resolves with exactly the root-detection
    error; nothing of the document is applied, but the editor is not as it
    was: the registered graphs other than those with the id of the graph
    shown are unregistered, the navigation stack is empty and [readonly] is
    true, everything else being as before; (2) when some template is not
    referenced, the first such template in document order is taken as the
    root, however many others there are: several candidates raise no error,
    and the only error left at this step is a missing entry graph. *)
Theorem load_root_detection `{Collaborators} (e : Editor) (entry : string)
    (templates : list GraphState) (g : gref) (G : Graph) :
  _graph e = Some g -> graphStore e !! g = Some G ->
  ((forall t, t ∈ templates -> referenced templates (gs_id t)) ->
   load (mkDataflow (EntryRef entry) (Some templates)) e
   = (Resolved [err_no_root],
      set_readonly true
        (set_subgraphStack []
           (set_graphs
              (List.filter
                 (fun g' => match graphStore e !! g' with
                            | Some G' => bool_decide (graph_id G' = graph_id G)
                            | None => false
                            end)
                 (graphs e)) e))))
  /\ (forall pre t post,
        templates = pre ++ t :: post ->
        (forall t', t' ∈ pre -> referenced templates (gs_id t')) ->
        ~ referenced templates (gs_id t) ->
        resolveGraphs (mkDataflow (EntryRef entry) (Some templates))
        = match List.find (fun subgraph => bool_decide (gs_id subgraph = entry)) templates with
          | Some entryGraph => Normal (inr (t, entryGraph))
          | None => Normal (inl [err_no_entry entry])
          end).
Proof.
  intros Hcur HG. split.
  - intros Hall.
    pose proof (unregisterGraphs_run e g G Hcur HG) as Hu.
    unfold load, load_body. unfold bind at 1. rewrite Hu.
    unfold bind, get, modify. simpl.
    unfold resolveGraphs. simpl.
    replace (List.find _ templates) with (@None GraphState); [done|].
    symmetry. apply find_none_iff. intros t Ht.
    apply negb_false_iff, bool_decide_eq_true, elem_of_usedSubgraphs. auto.
  - intros pre t post -> Hpre Ht. unfold resolveGraphs. simpl.
    rewrite find_first; [done| |].
    + intros y Hy. apply negb_false_iff, bool_decide_eq_true, elem_of_usedSubgraphs. auto.
    + apply negb_true_iff, bool_decide_eq_false. by rewrite elem_of_usedSubgraphs.
Qed.

(** Two templates that name each other, loaded into the editor that shows
    the subgraph of the nested document: the root graph is unregistered, the
    navigation stack emptied, and the editor is left read-only. *)
Lemma load_root_detection_witness :
  @load SpecModel.collaborators (mkDataflow (EntryRef "a") (Some cyclic_templates))
    nested_editor
  = (Resolved [err_no_root],
     set_readonly true (set_subgraphStack [] (set_graphs [1] nested_editor)))
  /\ graphs nested_editor = [0; 1]
  /\ subgraphStack nested_editor = [("outer", 1)]
  /\ readonly nested_editor = false.
Proof.
  split; [|vm_compute; done].
  assert (Hshown : exists G, graphStore nested_editor !! 1 = Some G /\ graph_id G = "inner")
    by (eexists; vm_compute; done).
  destruct Hshown as (G & HG & Hid).
  rewrite (proj1 (@load_root_detection SpecModel.collaborators nested_editor "a"
                    cyclic_templates 1 G eq_refl HG)).
  - rewrite Hid. vm_compute. reflexivity.
  - intros t Ht. unfold cyclic_templates in Ht.
    apply elem_of_cons in Ht as [-> | Ht].
    + exists (example_graph "b" [example_node "m" (Some "a")]), (example_node "m" (Some "a")).
      split; [right; left | split; [left | reflexivity]].
    + apply list_elem_of_singleton in Ht as ->.
      exists (example_graph "a" [example_node "n" (Some "b")]), (example_node "n" (Some "b")).
      split; [left | split; [left | reflexivity]].
Defined.

(** Claim C2 fails for more than one candidate: neither template is
    referenced, and [load] resolves with no error. *)
Lemma load_two_unreferenced_templates :
  ~ referenced two_roots "a" /\ ~ referenced two_roots "b"
  /\ (@load SpecModel.collaborators (mkDataflow (EntryRef "a") (Some two_roots))
        SpecModel.new_editor).1 = Resolved [].
Proof.
  split; [|split].
  - intros (t & n & Ht & Hn & _). unfold two_roots in Ht.
    apply elem_of_cons in Ht as [-> | Ht]; [by apply elem_of_nil in Hn|].
    apply list_elem_of_singleton in Ht as ->. by apply elem_of_nil in Hn.
  - intros (t & n & Ht & Hn & _). unfold two_roots in Ht.
    apply elem_of_cons in Ht as [-> | Ht]; [by apply elem_of_nil in Hn|].
    apply list_elem_of_singleton in Ht as ->. by apply elem_of_nil in Hn.
  - vm_compute. reflexivity.
Qed.

(** Claim C3 does not hold of the code. For a multi-graph document without
    [subgraphs], [load] throws a TypeError outside its [try] block, so the
    promise it returns is rejected instead of resolving with a list of
    errors; [loadDataflow] hands that promise back as it is, its [catch]
    cannot intercept a rejection, so it rejects as well. *)
Theorem load_without_subgraphs_rejects `{Collaborators} (m : EditorManager)
    (entry : string) :
  (exists err, (load (mkDataflow (EntryRef entry) None) (editor m)).1 = Rejected err)
  /\ (exists err, (loadDataflow (mkDataflow (EntryRef entry) None) m).1 = Rejected err).
Proof.
  assert (Hl : exists err, (load (mkDataflow (EntryRef entry) None) (editor m)).1
                           = Rejected err).
  { unfold load, load_body. unfold bind at 1.
    destruct (unregisterGraphs (editor m)) as [[[]|err] e1] eqn:Hu; simpl; eauto. }
  split; [done|]. unfold loadDataflow.
  destruct Hl as [err Hl]. exists err.
  destruct (load _ (editor m)) as [p e']. simpl in *. done.
Qed.

(** Claim C4 does not hold of the code on the early exits. Started with
    [readonly = false], [load] returns its list of errors and leaves
    [readonly = true] when no root graph is found, when the entry graph is
    missing, and when a template is missing: the three [return]s taken
    before the flag is restored. *)
Theorem load_early_return_leaves_readonly `{Collaborators} (entry : string) :
  readonly SpecModel.new_editor = false
  /\ (load (no_root entry) SpecModel.new_editor).1 = Resolved [err_no_root]
  /\ readonly (load (no_root entry) SpecModel.new_editor).2 = true
  /\ (load no_entry SpecModel.new_editor).1 = Resolved [err_no_entry "b"]
  /\ readonly (load no_entry SpecModel.new_editor).2 = true
  /\ (load no_template SpecModel.new_editor).1 = Resolved [err_template_count (Some "n") 0]
  /\ readonly (load no_template SpecModel.new_editor).2 = true.
Proof.
  repeat split; vm_compute; reflexivity.
Qed.

(** ** The document [save] builds *)
Lemma recurrentSubgraphSave_unfold (node : NodeState) :
  recurrentSubgraphSave node =
  match nf_subgraph (ns_fields node) with
  | None => Normal ([], mkNodeState (ns_fields node) None)
  | Some _ =>
      match ns_graphState node with
      | None => Throw (TypeError_undefined "nodes")
      | Some g =>
          match forEach_save (gs_nodes g) with
          | Throw e => Throw e
          | Normal (pushed, nodes') =>
              Normal (mkGraphState (gs_fields g) nodes' :: pushed,
                      mkNodeState (ns_fields node) None)
          end
      end
  end.
Proof.
  destruct node as [fields [[gfields gnodes]|]]; simpl; [|done].
  destruct (nf_subgraph fields); [|done].
  match goal with
  | |- match ?a with _ => _ end = match ?b with _ => _ end => replace a with b; [done|]
  end.
  induction gnodes as [|n rest IH]; simpl; [done|].
  destruct (recurrentSubgraphSave n) as [[pushed n']|err]; [|done].
  by rewrite IH.
Qed.

Lemma recurrentSubgraphSave_stripped (node : NodeState) :
  forall pushed node',
    recurrentSubgraphSave node = Normal (pushed, node') ->
    ns_graphState node' = None /\ ns_fields node' = ns_fields node
    /\ Forall stripped pushed.
Proof.
  induction node as [fields | fields g IHg | gfields gnodes IHn]
    using NodeState_tree_ind
    with (Q := fun g => forall pushed nodes',
                 forEach_save (gs_nodes g) = Normal (pushed, nodes') ->
                 Forall (fun n => ns_graphState n = None) nodes'
                 /\ Forall stripped pushed).
  - intros pushed node'. rewrite recurrentSubgraphSave_unfold. simpl.
    destruct (nf_subgraph fields); [discriminate | intros [= <- <-]; done].
  - intros pushed node'. rewrite recurrentSubgraphSave_unfold. simpl.
    destruct (nf_subgraph fields); [|intros [= <- <-]; done].
    destruct (forEach_save (gs_nodes g)) as [[pushed0 nodes']|err] eqn:Hs; [|discriminate].
    intros [= <- <-]. destruct (IHg _ _ eq_refl) as [Hn Hp].
    split; [done|]. split; [done|]. constructor; [exact Hn | exact Hp].
  - simpl. induction IHn as [|n rest Hn _ IH]; simpl; intros pushed nodes'.
    + intros [= <- <-]. done.
    + destruct (recurrentSubgraphSave n) as [[p1 n']|err] eqn:H1; [|discriminate].
      destruct (forEach_save rest) as [[p2 rest']|err] eqn:H2; [|discriminate].
      intros [= <- <-]. destruct (Hn _ _ eq_refl) as (Hg & _ & Hp1).
      destruct (IH _ _ eq_refl) as [Hr Hp2].
      split; [by constructor | by apply Forall_app].
Qed.

Lemma forEach_save_stripped (nodes : list NodeState) pushed nodes' :
  forEach_save nodes = Normal (pushed, nodes') ->
  Forall (fun n => ns_graphState n = None) nodes'
  /\ map ns_fields nodes' = map ns_fields nodes
  /\ Forall stripped pushed.
Proof.
  revert pushed nodes'. induction nodes as [|n rest IH]; simpl; intros pushed nodes'.
  - intros [= <- <-]. done.
  - destruct (recurrentSubgraphSave n) as [[p1 n']|err] eqn:H1; [|discriminate].
    destruct (forEach_save rest) as [[p2 rest']|err] eqn:H2; [|discriminate].
    intros [= <- <-].
    destruct (recurrentSubgraphSave_stripped _ _ _ H1) as (Hg & Hf & Hp1).
    destruct (IH _ _ eq_refl) as (Hr & Hfs & Hp2).
    split; [by constructor|]. split; [simpl; by rewrite Hf, Hfs | by apply Forall_app].
Qed.

(** Nothing is pushed exactly when no node of the graph names a subgraph. *)
Lemma forEach_save_nil (nodes : list NodeState) pushed nodes' :
  forEach_save nodes = Normal (pushed, nodes') ->
  pushed = [] <-> Forall (fun n => ns_subgraph n = None) nodes.
Proof.
  revert pushed nodes'. induction nodes as [|n rest IH]; simpl; intros pushed nodes'.
  - intros [= <- <-]. split; [constructor | done].
  - rewrite recurrentSubgraphSave_unfold. unfold ns_subgraph at 1.
    destruct (nf_subgraph (ns_fields n)) eqn:Hsub.
    + destruct (ns_graphState n) as [g|]; [|discriminate].
      destruct (forEach_save (gs_nodes g)) as [[p0 ns0]|]; [|discriminate].
      destruct (forEach_save rest) as [[p2 rest']|err] eqn:H2; [|discriminate].
      intros [= <- <-]. split; [discriminate|].
      intros Hall. apply Forall_cons in Hall as [Hn _]. unfold ns_subgraph in Hn. congruence.
    + destruct (forEach_save rest) as [[p2 rest']|err] eqn:H2; [|discriminate].
      intros [= <- <-]. simpl. rewrite (IH _ _ eq_refl). split.
      * intros Hall. constructor; done.
      * intros Hall. by apply Forall_cons in Hall as [_ ?].
Qed.

Lemma saveState_shape currentGraphId graph panning scaling state :
  saveState currentGraphId graph panning scaling = Normal state ->
  (Forall (fun n => ns_subgraph n = None) (gs_nodes graph) /\ single_form state)
  \/ (Exists (fun n => ns_subgraph n <> None) (gs_nodes graph)
      /\ multi_form currentGraphId state).
Proof.
  unfold saveState. simpl.
  destruct (forEach_save (gs_nodes graph)) as [[pushed nodes']|err] eqn:Hs; [|discriminate].
  destruct (forEach_save_stripped _ _ _ Hs) as (Hn & _ & Hp).
  pose proof (forEach_save_nil _ _ _ Hs) as Hnil.
  destruct pushed as [|t pushed].
  - intros [= <-]. left. split; [by apply Hnil|].
    split; [reflexivity|]. eexists. split; [reflexivity|]. split; [split; reflexivity|].
    exact Hn.
  - intros [= <-]. right. split.
    + apply not_Forall_Exists; [intros n; unfold Decision; destruct (ns_subgraph n); auto|].
      intros Hall. apply Hnil in Hall. discriminate.
    + split; [reflexivity|].
      exists (t :: pushed), (delete_io (set_nodes (set_view graph panning scaling) nodes')).
      split; [reflexivity|].
      split; [discriminate|]. split; [split; reflexivity|].
      apply Forall_app. split; [exact Hp|]. constructor; [exact Hn | constructor].
Qed.

Lemma get_Normal e a e' : get e = (Normal a, e') <-> a = e /\ e' = e.
Proof. unfold get. split; [intros [= <- <-]; done | intros [-> ->]; done]. Qed.

Lemma ret_Normal {A} (a b : A) e e' : ret a e = (Normal b, e') <-> b = a /\ e' = e.
Proof. unfold ret. split; [intros [= <- <-]; done | intros [-> ->]; done]. Qed.

Lemma modify_Normal f e u e' : modify f e = (Normal u, e') <-> e' = f e.
Proof. unfold modify. destruct u. split; [intros [= <-]; done | intros ->; done]. Qed.

Lemma defined_Normal {A} prop (o : option A) e a e' :
  defined prop o e = (Normal a, e') <-> o = Some a /\ e' = e.
Proof.
  unfold defined, ret, throw. destruct o; split;
    [intros [= <- <-]; done | intros [[= ->] ->]; done | discriminate | intros [? _]; done].
Qed.

Lemma write_node_Normal n N e u e' :
  write_node n N e = (Normal u, e') <-> e' = set_nodeStore (<[n := N]> (nodeStore e)) e.
Proof. unfold write_node. by rewrite modify_Normal. Qed.

Lemma write_graph_Normal g G e u e' :
  write_graph g G e = (Normal u, e') <-> e' = set_graphStore (<[g := G]> (graphStore e)) e.
Proof. unfold write_graph. by rewrite modify_Normal. Qed.

(** Inversion of a method that returned. *)
Ltac inv_step :=
  match goal with
  | H : bind _ _ _ = (Normal _, _) |- _ =>
      let a := fresh "a" in let e := fresh "e" in let H1 := fresh "Hm" in
      apply bind_Normal in H as (a & e & H1 & H)
  | H : get _ = (Normal _, _) |- _ => apply get_Normal in H as [-> ->]
  | H : ret _ _ = (Normal _, _) |- _ => apply ret_Normal in H as [-> ->]
  | H : modify _ _ = (Normal _, _) |- _ => apply modify_Normal in H as ->
  | H : the_graph _ _ _ = (Normal (_, _), _) |- _ =>
      let Hr := fresh "Hr" in let Hg := fresh "Hg" in
      apply the_graph_Normal in H as (Hr & Hg & ->)
  | H : the_graph _ _ _ = (Normal ?p, _) |- _ => destruct p
  | H : the_graph_to_set _ _ _ = (Normal (_, _), _) |- _ =>
      let Hr := fresh "Hr" in let Hg := fresh "Hg" in
      apply the_graph_to_set_Normal in H as (Hr & Hg & ->)
  | H : the_graph_to_set _ _ _ = (Normal ?p, _) |- _ => destruct p
  | H : the_node _ _ _ = (Normal _, _) |- _ =>
      let Hn := fresh "Hn" in apply the_node_Normal in H as (Hn & ->)
  | H : throw _ _ = (Normal _, _) |- _ => discriminate H
  | H : lift _ _ = (Normal _, _) |- _ =>
      let Hc := fresh "Hc" in apply lift_Normal in H as (Hc & ->)
  | H : (match ?p with (_, _) => _ end) _ = (Normal _, _) |- _ => destruct p
  end.

Ltac inv_M := repeat inv_step.

(** The same, through the writes to the store. *)
Ltac inv_write :=
  match goal with
  | H : write_node _ _ _ = (Normal _, _) |- _ => apply write_node_Normal in H as ->
  | H : write_graph _ _ _ = (Normal _, _) |- _ => apply write_graph_Normal in H as ->
  | H : defined _ _ _ = (Normal _, _) |- _ =>
      let Hd := fresh "Hd" in apply defined_Normal in H as (Hd & ->)
  end.

Ltac inv_all := repeat (inv_step || inv_write).

(** Claim C5: the two forms of a saved document. When [save] returns
    [state], it has first left every subgraph on the navigation stack and
    taken the snapshot of the graph then shown. If no node of that snapshot
    names a subgraph, [state] is a single [{graph}] without [subgraphs];
    otherwise it is [{graph: {entryGraph}, subgraphs}], [entryGraph] being
    the id of the graph shown when [save] was called, the root pushed last,
    and no node of any graph keeps its [graphState]. In both forms the root
    has neither [inputs] nor [outputs]. *)
Theorem save_document_forms `{Collaborators} (e e' : Editor) (state : Dataflow)
    (g : gref) (G : Graph) :
  save e = (Normal state, e') ->
  _graph e = Some g -> graphStore e !! g = Some G ->
  exists e1 g1,
    forEach (subgraphStack e) (fun _ => backFromSubgraph) e = (Normal tt, e1)
    /\ _graph e1 = Some g1
    /\ ((Forall (fun n => ns_subgraph n = None) (gs_nodes (graph_save e1 g1))
         /\ single_form state)
        \/ (Exists (fun n => ns_subgraph n <> None) (gs_nodes (graph_save e1 g1))
            /\ multi_form (graph_id G) state)).
Proof.
  intros Hsave Hcur HG. unfold save in Hsave. inv_M.
  match goal with Hr : _graph e = Some ?x |- _ =>
    rewrite Hcur in Hr; injection Hr as <- end.
  match goal with Hg : graphStore e !! g = Some ?x |- _ =>
    rewrite HG in Hg; injection Hg as <- end.
  match goal with Hm : forEach _ _ e = (Normal ?a, ?e1), Hr : _graph ?e1 = Some ?g1 |- _ =>
    destruct a; exists e1, g1; split; [exact Hm|]; split; [exact Hr|] end.
  destruct (saveState _ _ _ _) as [st|err] eqn:Hst; [|inv_M].
  inv_M. by apply saveState_shape in Hst.
Qed.

Lemma skeleton_refl e : skeleton e e.
Proof. by split. Qed.

Lemma skeleton_trans e1 e2 e3 : skeleton e1 e2 -> skeleton e2 e3 -> skeleton e1 e3.
Proof.
  intros [Hg Hi Hs] [Hg' Hi' Hs']. split.
  - by rewrite Hg'.
  - intros g. by rewrite Hi'.
  - intros n. by rewrite Hs'.
Qed.

Lemma quiet_refl e : quiet e e.
Proof. split; [apply skeleton_refl | done | done]. Qed.

Lemma quiet_trans e1 e2 e3 : quiet e1 e2 -> quiet e2 e3 -> quiet e1 e3.
Proof.
  intros [Hk Hg Hs] [Hk' Hg' Hs']. split.
  - by eapply skeleton_trans.
  - by rewrite Hg'.
  - by rewrite Hs'.
Qed.

Lemma forEach_preserves {A} (R : Editor -> Editor -> Prop) (l : list A) (f : A -> M unit) :
  (forall e, R e e) -> (forall e1 e2 e3, R e1 e2 -> R e2 e3 -> R e1 e3) ->
  (forall a e u e', a ∈ l -> f a e = (Normal u, e') -> R e e') ->
  forall e u e', forEach l f e = (Normal u, e') -> R e e'.
Proof.
  intros Hrefl Htrans. induction l as [|a l IH]; simpl; intros Hf e u e' Hrun.
  - inv_M. apply Hrefl.
  - inv_M. eapply Htrans.
    + eapply Hf; [left | eassumption].
    + eapply IH; [|eassumption]. intros b e1 u1 e2 Hb. apply Hf. by right.
Qed.

Lemma write_node_quiet (f : Node -> Node) r N e u e' :
  nodeStore e !! r = Some N -> node_subgraph (f N) = node_subgraph N ->
  write_node r (f N) e = (Normal u, e') -> quiet e e'.
Proof.
  intros HN Hf Hw. unfold write_node in Hw. inv_M.
  split; [split|..]; try done. intros n. simpl.
  destruct (decide (n = r)) as [->|Hne].
  - rewrite lookup_insert_eq, HN. simpl. by rewrite Hf.
  - by rewrite lookup_insert_ne.
Qed.

Lemma write_graph_quiet (f : Graph -> Graph) g G e u e' :
  graphStore e !! g = Some G -> graph_id (f G) = graph_id G ->
  write_graph g (f G) e = (Normal u, e') -> quiet e e'.
Proof.
  intros HG Hf Hw. unfold write_graph in Hw. inv_M.
  split; [split|..]; try done. intros g'. simpl.
  destruct (decide (g' = g)) as [->|Hne].
  - rewrite lookup_insert_eq, HG. simpl. by rewrite Hf.
  - by rewrite lookup_insert_ne.
Qed.

Lemma apply_propagation_quiet writes e u e' :
  apply_propagation writes e = (Normal u, e') -> quiet e e'.
Proof.
  unfold apply_propagation. apply forEach_preserves; [apply quiet_refl | apply quiet_trans |].
  intros w e0 u0 e1 _ Hw. inv_M.
  destruct (nodeStore e0 !! w.1) as [N|] eqn:HN; [|inv_M; apply quiet_refl].
  eapply (write_node_quiet (fun N => with_outputs w.2.2 (with_inputs w.2.1 N))); eauto.
Qed.

Section Navigation.

Context `{Collaborators}.

Lemma restore_positions_quiet (nodes : list nref) e u e' :
  forEach nodes
    (fun r =>
       do n <- the_node "id" r in
       do e <- get in
       match subgraphNodePositions e !! node_id n with
       | Some p =>
           run write_node r (with_position (Some p) n) in
           modify (fun e => set_subgraphNodePositions
                              (delete (node_id n) (subgraphNodePositions e)) e)
       | None => ret tt
       end) e = (Normal u, e') ->
  quiet e e'.
Proof.
  apply forEach_preserves; [apply quiet_refl | apply quiet_trans |].
  intros r e0 u0 e1 _ Hr. inv_M.
  destruct (subgraphNodePositions e0 !! node_id a) as [p|]; [|inv_M; apply quiet_refl].
  inv_M. eapply quiet_trans.
  - eapply (write_node_quiet (with_position (Some p))); eauto.
  - split; [split|..]; done.
Qed.

(** What [switchGraph] does to the navigation state. *)
Lemma switchGraph_spec (n : nref) e u e' :
  switchGraph n e = (Normal u, e') ->
  exists N sg,
    nodeStore e !! n = Some N /\ node_subgraph N = Some sg
    /\ is_Some (graphStore e !! sg)
    /\ _graph e' = Some sg
    /\ subgraphStack e' = subgraphStack e
    /\ skeleton e e'.
Proof.
  unfold switchGraph. intros Hrun. inv_M.
  destruct (node_subgraph a0) as [sg|] eqn:Hsg; [|inv_M].
  inv_M.
  match goal with Hp : apply_propagation _ _ = _ |- _ =>
    destruct (apply_propagation_quiet _ _ _ _ Hp) as [Hk1 Hg1 Hs1] end.
  match goal with Hp : forEach _ _ _ = _ |- _ =>
    destruct (restore_positions_quiet _ _ _ _ Hp) as [Hk2 Hg2 Hs2] end.
  simplify_eq/=.
  eexists _, _. split; [done|]. split; [done|].
  split.
  { destruct Hk1 as [_ Hi _].
    match goal with Hg : graphStore _ !! ?sg = Some _ |- is_Some (graphStore e !! ?sg) =>
      specialize (Hi sg); simpl in Hi; rewrite Hg in Hi end.
    destruct (graphStore e !! _); [eauto | discriminate]. }
  split; [done|]. split; [by rewrite Hs2, Hs1|].
  eapply skeleton_trans; [|eapply skeleton_trans; [exact Hk1|]].
  - split; done.
  - eapply skeleton_trans; [exact Hk2|]. split; done.
Qed.

End Navigation.

Lemma pop_Some {A} (l : list A) x r : pop l = Some (x, r) <-> l = r ++ [x].
Proof.
  unfold pop. split.
  - destruct (reverse l) as [|y r'] eqn:Hrev; [discriminate|].
    intros [= -> <-]. by rewrite <- (reverse_involutive l), Hrev, reverse_cons.
  - intros ->. rewrite reverse_app. simpl. by rewrite reverse_involutive.
Qed.

Lemma pop_None {A} (l : list A) : pop l = None <-> l = [].
Proof.
  unfold pop. split.
  - destruct (reverse l) eqn:Hrev; [|discriminate].
    intros _. by rewrite <- (reverse_involutive l), Hrev.
  - by intros ->.
Qed.

Lemma fold_left_invariant {A B} (P : A -> Prop) (f : A -> B -> A) (l : list B) (a : A) :
  P a -> (forall a b, P a -> P (f a b)) -> P (fold_left f l a).
Proof. revert a. induction l; simpl; auto. Qed.

(** Reconciliation touches nothing but the interfaces it is about. *)
Lemma connections_only_refl s : connections_only s s.
Proof. intros g. destruct (s !! g) as [G|]; [|done]. by destruct G. Qed.

Lemma connections_only_trans s1 s2 s3 :
  connections_only s1 s2 -> connections_only s2 s3 -> connections_only s1 s3.
Proof.
  intros H12 H23 g. specialize (H12 g). specialize (H23 g).
  destruct (s1 !! g) as [G1|], (s2 !! g) as [G2|], (s3 !! g) as [G3|]; try done.
  rewrite H23, H12. done.
Qed.

Lemma connections_only_disconnect n intf s : connections_only s (disconnect n intf <$> s).
Proof.
  intros g. rewrite lookup_fmap. destruct (s !! g) as [G|]; simpl; [|done].
  unfold disconnect. case_bool_decide; [done|]. by destruct G.
Qed.

Lemma connections_only_id s s' g :
  connections_only s s' -> graph_id <$> s' !! g = graph_id <$> s !! g.
Proof.
  intros Hc. specialize (Hc g). destruct (s !! g), (s' !! g); try done.
  simpl. by rewrite Hc.
Qed.

Lemma reconciles_refl n e N : nodeStore e !! n = Some N -> reconciles n (fun N => N) e e.
Proof.
  intros HN. unfold reconciles. exists N. split; [done|]. split; [|apply connections_only_refl].
  rewrite insert_id by done. by destruct e.
Qed.

Lemma reconciles_trans n f f' e1 e2 e3 :
  reconciles n f e1 e2 -> reconciles n f' e2 e3 -> reconciles n (fun N => f' (f N)) e1 e3.
Proof.
  intros (N & HN & He2 & Hc) (N2 & HN2 & He3 & Hc'). unfold reconciles. exists N.
  split; [done|].
  assert (N2 = f N) as ->.
  { rewrite He2 in HN2. simpl in HN2. rewrite lookup_insert_eq in HN2. by injection HN2. }
  split; [|by eapply connections_only_trans].
  rewrite He3. rewrite He2 at 1 2. simpl. by rewrite insert_insert_eq.
Qed.

Lemma reconciles_ext n f f' e e' :
  (forall N, nodeStore e !! n = Some N -> f N = f' N) ->
  reconciles n f e e' -> reconciles n f' e e'.
Proof. intros Hf (N & HN & He & Hc). unfold reconciles. exists N. by rewrite <- Hf. Qed.

Lemma write_node_reconciles n (f : Node -> Node) N e u e' :
  nodeStore e !! n = Some N -> write_node n (f N) e = (Normal u, e') -> reconciles n f e e'.
Proof.
  intros HN Hw. apply write_node_Normal in Hw as ->. unfold reconciles. exists N. split; [done|].
  split; [|apply connections_only_refl]. by destruct e.
Qed.

Lemma write_node_reconciles_as n (f : Node -> Node) N N' e u e' :
  nodeStore e !! n = Some N -> f N = N' -> write_node n N' e = (Normal u, e') ->
  reconciles n f e e'.
Proof. intros HN <-. by apply write_node_reconciles. Qed.

Lemma obj_delete_absent {A} (o : jsobj A) (k : string) :
  obj_get o k = None -> obj_delete o k = o.
Proof.
  unfold obj_get, obj_delete. induction o as [|[k' v] o IH]; simpl; [done|].
  case_bool_decide; simpl; [done|]. intros Hget. by rewrite IH.
Qed.

Section Reconcile_frame.

Context `{Collaborators}.

Lemma reconciled_inputs_frame ifaces N : same_node_but_inputs N (reconciled_inputs ifaces N).
Proof.
  unfold reconciled_inputs.
  apply (fold_left_invariant (same_node_but_inputs N)).
  - apply (fold_left_invariant (same_node_but_inputs N)); [done|].
    intros N0 k HN0. destruct (keys_include ifaces k); [done|]. exact HN0.
  - intros N0 [id intf] HN0.
    destruct (List.find _ _); exact HN0.
Qed.

Lemma reconciled_outputs_frame ifaces N : same_node_but_outputs N (reconciled_outputs ifaces N).
Proof.
  unfold reconciled_outputs.
  apply (fold_left_invariant (same_node_but_outputs N)).
  - apply (fold_left_invariant (same_node_but_outputs N)); [done|].
    intros N0 k HN0. destruct (keys_include ifaces k); [done|]. exact HN0.
  - intros N0 [id intf] HN0.
    destruct (List.find _ _); exact HN0.
Qed.

Lemma disconnectInterface_Normal n intf e u e' :
  disconnectInterface n intf e = (Normal u, e') ->
  e' = set_graphStore (graphStore e') e /\ connections_only (graphStore e) (graphStore e').
Proof.
  unfold disconnectInterface. intros Hrun.
  case_bool_decide; [|inv_M; split; [by destruct e | apply connections_only_refl]].
  inv_M. case_bool_decide; inv_M.
  split; [by destruct e|]. apply connections_only_disconnect.
Qed.

Lemma removeInput_reconciles n key e u e' :
  removeInput n key e = (Normal u, e') -> reconciles n (without_input key) e e'.
Proof.
  unfold removeInput. intros Hrun. inv_M.
  destruct (obj_get (node_inputs a) key) as [intf|] eqn:Hget.
  - inv_M.
    match goal with Hd : disconnectInterface _ _ _ = _ |- _ =>
      apply disconnectInterface_Normal in Hd as [He1 Hc] end.
    inv_all. unfold reconciles. exists a. split; [done|]. simpl.
    split; [|done]. rewrite He1. simpl. done.
  - inv_M. eapply reconciles_ext; [|by apply (reconciles_refl n e a)].
    intros N0 HN0. simplify_eq. unfold without_input. rewrite obj_delete_absent by done.
    by destruct a.
Qed.

Lemma removeOutput_reconciles n key e u e' :
  removeOutput n key e = (Normal u, e') -> reconciles n (without_output key) e e'.
Proof.
  unfold removeOutput. intros Hrun. inv_M.
  destruct (obj_get (node_outputs a) key) as [intf|] eqn:Hget.
  - inv_M.
    match goal with Hd : disconnectInterface _ _ _ = _ |- _ =>
      apply disconnectInterface_Normal in Hd as [He1 Hc] end.
    inv_all. unfold reconciles. exists a. split; [done|]. simpl.
    split; [|done]. rewrite He1. simpl. done.
  - inv_M. eapply reconciles_ext; [|by apply (reconciles_refl n e a)].
    intros N0 HN0. simplify_eq. unfold without_output. rewrite obj_delete_absent by done.
    by destruct a.
Qed.

(** A loop whose rounds each apply a function to the node applies their fold. *)
Lemma forEach_reconciles {A} n (round : A -> Node -> Node) (l : list A) (f : A -> M unit) :
  (forall a e u e' N, a ∈ l -> nodeStore e !! n = Some N ->
                      f a e = (Normal u, e') -> reconciles n (round a) e e') ->
  forall e u e' N,
    nodeStore e !! n = Some N ->
    forEach l f e = (Normal u, e') ->
    reconciles n (fun N => fold_left (fun N a => round a N) l N) e e'.
Proof.
  induction l as [|a l IH]; simpl; intros Hf e u e' N HN Hrun.
  - inv_M. by apply (reconciles_refl n e N).
  - inv_M.
    match goal with Ha : f a _ = _ |- _ => apply (Hf _ _ _ _ N) in Ha as Hstep; [|left|done] end.
    pose proof Hstep as (N0 & HN0 & He0 & _).
    assert (Hf' : forall b ex ux ey Nx, b ∈ l -> nodeStore ex !! n = Some Nx ->
                    f b ex = (Normal ux, ey) -> reconciles n (round b) ex ey)
      by (intros b ex ux ey Nx Hb; apply Hf; by right).
    assert (HN' : nodeStore e0 !! n = Some (round a N0))
      by (rewrite He0; simpl; apply lookup_insert_eq).
    pose proof (IH Hf' _ _ _ _ HN' Hrun) as Hrest.
    by apply (reconciles_trans n (round a) _ e e0 e').
Qed.

Lemma reconcileInputs_reconciles n ifaces e u e' :
  reconcileInputs n ifaces e = (Normal u, e') ->
  reconciles n (reconciled_inputs ifaces) e e'.
Proof.
  unfold reconcileInputs. intros Hrun. inv_M.
  eapply (forEach_reconciles n
    (fun k N => if keys_include ifaces k then N else without_input (intf_name k) N))
    in Hm0; [| |exact Hn].
  2: { intros k ex ux ey Nx _ HNx Hk. destruct (keys_include ifaces k).
       - inv_M. by apply (reconciles_refl n ex Nx).
       - by eapply removeInput_reconciles. }
  pose proof Hm0 as (N0 & HN0 & He1 & _).
  assert (HN1 : exists N1, nodeStore e1 !! n = Some N1).
  { rewrite He1. simpl. rewrite lookup_insert_eq. by eexists. }
  destruct HN1 as [N1 HN1].
  eapply (forEach_reconciles n
    (fun entry N => let '(id, intf) := entry in
       match List.find (has_subgraphNodeId id) (obj_values (node_inputs N)) with
       | None =>
           addInput (gi_name intf) (Object_assign (new_NodeInterface (gi_name intf)) intf) N
       | Some _ =>
           with_inputs
             (update_first (has_subgraphNodeId id) (fun io => Object_assign io intf)
                (node_inputs N)) N
       end)) in Hrun; [| |exact HN1].
  2: { intros [id intf] ex ux ey Nx _ HNx Hk. inv_M.
       destruct (List.find (has_subgraphNodeId id) (obj_values (node_inputs a1))) eqn:Hfind;
         (eapply write_node_reconciles_as; [eassumption| |eassumption]);
         simpl; by rewrite Hfind. }
  eapply reconciles_ext; [|exact (reconciles_trans _ _ _ _ _ _ Hm0 Hrun)].
  intros N HN. simpl. unfold reconciled_inputs. by simplify_eq.
Qed.

Lemma reconcileOutputs_reconciles n ifaces e u e' :
  reconcileOutputs n ifaces e = (Normal u, e') ->
  reconciles n (reconciled_outputs ifaces) e e'.
Proof.
  unfold reconcileOutputs. intros Hrun. inv_M.
  eapply (forEach_reconciles n
    (fun k N => if keys_include ifaces k then N else without_output (intf_name k) N))
    in Hm0; [| |exact Hn].
  2: { intros k ex ux ey Nx _ HNx Hk. destruct (keys_include ifaces k).
       - inv_M. by apply (reconciles_refl n ex Nx).
       - by eapply removeOutput_reconciles. }
  pose proof Hm0 as (N0 & HN0 & He1 & _).
  assert (HN1 : exists N1, nodeStore e1 !! n = Some N1).
  { rewrite He1. simpl. rewrite lookup_insert_eq. by eexists. }
  destruct HN1 as [N1 HN1].
  eapply (forEach_reconciles n
    (fun entry N => let '(id, intf) := entry in
       match List.find (has_subgraphNodeId id) (obj_values (node_outputs N)) with
       | None =>
           addOutput (gi_name intf) (Object_assign (new_NodeInterface (gi_name intf)) intf) N
       | Some _ =>
           with_outputs
             (update_first (has_subgraphNodeId id) (fun io => Object_assign io intf)
                (node_outputs N)) N
       end)) in Hrun; [| |exact HN1].
  2: { intros [id intf] ex ux ey Nx _ HNx Hk. inv_M.
       destruct (List.find (has_subgraphNodeId id) (obj_values (node_outputs a1))) eqn:Hfind;
         (eapply write_node_reconciles_as; [eassumption| |eassumption]);
         simpl; by rewrite Hfind. }
  eapply reconciles_ext; [|exact (reconciles_trans _ _ _ _ _ _ Hm0 Hrun)].
  intros N HN. simpl. unfold reconciled_outputs. by simplify_eq.
Qed.

(** A reconciliation that keeps the node's subgraph leaves the navigation state. *)
Lemma reconciles_quiet n f e e' :
  (forall N, node_subgraph (f N) = node_subgraph N) -> reconciles n f e e' -> quiet e e'.
Proof.
  intros Hf (N & HN & He & Hc). split; [split|..]; try (rewrite He; done).
  - intros g. by apply connections_only_id.
  - intros m. rewrite He. simpl. destruct (decide (m = n)) as [->|Hne].
    + rewrite lookup_insert_eq, HN. simpl. by rewrite Hf.
    + by rewrite lookup_insert_ne.
Qed.

Lemma boundaryInterfaces_quiet e r e' :
  boundaryInterfaces e = (Normal r, e') -> quiet e e'.
Proof.
  unfold boundaryInterfaces. intros Hrun. inv_M.
  eapply (write_graph_quiet (with_interfaces _ _)); eauto.
Qed.

Lemma head_filter_Some {A} (p : A -> bool) (l : list A) x :
  head (List.filter p l) = Some x -> x ∈ l /\ p x = true.
Proof.
  induction l as [|a l IH]; simpl; [discriminate|].
  destruct (p a) eqn:Hp; simpl.
  - intros [= ->]. split; [left | done].
  - intros Hx. destruct (IH Hx). split; [by right | done].
Qed.

(** What [backFromSubgraph] does to the navigation state. *)
Lemma backFromSubgraph_spec e u e' :
  backFromSubgraph e = (Normal u, e') ->
  exists newGraphId subgraphNode rest newGraph,
    subgraphStack e = rest ++ [(newGraphId, subgraphNode)]
    /\ subgraphStack e' = rest
    /\ _graph e' = Some newGraph
    /\ graph_id <$> graphStore e !! newGraph = Some newGraphId
    /\ skeleton e e'.
Proof.
  unfold backFromSubgraph. intros Hrun. inv_M.
  destruct (pop (subgraphStack e)) as [[[newGraphId subgraphNode] rest]|] eqn:Hpop;
    [|inv_M].
  apply pop_Some in Hpop. inv_M.
  match goal with Hb : boundaryInterfaces _ = (Normal ?r, _) |- _ =>
    destruct (boundaryInterfaces_quiet _ _ _ Hb) as [Hk1 Hg1 Hs1];
    destruct r as [errors|[inputs outputs]]; [inv_M|] end.
  inv_M.
  match goal with Hi : reconcileInputs _ _ _ = _ |- _ =>
    apply reconcileInputs_reconciles, reconciles_quiet in Hi as [Hk2 Hg2 Hs2];
    [|intros N0; by destruct (reconciled_inputs_frame inputs N0) as (_&_&_&_&->)] end.
  match goal with Ho : reconcileOutputs _ _ _ = _ |- _ =>
    apply reconcileOutputs_reconciles, reconciles_quiet in Ho as [Hk3 Hg3 Hs3];
    [|intros N0; by destruct (reconciled_outputs_frame outputs N0) as (_&_&_&_&->)] end.
  simpl in *.
  match goal with Hh : head _ = Some ?g |- _ =>
    pose proof (head_filter_Some _ _ _ Hh) as [Hin Hid];
    exists newGraphId, subgraphNode, rest, g; rewrite Hh end.
  split; [done|]. split; [by rewrite Hs3, Hs2, Hs1|]. split; [done|].
  split.
  { destruct (graphStore e !! _) as [G|]; [|done].
    apply bool_decide_eq_true in Hid. simpl. by rewrite Hid. }
  eapply skeleton_trans; [|eapply skeleton_trans; [exact Hk1|]].
  - split; done.
  - eapply skeleton_trans; [exact Hk2|]. eapply skeleton_trans; [exact Hk3|]. split; done.
Qed.

Lemma switchToSubgraph_spec (n : nref) e u e' :
  switchToSubgraph n e = (Normal u, e') ->
  exists g G N sg,
    _graph e = Some g /\ graphStore e !! g = Some G
    /\ nodeStore e !! n = Some N /\ node_subgraph N = Some sg
    /\ is_Some (graphStore e !! sg)
    /\ _graph e' = Some sg
    /\ subgraphStack e' = subgraphStack e ++ [(graph_id G, n)]
    /\ skeleton e e'.
Proof.
  unfold switchToSubgraph. intros Hrun. inv_M.
  match goal with Hs : switchGraph _ _ = _ |- _ =>
    apply switchGraph_spec in Hs as (N & sg & HN & Hsg & HS & Hg' & Hst & Hk) end.
  simpl in *. eexists _, _, N, sg.
  split; [eassumption|]. split; [eassumption|]. split; [exact HN|].
  split; [exact Hsg|]. split; [exact HS|]. split; [exact Hg'|].
  split; [exact Hst|]. destruct Hk as [? ? ?]. split; done.
Qed.

End Reconcile_frame.

Lemma skeleton_subgraph_of e e' n : skeleton e e' -> subgraph_of e' n = subgraph_of e n.
Proof.
  intros [_ _ Hs]. unfold subgraph_of. specialize (Hs n).
  destruct (nodeStore e' !! n), (nodeStore e !! n); simpl in *; congruence.
Qed.

Lemma skeleton_id_of e e' g : skeleton e e' -> id_of e' g = id_of e g.
Proof. intros [_ Hi _]. apply Hi. Qed.

Section Save_navigation.

Context `{Collaborators}.

Lemma back_loop {A} (l : list A) e u e1 :
  forEach l (fun _ => backFromSubgraph) e = (Normal u, e1) ->
  exists rest popped,
    subgraphStack e = rest ++ popped /\ length popped = length l
    /\ subgraphStack e1 = rest /\ skeleton e e1
    /\ (forall gid n popped', popped = (gid, n) :: popped' ->
          exists g, _graph e1 = Some g /\ id_of e g = Some gid)
    /\ (l = [] -> e1 = e).
Proof.
  revert e u e1. induction l as [|a l IH]; simpl; intros e u e1 Hrun.
  - inv_M. exists (subgraphStack e), []. rewrite app_nil_r.
    split; [done|]. split; [done|]. split; [done|]. split; [apply skeleton_refl|].
    split; [discriminate | done].
  - inv_M.
    match goal with Hb : backFromSubgraph _ = _ |- _ =>
      apply backFromSubgraph_spec in Hb
        as (gid0 & n0 & rest0 & g0 & Hst & Hst' & Hg0 & Hid0 & Hk0) end.
    match goal with Hl : forEach _ _ _ = _ |- _ =>
      apply IH in Hl as (rest & popped' & Hst1 & Hlen & Hst2 & Hk1 & Hfirst & Hnil) end.
    exists rest, (popped' ++ [(gid0, n0)]).
    split; [by rewrite Hst, <- Hst', Hst1, app_assoc|].
    split; [rewrite length_app; simpl; lia|].
    split; [done|]. split; [by eapply skeleton_trans|].
    split; [|discriminate].
    intros gid n popped Hpop. destruct popped' as [|fr popped'].
    + simpl in Hpop. injection Hpop as <- <- <-.
      destruct l; [|discriminate]. rewrite Hnil by done. eauto.
    + simpl in Hpop. injection Hpop as -> <-.
      destruct (Hfirst _ _ _ eq_refl) as (g & Hg & Hid). exists g. split; [done|].
      by rewrite <- (skeleton_id_of e _ g Hk0).
Qed.

Lemma restore_loop (l : list (string * nref)) e0 ea u eb :
  skeleton e0 ea ->
  forEach l (fun frame => switchToSubgraph frame.2) ea = (Normal u, eb) ->
  chained e0 l ->
  (forall gid n l', l = (gid, n) :: l' ->
     exists g, _graph ea = Some g /\ id_of e0 g = Some gid) ->
  subgraphStack eb = subgraphStack ea ++ l /\ skeleton e0 eb
  /\ match last l with
     | Some (_, n) => _graph eb = subgraph_of e0 n
     | None => eb = ea
     end.
Proof.
  revert ea u eb. induction l as [|[gid n] l IH]; intros ea u eb Hk Hrun Hch Hfirst.
  - simpl in Hrun. inv_M. by rewrite app_nil_r.
  - simpl in Hrun. inv_M.
    match goal with Hs : switchToSubgraph _ _ = _ |- _ =>
      apply switchToSubgraph_spec in Hs
        as (g & G & N & sg & Hg & HG & HN & Hsg & HS & Hg' & Hst & Hk') end.
    destruct (Hfirst _ _ _ eq_refl) as (g' & Hg2 & Hid).
    rewrite Hg in Hg2. injection Hg2 as <-.
    assert (Hgid : graph_id G = gid).
    { rewrite <- (skeleton_id_of e0 ea g Hk) in Hid. unfold id_of in Hid.
      rewrite HG in Hid. by injection Hid. }
    assert (Hsub : subgraph_of e0 n = Some sg).
    { rewrite <- (skeleton_subgraph_of e0 ea n Hk). unfold subgraph_of. by rewrite HN. }
    assert (Hk2 : skeleton e0 e) by (by eapply skeleton_trans).
    assert (Hch' : chained e0 l).
    { destruct l as [|[gid' n'] l]; [done|]. by destruct Hch. }
    match goal with Hl : forEach _ _ _ = _ |- _ =>
      apply IH in Hl as (Hst2 & Hk3 & Hlast); [|done|done|] end.
    + split; [by rewrite Hst2, Hst, Hgid, <- app_assoc|]. split; [done|].
      destruct l as [|fr l].
      * simpl in *. rewrite Hlast. by rewrite Hg', Hsub.
      * change (last ((gid, n) :: fr :: l)) with (last (fr :: l)).
        destruct (last (fr :: l)) as [[gid1 n1]|] eqn:Hl; [exact Hlast|].
        apply last_None in Hl. discriminate.
    + intros gid' n' l' ->. exists sg. split; [done|].
      destruct Hch as [Hch _]. by rewrite Hsub in Hch.
Qed.

(** Claim C6, for the stacks that navigation builds. From a state whose
    navigation stack is consistent (each frame leads into the graph the next
    frame was pushed from, the top frame into the graph shown), when [save]
    returns, the graph shown and the navigation stack are those before the
    call. Without the consistency the graph shown can change. *)
Theorem save_restores_navigation (e e' : Editor) (state : Dataflow) :
  navigation_consistent e ->
  save e = (Normal state, e') ->
  _graph e' = _graph e /\ subgraphStack e' = subgraphStack e.
Proof.
  intros [Hch Hlast] Hsave. unfold save in Hsave. inv_M.
  destruct (saveState _ _ _ _) as [st|err]; [|inv_M]. inv_M.
  match goal with Hb : forEach _ (fun _ => backFromSubgraph) _ = _ |- _ =>
    apply back_loop in Hb as (rest & popped & Hst & Hlen & Hst1 & Hk1 & Hfirst & Hnil) end.
  assert (rest = [] /\ popped = subgraphStack e) as [-> ->].
  { rewrite Hst, length_app in Hlen. destruct rest; [by rewrite Hst | simpl in Hlen; lia]. }
  match goal with Hr : forEach _ (fun frame => switchToSubgraph frame.2) _ = _ |- _ =>
    apply (restore_loop _ e) in Hr as (Hst2 & Hk2 & Hlast2); [|done|done|done] end.
  rewrite Hst1 in Hst2. simpl in Hst2. split; [|done].
  destruct (last (subgraphStack e)) as [[gid n]|] eqn:Hl.
  - by rewrite Hlast2, Hlast.
  - apply last_None in Hl. rewrite Hlast2, Hnil; [done | by rewrite Hl].
Qed.

(** A [backFromSubgraph] that throws for the boundary has popped the stack:
    the frame is gone and the graph it led into is still shown. *)
Lemma backFromSubgraph_pops_before_throwing e newGraphId subgraphNode rest errors e1 :
  subgraphStack e = rest ++ [(newGraphId, subgraphNode)] ->
  boundaryInterfaces (suppressHistoryLogging true (set_subgraphStack rest e))
  = (Normal (inl errors), e1) ->
  exists err, backFromSubgraph e = (Throw err, e1)
              /\ subgraphStack e1 = rest /\ _graph e1 = _graph e.
Proof.
  intros Hstack Hboundary. apply pop_Some in Hstack.
  destruct (boundaryInterfaces_quiet _ _ _ Hboundary) as [_ Hg Hs].
  eexists. split; [|split; [exact Hs | exact Hg]].
  unfold backFromSubgraph, bind at 1, get at 1. rewrite Hstack.
  unfold bind at 1, modify at 1. unfold bind at 1, modify at 1.
  unfold bind at 1. by rewrite Hboundary.
Qed.

Lemma chained_skeleton e e' stack : skeleton e e' -> chained e stack -> chained e' stack.
Proof.
  intros Hk. induction stack as [|[gid n] stack IH]; [done|].
  destruct stack as [|[gid' n'] stack]; [done|].
  intros [Hlink Hch]. split; [|by apply IH].
  rewrite (skeleton_subgraph_of e e' n Hk).
  destruct (subgraph_of e n) as [g|]; [|done]. simpl in *.
  by rewrite (skeleton_id_of e e' g Hk).
Qed.

Lemma chained_snoc e stack gid n :
  chained e stack ->
  match last stack with
  | Some (_, m) => subgraph_of e m ≫= id_of e = Some gid
  | None => True
  end ->
  chained e (stack ++ [(gid, n)]).
Proof.
  induction stack as [|[gid1 n1] stack IH]; [done|].
  destruct stack as [|[gid2 n2] stack].
  - intros _ Hlink. simpl in *. done.
  - intros [Hlink Hch] Hlast. split; [done|]. apply IH; [done|].
    exact Hlast.
Qed.

(** With no frame the navigation state is consistent, and entering a
    subgraph keeps it so: the stacks [switchToSubgraph] builds are the
    consistent ones. *)
Lemma navigation_consistent_root e : subgraphStack e = [] -> navigation_consistent e.
Proof. intros Hst. unfold navigation_consistent. rewrite Hst. simpl. split; constructor. Qed.

(** Entering a subgraph keeps the navigation state consistent. *)
Lemma switchToSubgraph_consistent (n : nref) e u e' :
  navigation_consistent e ->
  switchToSubgraph n e = (Normal u, e') ->
  navigation_consistent e'.
Proof.
  intros [Hch Hlast] Hrun.
  apply switchToSubgraph_spec in Hrun
    as (g & G & N & sg & Hg & HG & HN & Hsg & HS & Hg' & Hst & Hk).
  unfold navigation_consistent. rewrite Hst, last_snoc. split.
  - apply (chained_skeleton e); [done|]. apply chained_snoc; [done|].
    destruct (last (subgraphStack e)) as [[gid m]|]; [|done].
    rewrite <- Hlast, Hg. simpl. unfold id_of. by rewrite HG.
  - rewrite Hg', (skeleton_subgraph_of e e' n Hk). unfold subgraph_of.
    rewrite HN. simpl. by rewrite Hsg.
Qed.

End Save_navigation.

Lemma unused_mono templates (used used' : gset string) :
  used ⊆ used' -> unused templates used' <= unused templates used.
Proof.
  intros Hsub. unfold unused. induction templates as [|t l IH]; simpl; [lia|].
  case_bool_decide as H1; case_bool_decide as H2; simpl; first [lia | exfalso; set_solver].
Qed.

Lemma unused_le templates used : unused templates used <= length templates.
Proof.
  unfold unused. induction templates as [|t l IH]; simpl; [lia|].
  destruct (negb _); simpl; lia.
Qed.

Lemma unused_lt templates (used : gset string) t :
  t ∈ templates -> gs_id t ∉ used ->
  unused templates ({[gs_id t]} ∪ used) < unused templates used.
Proof.
  intros Ht Hused. induction templates as [|a l IH]; [by apply elem_of_nil in Ht|].
  assert (Hle := unused_mono l used ({[gs_id t]} ∪ used) ltac:(set_solver)).
  unfold unused in *. simpl.
  apply elem_of_cons in Ht as [<-|Ht].
  - rewrite (bool_decide_eq_true_2 (gs_id t ∈ {[gs_id t]} ∪ used)) by set_solver.
    rewrite (bool_decide_eq_false_2 (gs_id t ∈ used)) by done. simpl. lia.
  - specialize (IH Ht).
    case_bool_decide as H1; case_bool_decide as H2; simpl;
      first [lia | exfalso; set_solver].
Qed.

Section Fuel.

Context (subgraphs : option (list GraphState)).

Lemma forEach_load_total (f : NodeState -> gset string -> option (completion LoadStep))
    (bound : nat) (nodes : list NodeState) :
  (forall n used, unused (default [] subgraphs) used < bound -> returns_growing used (f n used)) ->
  forall used,
    unused (default [] subgraphs) used < bound ->
    exists c, forEach_load f nodes used = Some c
              /\ forall errs nodes' used', c = Normal (errs, nodes', used') -> used ⊆ used'.
Proof.
  intros Hf. induction nodes as [|n rest IH]; intros used Hused; simpl.
  - eexists. split; [done|]. by intros ? ? ? [= _ _ <-].
  - destruct (Hf n used Hused) as (c & -> & Hc).
    destruct c as [[[e1 n1] u1]|err]; [|eexists; split; [done|]; by intros].
    specialize (Hc _ _ _ eq_refl).
    destruct (IH u1) as (c2 & -> & Hc2).
    { eapply Nat.le_lt_trans; [by apply unused_mono | exact Hused]. }
    destruct c2 as [[[e2 rest'] u2]|err]; [|eexists; split; [done|]; by intros].
    eexists. split; [done|]. intros ? ? ? [= _ _ <-].
    specialize (Hc2 _ _ _ eq_refl). set_solver.
Qed.

Lemma recurrentSubgraphLoad_total (fuel : nat) :
  forall n used,
    unused (default [] subgraphs) used < fuel ->
    returns_growing used (recurrentSubgraphLoad fuel subgraphs n used).
Proof.
  induction fuel as [|fuel IH]; intros n used Hfuel; [lia|]. simpl.
  unfold returns_growing.
  destruct (ns_subgraph n) as [s|];
    [|eexists; split; [done|]; by intros ? ? ? [= _ _ <-]].
  destruct subgraphs as [templates|] eqn:Hsub; [|eexists; split; [done|]; by intros].
  destruct (List.filter _ templates) as [|template [|]] eqn:Hfit;
    [eexists; split; [done|]; by intros ? ? ? [= _ _ <-]
    | |eexists; split; [done|]; by intros ? ? ? [= _ _ <-]].
  case_bool_decide as Hused; [eexists; split; [done|]; by intros ? ? ? [= _ _ <-]|].
  assert (Ht : template ∈ templates /\ gs_id template = s).
  { assert (Hin : List.In template (List.filter
                    (fun template => bool_decide (gs_id template = s)) templates))
      by (rewrite Hfit; by left).
    apply filter_In in Hin as [Hin Hid]. apply bool_decide_eq_true in Hid.
    split; [by apply list_elem_of_In | done]. }
  destruct Ht as [Ht <-].
  destruct (forEach_load_total (recurrentSubgraphLoad fuel (Some templates)) fuel
              (gs_nodes template)) with (used := {[gs_id template]} ∪ used)
    as (c & Hc & Hgrow).
  - rewrite Hsub. exact IH.
  - rewrite Hsub. simpl in *. pose proof (unused_lt templates used template Ht Hused). lia.
  - rewrite Hc. destruct c as [[[errs nodes'] u']|err]; [|eexists; split; [done|]; by intros].
    eexists. split; [done|]. intros ? ? ? [= _ _ <-].
    specialize (Hgrow _ _ _ eq_refl). set_solver.
Qed.

End Fuel.

(** [load_fuel] is enough: the pass over the document never runs out. *)
Lemma recurrentSubgraphLoad_fuel (state : Dataflow) (rootGraph : GraphState) :
  is_Some (instantiateRoot state rootGraph).
Proof.
  unfold instantiateRoot.
  destruct (forEach_load_total (df_subgraphs state)
              (recurrentSubgraphLoad (load_fuel state) (df_subgraphs state))
              (load_fuel state) (gs_nodes rootGraph)) with (used := (∅ : gset string))
    as (c & -> & _).
  - apply recurrentSubgraphLoad_total.
  - unfold load_fuel. pose proof (unused_le (default [] (df_subgraphs state)) ∅). lia.
  - destruct c as [[[[|] ?] ?]|]; by eexists.
Qed.

Lemma mean_no_nodes : mean [] 0 = S754_nan.
Proof. reflexivity. Qed.

Section Unwrap.

Context `{Collaborators}.

Lemma mapM_position_x (l : list (nref * Node)) e xs e' :
  mapM (fun rn => position_x rn.2) l e = (Normal xs, e') ->
  e' = e /\ xs = xs_of l /\ Forall (fun rn => is_Some (node_position rn.2)) l.
Proof.
  revert xs. induction l as [|[r N] l IH]; simpl; intros xs Hrun.
  - inv_M. done.
  - inv_M. unfold position_x in *. inv_M.
    destruct (node_position N) as [p|] eqn:Hp; simpl in *; [|inv_M].
    inv_all. simplify_eq.
    match goal with Hl : mapM _ _ _ = _ |- _ => apply IH in Hl as (-> & -> & Hall) end.
    unfold xs_of. simpl. split; [done|]. split; [done|].
    constructor; [simpl; by rewrite Hp | done].
Qed.

Lemma mapM_position_y (l : list (nref * Node)) e ys e' :
  mapM (fun rn => position_y rn.2) l e = (Normal ys, e') -> e' = e /\ ys = ys_of l.
Proof.
  revert ys. induction l as [|[r N] l IH]; simpl; intros ys Hrun.
  - inv_M. done.
  - inv_M. unfold position_y in *. inv_M.
    destruct (node_position N) as [p|] eqn:Hp; simpl in *; [|inv_M].
    inv_all. simplify_eq.
    match goal with Hl : mapM _ _ _ = _ |- _ => apply IH in Hl as (-> & ->) end.
    unfold ys_of. simpl. done.
Qed.

Lemma write_graph_nodes g G e u e' :
  write_graph g G e = (Normal u, e') -> nodeStore e' = nodeStore e.
Proof. unfold write_graph. intros Hw. inv_M. done. Qed.

Lemma removeNode_nodes g n e u e' :
  removeNode g n e = (Normal u, e') -> nodeStore e' = nodeStore e.
Proof.
  unfold removeNode. intros Hrun. inv_M.
  destruct (bool_decide _); inv_M; [|done].
  by eapply write_graph_nodes.
Qed.

Lemma addNode_nodes g n e r e' :
  addNode g n e = (Normal r, e') ->
  nodeStore e' = nodeStore e /\ (r = None \/ r = Some n).
Proof.
  unfold addNode. intros Hrun. inv_M.
  destruct (beforeAddNode_prevented _); inv_all; auto.
Qed.

Lemma addConnection_nodes g from to e u e' :
  addConnection g from to e = (Normal u, e') -> nodeStore e' = nodeStore e.
Proof.
  unfold addConnection. intros Hrun. inv_M.
  destruct (connectionAccepted _ _ _ _); inv_M; [|done].
  by eapply write_graph_nodes.
Qed.

Lemma findInterface_same nodeId intfId sgid e r e' :
  findInterface nodeId intfId sgid e = (Normal r, e') -> e' = e.
Proof.
  unfold findInterface. intros Hrun. inv_M.
  destruct (List.find _ (node_objects _ _)) as [[r0 foundNode]|]; [|by inv_M].
  destruct (List.find _ _); [by inv_M|].
  destruct sgid as [s|]; [|by inv_M].
  destruct (bool_decide _); by inv_M.
Qed.

Lemma findResolved_same resolved e r e' :
  findResolved resolved e = (Normal r, e') -> e' = e.
Proof.
  unfold findResolved. destruct resolved; [apply findInterface_same|].
  intros Hrun. by inv_M.
Qed.

Lemma reconnect_nodes m c e u e' :
  reconnect m c e = (Normal u, e') -> nodeStore e' = nodeStore e.
Proof.
  unfold reconnect. intros Hrun.
  destruct (_ || _); [by inv_M|]. inv_M.
  repeat match goal with Hf : findResolved _ _ = _ |- _ =>
    apply findResolved_same in Hf as -> end.
  match goal with Hk : (match ?a with Some _ => _ | None => _ end) _ = _ |- _ =>
    destruct a as [from|]; [|by inv_M] end.
  match goal with Hk : (match ?a with Some _ => _ | None => _ end) _ = _ |- _ =>
    destruct a as [to|]; [|by inv_M] end.
  inv_M. by eapply addConnection_nodes.
Qed.

Lemma addNode_added g n e r e' :
  addNode g n e = (Normal r, e') ->
  exists N, nodeStore e !! n = Some N /\ nodeStore e' = nodeStore e
            /\ r = if beforeAddNode_prevented N then None else Some n.
Proof.
  unfold addNode. intros Hrun. inv_M. eexists. split; [eassumption|].
  destruct (beforeAddNode_prevented _); inv_all; auto.
Qed.

(** One round of the copy loop writes the node it copies and no other; a
    marker is left alone. *)
Lemma copyNode_moves node meanX meanY r e u e' N Nr :
  copyNode node meanX meanY r e = (Normal u, e') ->
  r <> node -> nodeStore e !! node = Some N -> nodeStore e !! r = Some Nr ->
  (forall r', r' <> r -> nodeStore e' !! r' = nodeStore e !! r')
  /\ (node_type Nr ∉ subgraphTypes ->
      is_Some (node_position Nr) ->
      exists N', nodeStore e' !! r = Some N' /\ moved_to N Nr N' meanX meanY).
Proof.
  intros Hrun Hne HN HNr. unfold copyNode in Hrun. inv_M.
  match goal with Hn : nodeStore e !! r = Some ?x |- _ =>
    rewrite HNr in Hn; injection Hn as <- end.
  case_bool_decide as Htype; [inv_M; split; [done|]; by intros []|]. inv_M.
  assert (Hpos : nodeStore e0 = nodeStore e).
  { destruct (node_position Nr); inv_M; done. }
  match goal with Ha : addNode _ _ _ = _ |- _ =>
    apply addNode_added in Ha as (Nr' & HNr' & Hadd & ->) end.
  rewrite Hpos, HNr in HNr'. injection HNr' as <-.
  destruct (beforeAddNode_prevented Nr) eqn:Hveto.
  { inv_M. split; [intros r' _; by rewrite Hadd, Hpos|].
    intros _ [p Hp]. exists Nr. rewrite Hadd, Hpos. split; [done|].
    exists p. split; [done|]. by rewrite Hveto. }
  unfold position_x, position_y in Hrun. inv_all. simpl in *.
  match goal with Hl : <[_:=_]> _ !! _ = Some _ |- _ =>
    rewrite lookup_insert_eq in Hl; injection Hl as <- end.
  repeat match goal with Hl : nodeStore ?e1 !! _ = Some _, Heq : nodeStore ?e1 = _ |- _ =>
    rewrite Heq in Hl end.
  rewrite Hpos in *. simplify_eq.
  split.
  - intros r' Hr'. rewrite !lookup_insert_ne by done. congruence.
  - intros _ _. rewrite lookup_insert_eq. eexists. split; [done|]. simpl.
    eexists. split; [eassumption|]. rewrite Hveto. eexists. split; [eassumption|].
    done.
Qed.

(** The copy loop over distinct nodes moves each of them once. *)
Lemma copy_loop_moves node meanX meanY N (refs : list nref) :
  node ∉ refs -> NoDup refs ->
  forall e u e',
    forEach refs (copyNode node meanX meanY) e = (Normal u, e') ->
    nodeStore e !! node = Some N ->
    (forall r, r ∈ refs -> is_Some (nodeStore e !! r)) ->
    (forall r', r' ∉ refs -> nodeStore e' !! r' = nodeStore e !! r')
    /\ forall r Nr, r ∈ refs -> nodeStore e !! r = Some Nr ->
         node_type Nr ∉ subgraphTypes -> is_Some (node_position Nr) ->
         exists N', nodeStore e' !! r = Some N' /\ moved_to N Nr N' meanX meanY.
Proof.
  intros Hnode Hnodup. induction Hnodup as [|r refs Hr Hnodup IH];
    intros e u e' Hrun HN Hall; simpl in Hrun.
  - inv_M. split; [done|]. intros r Nr Hin. by apply elem_of_nil in Hin.
  - inv_M.
    destruct (Hall r) as [Nr0 HNr0]; [left|].
    assert (Hrn : r <> node) by (intros ->; apply Hnode; left).
    match goal with Hc : copyNode _ _ _ _ _ = _ |- _ =>
      destruct (copyNode_moves _ _ _ _ _ _ _ N Nr0 Hc Hrn HN HNr0) as [Hothers Hmoved] end.
    match goal with Hl : forEach _ _ ?e1 = _ |- _ =>
      destruct (IH ltac:(intros Hin; apply Hnode; by right) e1 _ _ Hl) as [Hrest Heach] end.
    { by rewrite Hothers. }
    { intros r' Hr'. rewrite Hothers; [apply Hall; by right|]. intros ->. done. }
    split.
    + intros r' Hr'. rewrite Hrest, Hothers; [done| |];
        intros Hin; apply Hr'; [subst; left | by right].
    + intros r' Nr Hin HNr Htype Hp. apply elem_of_cons in Hin as [->|Hin].
      * rewrite Hrest by done. simplify_eq. by apply Hmoved.
      * apply Heach; try done. rewrite Hothers; [done|]. intros ->. done.
Qed.

End Unwrap.

Section Unwrap_positions.

Context `{Collaborators}.

Lemma elem_of_node_objects e G r N :
  (r, N) ∈ node_objects e G <-> r ∈ graph_nodes G /\ nodeStore e !! r = Some N.
Proof.
  unfold node_objects. rewrite list_elem_of_omap. split.
  - intros (r' & Hr' & Heq). destruct (nodeStore e !! r') eqn:Hn; simpl in Heq; [|done].
    by simplify_eq.
  - intros [Hr HN]. exists r. split; [done|]. by rewrite HN.
Qed.

Lemma elem_of_subgraphNodes e Sub rn :
  rn ∈ subgraphNodes e Sub <->
  rn ∈ node_objects e Sub /\ node_type rn.2 ∉ subgraphTypes.
Proof.
  unfold subgraphNodes. rewrite (list_elem_of_In (List.filter _ _)), filter_In.
  by rewrite negb_true_iff, bool_decide_eq_false, <- list_elem_of_In.
Qed.

Lemma forEach_same_nodes {A} (l : list A) (f : A -> M unit) e u e' :
  (forall a e u e', f a e = (Normal u, e') -> nodeStore e' = nodeStore e) ->
  forEach l f e = (Normal u, e') -> nodeStore e' = nodeStore e.
Proof.
  intros Hf Hrun.
  eapply (forEach_preserves (fun e e' => nodeStore e' = nodeStore e) l f);
    [done | | | exact Hrun].
  - intros e1 e2 e3 H12 H23. by rewrite H23.
  - intros a e0 u0 e1 _. apply Hf.
Qed.

(** Claim C10: the centroid of [unwrapSubgraph]. If the subgraph holds a
    node that is not a boundary marker, the divisor (the number of copied
    nodes) is not zero; when the call returns, the copied nodes being
    distinct objects and none of them the graph node, every copied node is
    at its old position plus the position of the graph node less the
    centroid, computed in double precision, or where it was if a listener
    vetoed its [addNode]. If every node of the subgraph is a boundary
    marker, the divisor is zero and the two means, computed without a
    guard, are [NaN]. *)
Theorem unwrapSubgraph_centroid (e : Editor) (node : nref) (N : Node) (sg : gref)
    (Sub : Graph) :
  nodeStore e !! node = Some N -> node_subgraph N = Some sg ->
  graphStore e !! sg = Some Sub ->
  let copied := subgraphNodes e Sub in
  let meanX := mean (xs_of copied) (length copied) in
  let meanY := mean (ys_of copied) (length copied) in
  ((exists rn, rn ∈ node_objects e Sub /\ node_type rn.2 ∉ subgraphTypes) ->
   length copied <> 0
   /\ (NoDup (map fst copied) -> node ∉ map fst copied ->
       forall u e', unwrapSubgraph node e = (Normal u, e') ->
       forall r Nr, (r, Nr) ∈ copied ->
                    exists N', nodeStore e' !! r = Some N'
                               /\ moved_to N Nr N' meanX meanY))
  /\ ((forall rn, rn ∈ node_objects e Sub -> node_type rn.2 ∈ subgraphTypes) ->
      length copied = 0 /\ meanX = S754_nan /\ meanY = S754_nan).
Proof.
  intros HN Hsg HSub copied meanX meanY. split.
  - intros (rn & Hrn & Htype).
    assert (Hlen : length copied <> 0).
    { assert (Hin : rn ∈ copied) by (by apply elem_of_subgraphNodes).
      destruct copied; [by apply elem_of_nil in Hin | done]. }
    split; [done|].
    intros Hnodup Hnode u e' Hrun r Nr Hr.
    unfold unwrapSubgraph in Hrun. inv_M. simplify_eq.
    fold copied in Hrun.
    match goal with Hx : mapM (fun rn => position_x rn.2) _ _ = _ |- _ =>
      apply mapM_position_x in Hx as (-> & -> & Hpos) end.
    match goal with Hy : mapM (fun rn => position_y rn.2) _ _ = _ |- _ =>
      apply mapM_position_y in Hy as (-> & ->) end.
    inv_all. simplify_eq.
    fold meanX meanY in Hrun.
    match goal with Hc : forEach _ (copyNode _ _ _) ?e1 = _ |- _ =>
      destruct (copy_loop_moves node meanX meanY N (map fst copied) Hnode Hnodup
                  e1 _ _ Hc) as [_ Heach] end.
    { done. }
    { intros r0 Hr0. simpl. apply list_elem_of_fmap in Hr0 as ([r1 N1] & -> & Hin).
      apply elem_of_subgraphNodes in Hin as [Hin _].
      apply elem_of_node_objects in Hin as [_ Hin]. by eexists. }
    match goal with Hrem : removeNode _ _ _ = _ |- _ =>
      apply removeNode_nodes in Hrem; rename Hrem into Hremoved end.
    match goal with Hre : forEach _ (reconnect _) _ = _ |- _ =>
      apply (forEach_same_nodes _ _ _ _ _ (reconnect_nodes _)) in Hre;
      rewrite Hre, Hremoved end.
    rewrite Forall_forall in Hpos. pose proof (Hpos _ Hr) as Hp.
    pose proof Hr as Hr'.
    apply elem_of_subgraphNodes in Hr' as [Hin Hty].
    apply elem_of_node_objects in Hin as [_ Hin].
    apply (Heach r Nr); try done.
    apply list_elem_of_fmap. by exists (r, Nr).
  - intros Hall. assert (Hnil : copied = []).
    { apply elem_of_nil_inv. intros rn [Hin Htype]%elem_of_subgraphNodes.
      by apply Htype, Hall. }
    unfold meanX, meanY. by rewrite Hnil.
Qed.

End Unwrap_positions.

(** ** Inlining a subgraph: the connections *)
Lemma bind_run {A B} (m : M A) (k : A -> M B) e a e1 :
  m e = (Normal a, e1) -> bind m k e = k a e1.
Proof. unfold bind. by intros ->. Qed.

Lemma the_node_run prop n e N :
  nodeStore e !! n = Some N -> the_node prop n e = (Normal N, e).
Proof. intros HN. by apply the_node_Normal. Qed.

Lemma the_graph_run prop g e G :
  graphStore e !! g = Some G -> the_graph prop (Some g) e = (Normal (g, G), e).
Proof. intros HG. by apply the_graph_Normal. Qed.

Lemma the_graph_to_set_run prop g e G :
  graphStore e !! g = Some G -> the_graph_to_set prop (Some g) e = (Normal (g, G), e).
Proof. intros HG. by apply the_graph_to_set_Normal. Qed.

Lemma find_elem_of {A} (p : A -> bool) (l : list A) x :
  List.find p l = Some x -> x ∈ l.
Proof. intros Hf. apply list_elem_of_In. by apply find_some in Hf as [? _]. Qed.

(** *** The entries of [subgraphNodeToNode] *)
Lemma forEach_entry_cons {A} (f : MapObject -> A -> completion MapObject) a l m :
  forEach_entry f (a :: l) m
  = match f m a with Normal m' => forEach_entry f l m' | Throw err => Throw err end.
Proof.
  unfold forEach_entry. simpl. destruct (f m a) as [m'|err]; [done|].
  induction l as [|b l IH]; simpl; done.
Qed.

Lemma forEach_entry_invariant {A} (P : MapObject -> Prop)
    (f : MapObject -> A -> completion MapObject) (l : list A) :
  (forall m a m', P m -> f m a = Normal m' -> P m') ->
  forall m m', P m -> forEach_entry f l m = Normal m' -> P m'.
Proof.
  intros Hf. induction l as [|a l IH]; intros m m' Hm.
  - by intros [= <-].
  - rewrite forEach_entry_cons. destruct (f m a) as [m1|err] eqn:Hfa; [|done].
    apply IH. by eapply Hf.
Qed.

Lemma ends_in_new conns : ends_in conns new_Map.
Proof. split; [intros k ep; simpl; by rewrite lookup_empty | done]. Qed.

Lemma set_property_ends conns m k entry m' :
  ends_in conns m -> is_end conns entry -> set_property m k entry = Normal m' ->
  ends_in conns m'.
Proof.
  intros [Hown Hproto] Hentry. unfold set_property.
  assert (Hins : ends_in conns (mkMapObject (<[k := entry]> (own_properties m)) (prototype m))).
  { split; [|done]. intros k' ep. simpl. rewrite lookup_insert. case_decide; [|apply Hown].
    by intros [= <-]. }
  case_bool_decide; [by intros [= <-]|].
  case_bool_decide; [intros [= <-]; split; [done|]; by intros ep [= <-]|].
  destruct (_ && _); [done|]. by intros [= <-].
Qed.

Lemma get_property_ends conns m k ep :
  ends_in conns m -> get_property m k = Some ep -> is_end conns ep.
Proof.
  intros [Hown Hproto]. unfold get_property.
  destruct (own_properties m !! k) eqn:Hk; [intros [= <-]; by eapply Hown|].
  case_bool_decide; [apply Hproto | done].
Qed.

Lemma mapInputs_ends conns inputs m m' :
  ends_in conns m -> mapInputs conns inputs m = Normal m' -> ends_in conns m'.
Proof.
  unfold mapInputs. apply forEach_entry_invariant.
  intros m0 input m1 Hm0.
  destruct (List.find _ conns) as [c|] eqn:Hc.
  { apply find_elem_of in Hc. apply set_property_ends; [done|]. exists c. auto. }
  clear Hc. destruct (List.find _ conns) as [c|] eqn:Hc'; [|by intros [= <-]].
  apply find_elem_of in Hc'. apply set_property_ends; [done|]. exists c. auto.
Qed.

Lemma mapOutputs_ends conns outputs m m' :
  ends_in conns m -> mapOutputs conns outputs m = Normal m' -> ends_in conns m'.
Proof.
  unfold mapOutputs. apply forEach_entry_invariant.
  intros m0 output m1 Hm0.
  destruct (List.find _ conns) as [c|] eqn:Hc; [|by intros [= <-]].
  apply find_elem_of in Hc. apply set_property_ends; [done|]. exists c. auto.
Qed.

Lemma subgraphNodeToNode_ends conns N m :
  subgraphNodeToNode conns N = Normal m -> ends_in conns m.
Proof.
  unfold subgraphNodeToNode.
  destruct (mapInputs _ _ _) as [m0|] eqn:Hin; [|done].
  intros Hout. eapply mapOutputs_ends; [|exact Hout].
  eapply mapInputs_ends; [|exact Hin]. apply ends_in_new.
Qed.

Section Inline.

Context `{Collaborators}.

Lemma findInterface_absent e nodeId intfId sgid :
  absent e nodeId -> findInterface nodeId intfId sgid e = (Normal None, e).
Proof.
  intros (g & G & Hg & HG & Hall). unfold findInterface.
  rewrite (bind_run _ _ e e e) by done.
  rewrite Hg, (bind_run _ _ e (g, G) e) by (by apply the_graph_run).
  replace (List.find _ (node_objects e G)) with (@None (nref * Node)); [done|].
  symmetry. apply find_none_iff. intros rn Hrn. apply bool_decide_eq_false. by apply Hall.
Qed.

(** With a graph on display [findInterface] returns. *)
Lemma findInterface_returns e g G nodeId intfId :
  _graph e = Some g -> graphStore e !! g = Some G ->
  exists found, findInterface nodeId intfId None e = (Normal found, e).
Proof.
  intros Hg HG. unfold findInterface.
  rewrite (bind_run _ _ e e e) by done.
  rewrite Hg, (bind_run _ _ e (g, G) e) by (by apply the_graph_run).
  destruct (List.find _ (node_objects e G)) as [[? ?]|]; [|by eexists].
  destruct (List.find _ _); by eexists.
Qed.

(** What [findInterface] finds is an interface of a node of the graph on display. *)
Lemma findInterface_found e g G nodeId intfId i e' :
  _graph e = Some g -> graphStore e !! g = Some G ->
  findInterface nodeId intfId None e = (Normal (Some i), e') -> interface_in e G i.
Proof.
  intros Hg HG Hrun. unfold findInterface in Hrun. inv_M. simplify_eq.
  destruct (List.find _ (node_objects e G)) as [[r N]|] eqn:Hnode;
    [|unfold ret in Hrun; discriminate].
  apply find_elem_of in Hnode.
  destruct (List.find _ _) as [j|] eqn:Hintf; [|unfold ret in Hrun; discriminate].
  unfold ret in Hrun. injection Hrun as <- <-.
  apply find_elem_of in Hintf. exists (r, N). split; [done|]. exact Hintf.
Qed.

Lemma unresolved_graph e resolved :
  unresolved e resolved -> exists g G, _graph e = Some g /\ graphStore e !! g = Some G.
Proof. destruct resolved; [intros (g & G & ? & ? & _) | intros (g & G & ? & ?)]; eauto. Qed.

Lemma findResolved_unresolved e resolved :
  unresolved e resolved -> findResolved resolved e = (Normal None, e).
Proof.
  destruct resolved as [ep|]; simpl; [apply findInterface_absent|].
  intros (g & G & Hg & HG).
  rewrite (bind_run _ _ e e e) by done.
  by rewrite Hg, (bind_run _ _ e (g, G) e) by (by apply the_graph_run).
Qed.

Lemma findResolved_returns e g G resolved :
  _graph e = Some g -> graphStore e !! g = Some G ->
  exists found, findResolved resolved e = (Normal found, e).
Proof.
  intros Hg HG. destruct resolved as [ep|]; simpl; [by eapply findInterface_returns|].
  exists None. rewrite (bind_run _ _ e e e) by done.
  by rewrite Hg, (bind_run _ _ e (g, G) e) by (by apply the_graph_run).
Qed.

Lemma findResolved_found e g G resolved i e' :
  _graph e = Some g -> graphStore e !! g = Some G ->
  findResolved resolved e = (Normal (Some i), e') -> interface_in e G i.
Proof.
  intros Hg HG. destruct resolved as [ep|]; simpl; [by apply (findInterface_found e g G)|].
  intros Hrun. inv_M. unfold ret in Hrun. discriminate.
Qed.

(** A connection one of whose ends is unresolved is dropped. *)
Lemma reconnect_drops m c e :
  unresolved e (resolveEndpoint m (conn_from c))
  \/ unresolved e (resolveEndpoint m (conn_to c)) ->
  reconnect m c e = (Normal tt, e).
Proof.
  intros Habs. unfold reconnect.
  destruct (_ || _); [done|].
  assert (Hgraph : exists g G, _graph e = Some g /\ graphStore e !! g = Some G)
    by (destruct Habs as [Ha|Ha]; by apply unresolved_graph in Ha).
  destruct Hgraph as (g & G & Hg & HG).
  destruct (findResolved_returns e g G (resolveEndpoint m (conn_from c)) Hg HG)
    as [foundFrom Hfrom].
  destruct (findResolved_returns e g G (resolveEndpoint m (conn_to c)) Hg HG)
    as [foundTo Hto].
  rewrite (bind_run _ _ e foundFrom e) by done.
  rewrite (bind_run _ _ e foundTo e) by done.
  destruct Habs as [Habs | Habs]; apply findResolved_unresolved in Habs.
  - rewrite Habs in Hfrom. injection Hfrom as <-. done.
  - rewrite Habs in Hto. injection Hto as <-. by destruct foundFrom.
Qed.

Lemma forEach_unchanged {A} (l : list A) (f : A -> M unit) e :
  (forall a, a ∈ l -> f a e = (Normal tt, e)) -> forEach l f e = (Normal tt, e).
Proof.
  induction l as [|a l IH]; simpl; intros Hf; [done|].
  rewrite (bind_run _ _ e tt e) by (apply Hf; left).
  apply IH. intros b Hb. apply Hf. by right.
Qed.

End Inline.

Lemma node_objects_ext e e' G G' :
  nodeStore e' = nodeStore e -> graph_nodes G' = graph_nodes G ->
  node_objects e' G' = node_objects e G.
Proof. unfold node_objects. by intros -> ->. Qed.

Lemma joins_ext e e' G G' c :
  nodeStore e' = nodeStore e -> graph_nodes G' = graph_nodes G ->
  joins e G c -> joins e' G' c.
Proof.
  intros He HG. unfold joins, interface_in. by rewrite (node_objects_ext e e' G G').
Qed.

Lemma sublist_List_filter {A} (p : A -> bool) (l : list A) : sublist (List.filter p l) l.
Proof.
  induction l as [|a l IH]; simpl; [constructor|].
  destruct (p a); by constructor.
Qed.

Section Inline_connections.

Context `{Collaborators}.

(** The copy loop creates no connection. *)
Lemma copyNode_wired node meanX meanY r g conns e u e' :
  wired g conns e -> copyNode node meanX meanY r e = (Normal u, e') -> wired g conns e'.
Proof.
  intros (Hg & G & HG & Hconns) Hrun. unfold copyNode in Hrun. inv_M.
  case_bool_decide; [inv_M; split; eauto|]. inv_M.
  match goal with
  | Hp : (match node_position ?N0 with Some _ => _ | None => _ end) _ = (_, ?e1) |- _ =>
    assert (Hpos : graphStore e1 = graphStore e /\ _graph e1 = _graph e)
      by (destruct (node_position N0); inv_M; done);
    destruct Hpos as (Hpg & Hpc) end.
  unfold addNode in *. inv_M.
  match goal with Hc : _graph ?e0 = Some _, Hpc' : _graph ?e0 = _graph e |- _ =>
    rewrite Hpc', Hg in Hc; injection Hc as Hc; subst end.
  destruct (beforeAddNode_prevented _).
  { inv_M. split; [congruence|]. exists G. split; [congruence | done]. }
  inv_all. unfold position_x, position_y in *. inv_all. simpl in *. simplify_eq.
  repeat match goal with Hc : <[?k := _]> _ !! ?k = Some _ |- _ =>
    rewrite lookup_insert_eq in Hc; injection Hc as <- end.
  split; [simpl; congruence|]. simpl. rewrite lookup_insert_eq.
  eexists. split; [reflexivity|]. simpl.
  match goal with Hc : graphStore ?e0 !! _ = Some ?G2 |- graph_connections ?G2 = _ =>
    rewrite Hpg, HG in Hc; by injection Hc as <- end.
Qed.

Lemma copy_loop_wired node meanX meanY (l : list nref) g conns e u e' :
  wired g conns e -> forEach l (copyNode node meanX meanY) e = (Normal u, e') ->
  wired g conns e'.
Proof.
  revert e. induction l as [|r l IH]; simpl; intros e Hw Hrun; inv_M; [done|].
  match goal with Hc : copyNode _ _ _ _ _ = _ |- _ =>
    apply (copyNode_wired _ _ _ _ _ _ _ _ _ Hw) in Hc end.
  eauto.
Qed.

(** The connections [removeNode] leaves are connections the graph had. *)
Lemma removeNode_wired g node conns e u e' N :
  wired g conns e -> nodeStore e !! node = Some N ->
  removeNode g node e = (Normal u, e') ->
  nodeStore e' = nodeStore e
  /\ exists kept, wired g kept e' /\ sublist kept conns.
Proof.
  intros (Hg & G & HG & Hconns) HN Hrun. unfold removeNode in Hrun. inv_M.
  simplify_eq. case_bool_decide.
  - inv_all. simplify_eq. split; [done|]. eexists. split; [|apply sublist_List_filter].
    split; [done|]. simpl. rewrite lookup_insert_eq. eexists. split; [reflexivity|]. done.
  - inv_M. split; [done|]. exists (graph_connections G). split; [|done].
    split; [done|]. eauto.
Qed.

Lemma reconnect_reconnected e0 G0 g kept m c e u e' :
  reconnected e0 G0 g kept e -> reconnect m c e = (Normal u, e') ->
  reconnected e0 G0 g kept e'.
Proof.
  intros Hinv Hrun. unfold reconnect in Hrun.
  destruct (_ || _); [by inv_M|]. inv_M.
  pose proof Hinv as (Hg & Hstore & G & created & HG & Hnodes & Hconns & Hcreated).
  assert (Hfound : forall resolved i ex, findResolved resolved e = (Normal (Some i), ex) ->
                                         interface_in e0 G0 i).
  { intros resolved i ex Hf. apply (findResolved_found e g G) in Hf; [|done..].
    unfold interface_in in *. by rewrite <- (node_objects_ext e0 e G0 G). }
  match goal with Hf : findResolved (resolveEndpoint m (conn_from c)) e = (Normal ?a, ?e1) |- _ =>
    pose proof (findResolved_same _ _ _ _ Hf); subst e1; rename Hf into Hfrom;
    rename a into foundFrom end.
  match goal with Hf : findResolved (resolveEndpoint m (conn_to c)) e = (Normal ?a, ?e1) |- _ =>
    pose proof (findResolved_same _ _ _ _ Hf); subst e1; rename Hf into Hto;
    rename a into foundTo end.
  destruct foundFrom as [from|]; [|by inv_M].
  destruct foundTo as [to|]; [|by inv_M].
  apply Hfound in Hfrom. apply Hfound in Hto.
  inv_M. unfold addConnection in *. inv_M.
  destruct (connectionAccepted _ _ _ _); [|by inv_M].
  inv_all. simplify_eq.
  split; [done|]. split; [done|]. simpl. rewrite lookup_insert_eq.
  eexists _, (created ++ [mkConnection from to]). split; [reflexivity|]. simpl.
  split; [done|]. split; [by rewrite Hconns, app_assoc|].
  apply Forall_app. split; [done|]. by constructor.
Qed.

Lemma reconnect_loop_reconnected e0 G0 g kept m (l : list Connection) e u e' :
  reconnected e0 G0 g kept e -> forEach l (reconnect m) e = (Normal u, e') ->
  reconnected e0 G0 g kept e'.
Proof.
  revert e. induction l as [|c l IH]; simpl; intros e Hinv Hrun; inv_M; [done|].
  match goal with Hc : reconnect _ _ _ = _ |- _ =>
    apply (reconnect_reconnected _ _ _ _ _ _ _ _ _ Hinv) in Hc end.
  eauto.
Qed.

(** When [unwrapSubgraph] returns, the connections of the parent graph are
    connections it had, followed by connections between interfaces of its
    nodes. *)
Lemma unwrapSubgraph_created (e : Editor) (node : nref) (g : gref) (G : Graph) u e' :
  _graph e = Some g -> graphStore e !! g = Some G ->
  unwrapSubgraph node e = (Normal u, e') ->
  exists G' kept created,
    graphStore e' !! g = Some G'
    /\ graph_connections G' = kept ++ created
    /\ sublist kept (graph_connections G)
    /\ Forall (joins e' G') created.
Proof.
  intros Hg HG Hrun. unfold unwrapSubgraph in Hrun. inv_M. simplify_eq.
  repeat match goal with
         | Hx : mapM (fun rn => position_x rn.2) _ _ = _ |- _ =>
             apply mapM_position_x in Hx as (-> & _ & _)
         | Hy : mapM (fun rn => position_y rn.2) _ _ = _ |- _ =>
             apply mapM_position_y in Hy as (-> & _)
         end.
  inv_all. simplify_eq.
  match goal with Hc : forEach _ (copyNode _ _ _) ?e1 = _ |- _ =>
    assert (Hw1 : wired g (graph_connections G) e1);
    [|pose proof (copy_loop_wired _ _ _ _ _ _ _ _ _ Hw1 Hc) as Hw2] end.
  { split; [done|]. simpl. rewrite lookup_insert_eq. eexists. done. }
  pose proof Hw2 as (Hshown2 & _).
  match goal with Hc : _graph ?e2 = Some ?gx, Hrem : removeNode ?gx _ ?e2 = _ |- _ =>
    rewrite Hshown2 in Hc; injection Hc as <- end.
  match goal with Hn : nodeStore ?e2 !! node = Some ?N2, Hrem : removeNode _ _ ?e2 = _ |- _ =>
    destruct (removeNode_wired _ _ _ _ _ _ N2 Hw2 Hn Hrem) as (Hstore & kept & Hw3 & Hkept) end.
  destruct Hw3 as (Hg3 & G3 & HG3 & Hconns3).
  match goal with Hre : forEach _ (reconnect _) ?e3 = _ |- _ =>
    apply (reconnect_loop_reconnected e3 G3 g kept) in Hre
      as (Hg' & Hstore' & G' & created & HG' & Hnodes' & Hconns' & Hcreated) end.
  2: { split; [done|]. split; [done|]. exists G3, []. rewrite app_nil_r.
       split; [done|]. split; [done|]. split; [done|]. constructor. }
  exists G', kept, created. split; [done|]. split; [done|]. split.
  - done.
  - eapply Forall_impl; [exact Hcreated|]. intros c. by apply joins_ext.
Qed.

End Inline_connections.

Section Inline_markers.

Context `{Collaborators}.

Lemma elem_of_remove_first (n r : nref) (l : list nref) :
  NoDup l -> r ∈ remove_first n l <-> r ∈ l /\ r <> n.
Proof.
  induction l as [|x l IH]; simpl; intros Hnd.
  - split; [by intros ?%elem_of_nil | by intros [?%elem_of_nil _]].
  - apply NoDup_cons in Hnd as [Hx Hnd]. case_bool_decide as Hxn.
    + subst x. split.
      * intros Hr. split; [by right | by intros ->].
      * intros [[->|Hr]%elem_of_cons Hne]; done.
    + rewrite !elem_of_cons, IH by done. split.
      * intros [-> | [Hr Hne]]; [split; [by left | done] | split; [by right | done]].
      * intros [[-> | Hr] Hne]; [by left | right; done].
Qed.

Lemma mapM_nil {A B} (f : A -> M B) e : mapM f [] e = (Normal [], e).
Proof. done. Qed.

(** The assignment to [subgraphNodeToNode] that throws is the first thing
    [unwrapSubgraph] does to anything. *)
Lemma unwrapSubgraph_throws (e : Editor) (node : nref) (N : Node) (sg : gref) (Sub : Graph)
    err :
  nodeStore e !! node = Some N -> node_subgraph N = Some sg ->
  graphStore e !! sg = Some Sub ->
  subgraphNodeToNode (graph_connections Sub) N = Throw err ->
  unwrapSubgraph node e = (Throw err, e).
Proof.
  intros HN Hsg HSub Hm. unfold unwrapSubgraph.
  rewrite (bind_run _ _ e N e) by (by apply the_node_run).
  rewrite Hsg, (bind_run _ _ e (sg, Sub) e) by (by apply the_graph_run).
  unfold bind at 1, lift. by rewrite Hm.
Qed.

(** Claim C8, as the code has it. First, for every subgraph: when
    [unwrapSubgraph] returns, the connections of the parent graph are
    connections it had, in their order, followed by the connections created,
    and both ends of every connection created are interfaces of nodes of the
    parent graph. Second, for a graph node whose subgraph holds only boundary
    markers (so also one whose input marker is wired straight to its output
    marker), in a parent graph of distinct nodes whose ids are neither the id
    of the graph node nor a node id at an end of a connection of the
    subgraph: if an assignment to [subgraphNodeToNode] throws, the call
    throws the same and changes nothing; otherwise the call returns, removes
    the node from the parent graph together with the connections at its
    interfaces, and creates no connection at all: the ends of the subgraph's
    connections are markers, which are not nodes of the parent graph. The
    store of nodes and the editor's list of templates are unchanged. *)
Theorem unwrapSubgraph_reconnects (e : Editor) (node : nref) (N : Node)
    (g sg : gref) (G Sub : Graph) :
  _graph e = Some g -> graphStore e !! g = Some G ->
  nodeStore e !! node = Some N -> node_subgraph N = Some sg ->
  graphStore e !! sg = Some Sub ->
  (forall u e', unwrapSubgraph node e = (Normal u, e') ->
     exists G' kept created,
       graphStore e' !! g = Some G'
       /\ graph_connections G' = kept ++ created
       /\ sublist kept (graph_connections G)
       /\ Forall (joins e' G') created)
  /\ (sg <> g ->
      (forall rn, rn ∈ node_objects e Sub -> node_type rn.2 ∈ subgraphTypes) ->
      node ∈ graph_nodes G -> NoDup (graph_nodes G) ->
      (forall r M, (r, M) ∈ node_objects e G -> r <> node ->
         node_id M <> node_id N
         /\ forall c, c ∈ graph_connections Sub ->
              node_id M <> intf_nodeId (conn_from c)
              /\ node_id M <> intf_nodeId (conn_to c)) ->
      match subgraphNodeToNode (graph_connections Sub) N with
      | Throw err => unwrapSubgraph node e = (Throw err, e)
      | Normal _ =>
          exists e' G',
            unwrapSubgraph node e = (Normal tt, e')
            /\ nodeStore e' = nodeStore e /\ _graphTemplates e' = _graphTemplates e
            /\ graphStore e' !! g = Some G'
            /\ graph_nodes G' = remove_first node (graph_nodes G)
            /\ (node ∉ graph_nodes G')
            /\ graph_connections G'
               = List.filter (fun c => negb (touches (node_id N) c)) (graph_connections G)
      end).
Proof.
  intros Hg HG HN Hsg HSub. split.
  { intros u e' Hrun. by eapply unwrapSubgraph_created. }
  intros Hne Hmarkers Hin Hnd Hids.
  destruct (subgraphNodeToNode (graph_connections Sub) N) as [m|err] eqn:Hm;
    [|by eapply unwrapSubgraph_throws].
  assert (Hcopied : subgraphNodes e Sub = []).
  { apply elem_of_nil_inv. intros rn [Hrn Htype]%elem_of_subgraphNodes.
    by apply Htype, Hmarkers. }
  set (e1 := set_graphStore (<[g := with_selectedNodes [] G]> (graphStore e)) e).
  set (G2 := with_nodes (remove_first node (graph_nodes G))
               (with_connections
                  (List.filter (fun c => negb (touches (node_id N) c)) (graph_connections G))
                  (with_selectedNodes [] G))).
  set (e2 := set_graphStore (<[g := G2]> (graphStore e1)) e1).
  assert (HG1 : graphStore e1 !! g = Some (with_selectedNodes [] G))
    by (simpl; apply lookup_insert_eq).
  assert (HG2 : graphStore e2 !! g = Some G2) by (simpl; apply lookup_insert_eq).
  assert (HSub2 : graphStore e2 !! sg = Some Sub)
    by (simpl; by rewrite !lookup_insert_ne).
  exists e2, G2.
  split; [|split; [done|]; split; [done|]; split; [done|]; split; [done|];
           split; [|done]].
  2: { simpl. rewrite elem_of_remove_first by done. by intros [_ ?]. }
  unfold unwrapSubgraph.
  rewrite (bind_run _ _ e N e) by (by apply the_node_run).
  rewrite Hsg, (bind_run _ _ e (sg, Sub) e) by (by apply the_graph_run).
  rewrite (bind_run _ _ e m e) by (unfold lift; by rewrite Hm).
  rewrite (bind_run _ _ e e e) by done.
  rewrite Hcopied. simpl length. simpl map.
  rewrite (bind_run _ _ e [] e) by done.
  rewrite (bind_run _ _ e [] e) by done.
  rewrite Hg, (bind_run _ _ e (g, G) e) by (by apply the_graph_to_set_run).
  rewrite (bind_run _ _ e tt e1) by done.
  rewrite (bind_run _ _ e1 tt e1) by done.
  rewrite (bind_run _ _ e1 e1 e1) by done.
  change (_graph e1) with (_graph e). rewrite Hg.
  rewrite (bind_run _ _ e1 (g, with_selectedNodes [] G) e1) by (by apply the_graph_run).
  rewrite (bind_run _ _ e1 N e1) by (by apply the_node_run).
  rewrite (bind_run _ _ e1 tt e2).
  2: { unfold removeNode.
       rewrite (bind_run _ _ e1 (g, with_selectedNodes [] G) e1) by (by apply the_graph_run).
       simpl graph_nodes. rewrite bool_decide_eq_true_2 by done.
       rewrite (bind_run _ _ e1 N e1) by (by apply the_node_run). done. }
  rewrite (bind_run _ _ e2 N e2) by (by apply the_node_run).
  rewrite Hsg, (bind_run _ _ e2 (sg, Sub) e2) by (by apply the_graph_run).
  (* every end that can come up names no node left in the parent *)
  assert (Habsent : forall id,
            (id = node_id N
             \/ exists c, c ∈ graph_connections Sub
                          /\ (id = intf_nodeId (conn_from c) \/ id = intf_nodeId (conn_to c))) ->
            absent e2 id).
  { intros id Hid. exists g, G2. split; [done|]. split; [done|].
    intros [r M] [Hr HM]%elem_of_node_objects. simpl in Hr, HM.
    apply elem_of_remove_first in Hr as [Hr Hrn]; [|done].
    destruct (Hids r M) as [HidN Hconn]; [by apply elem_of_node_objects | done |].
    simpl. destruct Hid as [-> | (c & Hc & [-> | ->])]; [done | |]; by apply Hconn. }
  pose proof (subgraphNodeToNode_ends _ _ _ Hm) as Hends.
  assert (Hresolve : forall i,
            (intf_nodeId i = node_id N
             \/ exists c, c ∈ graph_connections Sub /\ (i = conn_from c \/ i = conn_to c)) ->
            unresolved e2 (resolveEndpoint m i)).
  { intros i Hi. unfold resolveEndpoint. destruct (has_property m (intf_id i)).
    - destruct (get_property m (intf_id i)) as [ep|] eqn:Hep; simpl; [|by eauto].
      destruct (get_property_ends _ _ _ _ Hends Hep) as (c & Hc & [-> | ->]);
        apply Habsent; right; eauto.
    - apply Habsent. simpl. destruct Hi as [-> | (c & Hc & [-> | ->])]; eauto. }
  apply forEach_unchanged. intros c [Hc | Hc]%elem_of_app; apply reconnect_drops.
  - left. apply Hresolve. right. eauto.
  - apply list_elem_of_In, filter_In in Hc as [_ Htouch]. unfold touches in Htouch.
    apply orb_true_iff in Htouch as [Ht | Ht]; apply bool_decide_eq_true in Ht.
    + left. apply Hresolve. by left.
    + right. apply Hresolve. by left.
Qed.

End Inline_markers.

(** ** Changing the specification *)
Lemma mm_bind_Normal {A B} (m : MM A) (k : A -> MM B) mgr b mgr' :
  mm_bind m k mgr = (Normal b, mgr') <->
  exists a mgr1, m mgr = (Normal a, mgr1) /\ k a mgr1 = (Normal b, mgr').
Proof.
  unfold mm_bind. split.
  - destruct (m mgr) as [[a|err] mgr1]; [eauto | discriminate].
  - intros (a & mgr1 & -> & Hk). done.
Qed.

Lemma on_editor_Normal {A} (m : M A) mgr a mgr' :
  on_editor m mgr = (Normal a, mgr') <->
  exists e', m (editor mgr) = (Normal a, e') /\ mgr' = set_editor e' mgr.
Proof.
  unfold on_editor. destruct (m (editor mgr)) as [r e']. split.
  - intros [= -> <-]. eauto.
  - intros (e1 & [= -> ->] & ->). done.
Qed.

Lemma only_graphs_refl e : only_graphs e e.
Proof. by destruct e. Qed.

Lemma only_graphs_trans e1 e2 e3 : only_graphs e1 e2 -> only_graphs e2 e3 -> only_graphs e1 e3.
Proof. unfold only_graphs. intros -> ->. done. Qed.

Section Specification.

Context `{Collaborators}.

Context (readInterfaceTypes : list SpecNode -> jsobj string).

Context (NodeFactory : string -> string -> list InterfaceState -> list string ->
                       list InterfaceState -> jsobj string -> NodeClass).

Lemma removeConnection_only_graphs g i e u e' :
  removeConnection g i e = (Normal u, e') -> only_graphs e e'.
Proof. unfold removeConnection. intros Hrun. inv_all. done. Qed.

Lemma removeNode_only_graphs g n e u e' :
  removeNode g n e = (Normal u, e') -> only_graphs e e'.
Proof.
  unfold removeNode. intros Hrun. inv_M.
  destruct (bool_decide _); inv_all; [done | apply only_graphs_refl].
Qed.

(** Deleting every key of a registry empties it. *)
Lemma unregister_all (keys : list string) e u e' :
  forEach keys unregisterNodeType e = (Normal u, e') ->
  e' = set__nodeTypes (fold_left (fun t k => delete k t) keys (_nodeTypes e)) e.
Proof.
  revert e. induction keys as [|k keys IH]; simpl; intros e Hrun.
  - inv_M. by destruct e.
  - unfold unregisterNodeType at 1 in Hrun. inv_M. apply IH in Hrun. by rewrite Hrun.
Qed.

Lemma lookup_delete_all (keys : list string) (t : gmap string NodeTypeInformation) k :
  fold_left (fun t k => delete k t) keys t !! k
  = if bool_decide (k ∈ keys) then None else t !! k.
Proof.
  revert t. induction keys as [|k' keys IH]; simpl; intros t; [done|].
  rewrite IH. case_bool_decide as Hk.
  - rewrite bool_decide_eq_true_2; [done | by right].
  - destruct (decide (k = k')) as [->|Hne].
    + rewrite lookup_delete_eq. by rewrite bool_decide_eq_true_2 by left.
    + rewrite lookup_delete_ne by done. rewrite bool_decide_eq_false_2; [done|].
      by intros [?|?]%elem_of_cons.
Qed.

Lemma delete_all_keys (t : gmap string NodeTypeInformation) :
  fold_left (fun t k => delete k t) (map fst (map_to_list t)) t = ∅.
Proof.
  apply map_eq. intros k. rewrite lookup_delete_all, lookup_empty.
  case_bool_decide as Hk; [done|].
  destruct (t !! k) as [v|] eqn:Hv; [|done].
  exfalso. apply Hk. apply list_elem_of_fmap. exists (k, v). split; [done|].
  by apply elem_of_map_to_list.
Qed.

Lemma register_loop (nodes : list SpecNode) interfaceTypes e u e' :
  forEach nodes
    (fun node =>
       let myNode :=
         NodeFactory (sn_name node) (sn_name node) (sn_inputs node) (sn_properties node)
           (sn_outputs node) interfaceTypes in
       registerNodeType myNode
         (Some (mkRegisterOptions (Some (sn_category node)) (Some (sn_name node)) None)))
    e = (Normal u, e') ->
  e' = set__nodeTypes (register_all NodeFactory nodes interfaceTypes (_nodeTypes e)) e.
Proof.
  revert e. induction nodes as [|node nodes IH]; simpl; intros e Hrun.
  - inv_M. by destruct e.
  - inv_M. unfold registerNodeType in *. unfold register_all. simpl.
    destruct (beforeRegisterNodeType_prevented _); inv_M; apply IH in Hrun; by rewrite Hrun.
Qed.

Lemma updateInterfacesStyle_spec spec mgr u mgr' :
  updateInterfacesStyle (spec_metadata spec) mgr = (Normal u, mgr') ->
  mgr' = set_document_head (document_head mgr ++ interface_style spec) mgr.
Proof.
  unfold updateInterfacesStyle, interface_style.
  destruct (md_interfaces _); unfold mm_modify, mm_ret; intros [= <-]; [done|].
  rewrite app_nil_r. by destruct mgr.
Qed.

(** What the manager's [cleanEditor] leaves. *)
Lemma manager_cleanEditor_spec mgr u mgr' :
  manager_cleanEditor mgr = (Normal u, mgr') ->
  _nodeTypes (editor mgr') = ∅
  /\ _graphTemplates (editor mgr') = _graphTemplates (editor mgr)
  /\ document_head mgr' = remove_first_style interfacesStyleId (document_head mgr)
  /\ specificationLoaded mgr' = specificationLoaded mgr.
Proof.
  unfold manager_cleanEditor. intros Hrun.
  apply mm_bind_Normal in Hrun as (a & mgr1 & Hed & Hstyle).
  apply on_editor_Normal in Hed as (e1 & Hed & ->).
  unfold removeInterfacesStyle, mm_modify in Hstyle. injection Hstyle as Hstyle.
  inv_M.
  match goal with Hc : forEach _ (fun i => removeConnection _ i) _ = _ |- _ =>
    apply (forEach_preserves only_graphs) in Hc;
      [|apply only_graphs_refl|apply only_graphs_trans
       |intros ? ? ? ? _; apply removeConnection_only_graphs] end.
  match goal with Hn : forEach _ _ ?ea = (Normal _, ?eb), Hc : only_graphs _ ?ea |- _ =>
    apply (forEach_preserves only_graphs) in Hn;
      [|apply only_graphs_refl|apply only_graphs_trans|] end.
  2: { intros i ex ux ey _ Hi. inv_M.
       destruct (graph_nodes _ !! i); [by eapply removeNode_only_graphs|].
       inv_M. apply only_graphs_refl. }
  apply unregister_all in Hed. rewrite delete_all_keys in Hed. subst e1.
  subst mgr'. simpl.
  repeat match goal with Ho : only_graphs _ _ |- _ => rewrite Ho; clear Ho end.
  done.
Qed.

Lemma forEach_returns {A} (Inv : Editor -> Prop) (l : list A) (f : A -> M unit) :
  (forall a e, Inv e -> exists e', f a e = (Normal tt, e') /\ Inv e') ->
  forall e, Inv e -> exists e', forEach l f e = (Normal tt, e') /\ Inv e'.
Proof.
  intros Hf. induction l as [|a l IH]; simpl; intros e He; [by exists e|].
  destruct (Hf a e He) as (e1 & Hrun & He1).
  rewrite (bind_run _ _ e tt e1) by done. by apply IH.
Qed.

Lemma elem_of_remove_first_sub n x l : x ∈ remove_first n l -> x ∈ l.
Proof.
  induction l as [|y l IH]; simpl; [done|].
  case_bool_decide; [by right|]. intros [->|?]%elem_of_cons; [left | right; auto].
Qed.

Lemma removeConnection_returns g i e :
  graph_alive g e -> exists e', removeConnection g i e = (Normal tt, e') /\ graph_alive g e'.
Proof.
  intros (G & HG & Hn). unfold removeConnection.
  rewrite (bind_run _ _ e (g, G) e) by (by apply the_graph_run).
  eexists. split; [reflexivity|]. eexists. simpl. rewrite lookup_insert_eq. split; [done|].
  exact Hn.
Qed.

Lemma removeNode_step_returns g i e :
  graph_alive g e ->
  exists e',
    (do '(_, G') <- the_graph "nodes" (Some g) in
     match graph_nodes G' !! i with
     | Some n => removeNode g n
     | None => ret tt
     end) e = (Normal tt, e') /\ graph_alive g e'.
Proof.
  intros (G & HG & Hn).
  rewrite (bind_run _ _ e (g, G) e) by (by apply the_graph_run).
  destruct (graph_nodes G !! i) as [n|] eqn:Hi; [|by exists e; split; [|exists G]].
  unfold removeNode. rewrite (bind_run _ _ e (g, G) e) by (by apply the_graph_run).
  rewrite bool_decide_eq_true_2 by (by eapply list_elem_of_lookup_2).
  destruct (Hn n) as [N HN]; [by eapply list_elem_of_lookup_2|].
  rewrite (bind_run _ _ e N e) by (by apply the_node_run).
  eexists. split; [reflexivity|]. eexists. simpl. rewrite lookup_insert_eq. split; [done|].
  simpl. intros x Hx. apply Hn. by eapply elem_of_remove_first_sub.
Qed.

Lemma manager_cleanEditor_returns mgr g :
  _graph (editor mgr) = Some g -> graph_alive g (editor mgr) ->
  exists mgr', manager_cleanEditor mgr = (Normal tt, mgr').
Proof.
  intros Hg Halive. pose proof Halive as (G & HG & _).
  unfold manager_cleanEditor, mm_bind, on_editor.
  rewrite (bind_run _ _ (editor mgr) (editor mgr) (editor mgr)) by done.
  rewrite Hg. rewrite (bind_run _ _ (editor mgr) (g, G) (editor mgr)) by (by apply the_graph_run).
  destruct (forEach_returns (graph_alive g) (reverse (seq 0 (length (graph_connections G))))
              (fun i => removeConnection g i) (removeConnection_returns g) _ Halive)
    as (e1 & Hrun1 & Halive1).
  rewrite (bind_run _ _ _ tt e1) by exact Hrun1.
  destruct (forEach_returns (graph_alive g) (reverse (seq 0 (length (graph_nodes G)))) _
              (removeNode_step_returns g) _ Halive1)
    as (e2 & Hrun2 & Halive2).
  rewrite (bind_run _ _ _ tt e2) by exact Hrun2.
  rewrite (bind_run _ _ e2 e2 e2) by done.
  destruct (forEach_returns (fun _ => True) (map fst (map_to_list (_nodeTypes e2)))
              unregisterNodeType) with (e := e2) as (e3 & Hrun3 & _); [|done|].
  { intros k e _. by eexists. }
  rewrite Hrun3. by eexists.
Qed.

Lemma register_returns (nodes : list SpecNode) interfaceTypes e :
  exists e',
    forEach nodes
      (fun node =>
         let myNode :=
           NodeFactory (sn_name node) (sn_name node) (sn_inputs node) (sn_properties node)
             (sn_outputs node) interfaceTypes in
         registerNodeType myNode
           (Some (mkRegisterOptions (Some (sn_category node)) (Some (sn_name node)) None)))
      e = (Normal tt, e').
Proof.
  edestruct (forEach_returns (fun _ => True) nodes) as (e' & Hrun & _);
    [| exact Logic.I | by eexists].
  intros node e0 _. simpl. unfold registerNodeType.
  destruct (beforeRegisterNodeType_prevented _); by eexists.
Qed.

Lemma updateEditorSpecification_returns mgr spec g :
  _graph (editor mgr) = Some g -> graph_alive g (editor mgr) ->
  exists mgr',
    updateEditorSpecification readInterfaceTypes NodeFactory (Some spec) mgr
    = (Normal tt, mgr').
Proof.
  intros Hg Halive. unfold updateEditorSpecification.
  assert (exists ma, (if specificationLoaded mgr then manager_cleanEditor else mm_ret tt) mgr
                     = (Normal tt, ma)) as (ma & Hclean).
  { destruct (specificationLoaded mgr); [by eapply manager_cleanEditor_returns | by eexists]. }
  unfold mm_bind at 1. rewrite Hclean.
  unfold mm_bind at 1. unfold mm_modify at 1.
  unfold mm_bind at 1.
  assert (exists mb, forall m, updateInterfacesStyle (spec_metadata spec) m
                               = (Normal tt, mb m)) as (mb & Hstyle).
  { unfold updateInterfacesStyle. destruct (md_interfaces _); by eexists. }
  rewrite Hstyle.
  unfold mm_bind at 1. unfold on_editor at 1.
  edestruct register_returns as (e1 & Hreg). rewrite Hreg.
  unfold mm_bind, on_editor, modify, mm_modify. simpl.
  destruct (readonly _); by eexists.
Qed.

Lemma updateEditorSpecification_state (m1 m2 : EditorManager) (spec : Specification) :
  specificationLoaded m1 = true ->
  updateEditorSpecification readInterfaceTypes NodeFactory (Some spec) m1 = (Normal tt, m2) ->
  _nodeTypes (editor m2)
  = register_all NodeFactory (spec_nodes spec)
          (readInterfaceTypes (spec_nodes spec)) ∅
  /\ document_head m2
     = remove_first_style interfacesStyleId (document_head m1) ++ interface_style spec
  /\ _graphTemplates (editor m2) = _graphTemplates (editor m1).
Proof.
  intros Hloaded Hrun. unfold updateEditorSpecification in Hrun. rewrite Hloaded in Hrun.
  apply mm_bind_Normal in Hrun as (a & ma & Hclean & Hrun).
  apply manager_cleanEditor_spec in Hclean as (Htypes & Htempl & Hhead & _).
  apply mm_bind_Normal in Hrun as (a0 & mb & Hmod & Hrun).
  unfold mm_modify in Hmod. injection Hmod as <-.
  apply mm_bind_Normal in Hrun as (a1 & mc & Hstyle & Hrun).
  apply updateInterfacesStyle_spec in Hstyle. subst mc.
  apply mm_bind_Normal in Hrun as (a2 & md & Hreg & Hrun).
  apply on_editor_Normal in Hreg as (e1 & Hreg & ->).
  apply register_loop in Hreg. subst e1.
  apply mm_bind_Normal in Hrun as (a3 & me & Hro & Hrun).
  apply on_editor_Normal in Hro as (e2 & Hro & ->). inv_M.
  apply mm_bind_Normal in Hrun as (a4 & mf & Htoast & Hrun).
  apply mm_bind_Normal in Hrun as (a5 & mg & Hloop & Hrun).
  apply on_editor_Normal in Hloop as (e3 & Hloop & ->). inv_M.
  unfold mm_modify in Hrun. injection Hrun as <-.
  simpl in Htoast. destruct (readonly _); injection Htoast as <-; subst; simpl;
    rewrite Htypes, Hhead, Htempl; done.
Qed.

(** Claim C9, as the code has it. With a specification already active and a
    graph shown whose nodes are live, [updateEditorSpecification] returns,
    and afterwards the registry of node types is exactly what the nodes of
    the new specification register on an empty registry, the first
    stylesheet with the id of the interface styles has been removed before
    the new one was appended, and the editor's list of subgraph templates is
    the one before the call. *)
Theorem updateEditorSpecification_replaces (m1 : EditorManager) (spec : Specification) g :
  specificationLoaded m1 = true ->
  _graph (editor m1) = Some g -> graph_alive g (editor m1) ->
  exists m2,
    updateEditorSpecification readInterfaceTypes NodeFactory (Some spec) m1 = (Normal tt, m2)
    /\ _nodeTypes (editor m2)
        = register_all NodeFactory (spec_nodes spec)
          (readInterfaceTypes (spec_nodes spec)) ∅
    /\ document_head m2
        = remove_first_style interfacesStyleId (document_head m1) ++ interface_style spec
    /\ _graphTemplates (editor m2) = _graphTemplates (editor m1).
Proof.
  intros Hloaded Hg Halive.
  destruct (updateEditorSpecification_returns m1 spec g Hg Halive) as (m2 & Hrun).
  exists m2. split; [exact Hrun|]. by apply updateEditorSpecification_state.
Qed.

End Specification.

(** Claim C9 fails for subgraph templates: a template registered while the
    first specification was active is still among the editor's templates
    after the second specification, although its node type is gone. *)
Lemma template_survives_specification :
  exists m,
    two_specifications new_manager = (Normal tt, m)
    /\ a_template ∈ _graphTemplates (editor m)
    /\ _nodeTypes (editor m) !! (GRAPH_NODE_TYPE_PREFIX +:+ "t") = None.
Proof.
  eexists. split; [vm_compute; reflexivity|]. split; [|by vm_compute].
  vm_compute. left.
Qed.

(** The second of two specifications, applied after the first. *)
Lemma updateEditorSpecification_replaces_witness :
  exists m2,
    plain_update second_specification
      (plain_update first_specification new_manager).2 = (Normal tt, m2)
    /\ _nodeTypes (editor m2)
        = register_all (H := SpecModel.collaborators) plain_factory
            (spec_nodes second_specification) [] ∅
    /\ document_head m2
        = remove_first_style interfacesStyleId
            (document_head (plain_update first_specification new_manager).2)
          ++ interface_style second_specification
    /\ _graphTemplates (editor m2)
        = _graphTemplates (editor (plain_update first_specification new_manager).2).
Proof.
  apply (updateEditorSpecification_replaces (H := SpecModel.collaborators) (fun _ => [])
           plain_factory (plain_update first_specification new_manager).2
           second_specification 0).
  - reflexivity.
  - reflexivity.
  - eexists. split; [vm_compute; reflexivity|]. simpl. intros n Hn. by apply elem_of_nil in Hn.
Defined.

Lemma keeps_interfaces_refl n e : keeps_interfaces n e e.
Proof. intros N HN. by exists N. Qed.

Lemma keeps_interfaces_trans n e1 e2 e3 :
  keeps_interfaces n e1 e2 -> keeps_interfaces n e2 e3 -> keeps_interfaces n e1 e3.
Proof.
  intros H12 H23 N HN. destruct (H12 N HN) as (N2 & HN2 & Hi & Ho).
  destruct (H23 N2 HN2) as (N3 & HN3 & Hi3 & Ho3). exists N3.
  split; [done|]. split; congruence.
Qed.

Lemma keeps_interfaces_nodeStore n e e' :
  nodeStore e' = nodeStore e -> keeps_interfaces n e e'.
Proof. intros Heq N HN. exists N. by rewrite Heq. Qed.

Lemma update_first_keys p f (o : jsobj NodeInterface) :
  obj_keys (update_first p f o) = obj_keys o.
Proof.
  induction o as [|[k v] o IH]; simpl; [done|].
  destruct (p v); simpl; [done|]. by rewrite IH.
Qed.

Lemma update_first_ids p f (o : jsobj NodeInterface) :
  (forall io, p io = true -> intf_subgraphNodeId (f io) = intf_subgraphNodeId io) ->
  map intf_subgraphNodeId (obj_values (update_first p f o))
  = map intf_subgraphNodeId (obj_values o).
Proof.
  intros Hf. induction o as [|[k v] o IH]; simpl; [done|].
  destruct (p v) eqn:Hp; simpl; [by rewrite Hf | by rewrite IH].
Qed.

Lemma update_first_fixed p f (o : jsobj NodeInterface) :
  (forall io, io ∈ obj_values o -> p io = true -> f io = io) ->
  update_first p f o = o.
Proof.
  induction o as [|[k v] o IH]; simpl; intros Hf; [done|].
  destruct (p v) eqn:Hp.
  - rewrite Hf; [done | by left | done].
  - rewrite IH; [done|]. intros io Hio. apply Hf. by right.
Qed.

Lemma existsb_has_ids id (l l' : list NodeInterface) :
  map intf_subgraphNodeId l' = map intf_subgraphNodeId l ->
  existsb (has_subgraphNodeId id) l' = existsb (has_subgraphNodeId id) l.
Proof.
  revert l'. induction l as [|x l IH]; intros [|y l']; simpl; try done.
  intros [= Hxy Hl]. unfold has_subgraphNodeId at 1 3. rewrite Hxy. by rewrite (IH l').
Qed.

Lemma find_existsb {A} (p : A -> bool) (l : list A) :
  existsb p l = true -> exists x, List.find p l = Some x.
Proof.
  induction l as [|y l IH]; simpl; [done|].
  destruct (p y); [by eexists | exact IH].
Qed.

Lemma forallb_pointwise {A} (p q : A -> bool) (l : list A) :
  (forall a, p a = q a) -> forallb p l = forallb q l.
Proof. intros Hpq. induction l as [|a l IH]; simpl; [done|]. by rewrite Hpq, IH. Qed.

Section Reconcile.

Context `{Collaborators}.

Lemma has_subgraphNodeId_assign id intf io :
  gi_subgraphNodeId intf = Some id -> has_subgraphNodeId id io = true ->
  intf_subgraphNodeId (Object_assign io intf) = intf_subgraphNodeId io.
Proof.
  intros Hid Hio. apply bool_decide_eq_true in Hio. unfold Object_assign. simpl.
  by rewrite Hid, Hio.
Qed.

(** The loop over the boundary entries, on a node in sync with them. *)
Lemma update_loop_inputs (ifaces : jsobj GraphInterface) (N : Node) :
  forallb
    (fun entry =>
       bool_decide (gi_subgraphNodeId entry.2 = Some entry.1)
       && existsb (has_subgraphNodeId entry.1) (obj_values (node_inputs N)))
    ifaces = true ->
  let N' :=
    fold_left
      (fun N entry =>
         let '(id, intf) := entry in
         match List.find (has_subgraphNodeId id) (obj_values (node_inputs N)) with
         | None =>
             addInput (gi_name intf) (Object_assign (new_NodeInterface (gi_name intf)) intf) N
         | Some _ =>
             with_inputs
               (update_first (has_subgraphNodeId id) (fun io => Object_assign io intf)
                  (node_inputs N)) N
         end)
      ifaces N in
  obj_keys (node_inputs N') = obj_keys (node_inputs N)
  /\ (settled_side ifaces (node_inputs N) -> node_inputs N' = node_inputs N).
Proof.
  revert N. induction ifaces as [|[id intf] ifaces IH]; simpl; intros N Hsync; [done|].
  apply andb_true_iff in Hsync as [Hhead Hrest].
  apply andb_true_iff in Hhead as [Hid Hex]. apply bool_decide_eq_true in Hid.
  destruct (find_existsb _ _ Hex) as (io & ->).
  set (N1 := with_inputs _ N).
  assert (Hids : map intf_subgraphNodeId (obj_values (node_inputs N1))
                 = map intf_subgraphNodeId (obj_values (node_inputs N))).
  { subst N1. simpl. apply update_first_ids. intros io0. by apply has_subgraphNodeId_assign. }
  destruct (IH N1) as [Hkeys Hfixed].
  { rewrite <- Hrest. apply forallb_pointwise. intros entry.
    by rewrite (existsb_has_ids _ _ _ Hids). }
  split.
  - rewrite Hkeys. subst N1. simpl. apply update_first_keys.
  - intros Hsettled.
    assert (HN1 : node_inputs N1 = node_inputs N).
    { subst N1. simpl. apply update_first_fixed. intros io0 Hio0 Hp.
      apply (Hsettled id intf io0); [by left | done | done]. }
    rewrite Hfixed; [done|]. rewrite HN1. intros id' intf' io' Hin.
    apply Hsettled. by right.
Qed.

Lemma update_loop_outputs (ifaces : jsobj GraphInterface) (N : Node) :
  forallb
    (fun entry =>
       bool_decide (gi_subgraphNodeId entry.2 = Some entry.1)
       && existsb (has_subgraphNodeId entry.1) (obj_values (node_outputs N)))
    ifaces = true ->
  let N' :=
    fold_left
      (fun N entry =>
         let '(id, intf) := entry in
         match List.find (has_subgraphNodeId id) (obj_values (node_outputs N)) with
         | None =>
             addOutput (gi_name intf) (Object_assign (new_NodeInterface (gi_name intf)) intf) N
         | Some _ =>
             with_outputs
               (update_first (has_subgraphNodeId id) (fun io => Object_assign io intf)
                  (node_outputs N)) N
         end)
      ifaces N in
  obj_keys (node_outputs N') = obj_keys (node_outputs N)
  /\ (settled_side ifaces (node_outputs N) -> node_outputs N' = node_outputs N).
Proof.
  revert N. induction ifaces as [|[id intf] ifaces IH]; simpl; intros N Hsync; [done|].
  apply andb_true_iff in Hsync as [Hhead Hrest].
  apply andb_true_iff in Hhead as [Hid Hex]. apply bool_decide_eq_true in Hid.
  destruct (find_existsb _ _ Hex) as (io & ->).
  set (N1 := with_outputs _ N).
  assert (Hids : map intf_subgraphNodeId (obj_values (node_outputs N1))
                 = map intf_subgraphNodeId (obj_values (node_outputs N))).
  { subst N1. simpl. apply update_first_ids. intros io0. by apply has_subgraphNodeId_assign. }
  destruct (IH N1) as [Hkeys Hfixed].
  { rewrite <- Hrest. apply forallb_pointwise. intros entry.
    by rewrite (existsb_has_ids _ _ _ Hids). }
  split.
  - rewrite Hkeys. subst N1. simpl. apply update_first_keys.
  - intros Hsettled.
    assert (HN1 : node_outputs N1 = node_outputs N).
    { subst N1. simpl. apply update_first_fixed. intros io0 Hio0 Hp.
      apply (Hsettled id intf io0); [by left | done | done]. }
    rewrite Hfixed; [done|]. rewrite HN1. intros id' intf' io' Hin.
    apply Hsettled. by right.
Qed.

(** The loop that removes the interfaces that left the boundary. *)
Lemma removal_loop {A} (keep : A -> bool) (drop : A -> Node -> Node) (l : list A) (N : Node) :
  forallb keep l = true ->
  fold_left (fun N k => if keep k then N else drop k N) l N = N.
Proof.
  revert N. induction l as [|k l IH]; simpl; intros N Hl; [done|].
  apply andb_true_iff in Hl as [-> Hl]. by apply IH.
Qed.

Lemma reconciled_inputs_in_sync ifaces N :
  in_sync ifaces (node_inputs N) = true ->
  obj_keys (node_inputs (reconciled_inputs ifaces N)) = obj_keys (node_inputs N)
  /\ (settled_side ifaces (node_inputs N) ->
      node_inputs (reconciled_inputs ifaces N) = node_inputs N).
Proof.
  unfold in_sync, reconciled_inputs. intros [Hkeep Hheld]%andb_true_iff.
  rewrite (removal_loop (keys_include ifaces) (fun k => without_input (intf_name k))) by done.
  by apply update_loop_inputs.
Qed.

Lemma reconciled_outputs_in_sync ifaces N :
  in_sync ifaces (node_outputs N) = true ->
  obj_keys (node_outputs (reconciled_outputs ifaces N)) = obj_keys (node_outputs N)
  /\ (settled_side ifaces (node_outputs N) ->
      node_outputs (reconciled_outputs ifaces N) = node_outputs N).
Proof.
  unfold in_sync, reconciled_outputs. intros [Hkeep Hheld]%andb_true_iff.
  rewrite (removal_loop (keys_include ifaces) (fun k => without_output (intf_name k))) by done.
  by apply update_loop_outputs.
Qed.

Lemma write_node_keeps n r (f : Node -> Node) N e u e' :
  nodeStore e !! r = Some N ->
  (r = n -> node_inputs (f N) = node_inputs N /\ node_outputs (f N) = node_outputs N) ->
  write_node r (f N) e = (Normal u, e') -> keeps_interfaces n e e'.
Proof.
  intros HN Hf Hw. apply write_node_Normal in Hw as ->. intros N0 HN0. simpl.
  destruct (decide (n = r)) as [->|Hne].
  - rewrite lookup_insert_eq. exists (f N). rewrite HN in HN0. injection HN0 as <-.
    split; [done|]. by apply Hf.
  - rewrite lookup_insert_ne by done. by exists N0.
Qed.

(** Entering writes no interface of the graph node, as long as
    [propagateInterfaces] does not. *)
Lemma switchToSubgraph_keeps (n : nref) e u e' :
  (forall e0 w, w ∈ propagateInterfaces e0 n -> w.1 <> n) ->
  switchToSubgraph n e = (Normal u, e') -> keeps_interfaces n e e'.
Proof.
  intros Hprop Hrun. unfold switchToSubgraph, switchGraph in Hrun. inv_M.
  match goal with Hr : context [node_subgraph ?x] |- _ =>
    destruct (node_subgraph x) as [sg|] eqn:Hsg; [|inv_M] end.
  inv_M.
  match goal with Hp : apply_propagation _ ?ea = (Normal _, ?eb) |- _ =>
    assert (Hk1 : keeps_interfaces n ea eb) end.
  { match goal with Hp : apply_propagation _ _ = _ |- _ =>
      unfold apply_propagation in Hp;
      eapply (forEach_preserves (keeps_interfaces n)); [| | |exact Hp] end;
      [apply keeps_interfaces_refl | apply keeps_interfaces_trans |].
    intros w ex ux ey Hw Hstep. cbv beta in Hstep. inv_M.
    destruct (nodeStore ex !! w.1) as [Nw|] eqn:HNw; [|inv_M; apply keeps_interfaces_refl].
    eapply (write_node_keeps n w.1 (fun N => with_outputs w.2.2 (with_inputs w.2.1 N)));
      [exact HNw | | exact Hstep].
    intros Heq. by apply Hprop in Hw. }
  match goal with Hp : forEach (graph_nodes _) _ ?ea = (Normal _, ?eb) |- _ =>
    assert (Hk2 : keeps_interfaces n ea eb) end.
  { match goal with Hp : forEach (graph_nodes _) _ _ = _ |- _ =>
      eapply (forEach_preserves (keeps_interfaces n)); [| | |exact Hp] end;
      [apply keeps_interfaces_refl | apply keeps_interfaces_trans |].
    intros r ex ux ey _ Hstep. cbv beta in Hstep. inv_M.
    destruct (subgraphNodePositions ex !! node_id _) as [p|];
      [|inv_M; apply keeps_interfaces_refl].
    inv_M. eapply keeps_interfaces_trans.
    - eapply (write_node_keeps n r (with_position (Some p))); eauto.
    - by apply keeps_interfaces_nodeStore. }
  simpl in *.
  eapply keeps_interfaces_trans; [|eapply keeps_interfaces_trans; [exact Hk1|]].
  - by apply keeps_interfaces_nodeStore.
  - eapply keeps_interfaces_trans; [exact Hk2|]. by apply keeps_interfaces_nodeStore.
Qed.

(** Claim C7, as the code has it. Let the graph node [n] be entered and left
    at once, and let [propagateInterfaces] write no interface of [n]. If the
    boundary the subgraph reports on leaving agrees with the interfaces of
    [n] on both sides (every interface names a boundary entry, every entry
    carries its own key as [subgraphNodeId] and is held by an interface),
    then [n] has the same input and output keys afterwards; each side whose
    updates in place change nothing is unchanged altogether. *)
Theorem enter_leave_keeps_interfaces (n : nref) (N : Node) (e e1 e2 eb : Editor)
    (inputs outputs : jsobj GraphInterface) :
  nodeStore e !! n = Some N ->
  (forall e0 w, w ∈ propagateInterfaces e0 n -> w.1 <> n) ->
  switchToSubgraph n e = (Normal tt, e1) ->
  boundaryInterfaces (suppressHistoryLogging true (set_subgraphStack (subgraphStack e) e1))
  = (Normal (inr (inputs, outputs)), eb) ->
  in_sync inputs (node_inputs N) = true ->
  in_sync outputs (node_outputs N) = true ->
  backFromSubgraph e1 = (Normal tt, e2) ->
  exists N2,
    nodeStore e2 !! n = Some N2
    /\ obj_keys (node_inputs N2) = obj_keys (node_inputs N)
    /\ obj_keys (node_outputs N2) = obj_keys (node_outputs N)
    /\ (settled_side inputs (node_inputs N) -> node_inputs N2 = node_inputs N)
    /\ (settled_side outputs (node_outputs N) -> node_outputs N2 = node_outputs N).
Proof.
  intros HN Hprop Henter Hboundary Hin Hout Hleave.
  destruct (switchToSubgraph_keeps n e tt e1 Hprop Henter N HN) as (N1 & HN1 & Hi1 & Ho1).
  apply switchToSubgraph_spec in Henter as (g & G & N0 & sg & _ & _ & _ & _ & _ & _ & Hstack & _).
  unfold backFromSubgraph in Hleave. inv_M.
  destruct (pop (subgraphStack e1)) as [[[newGraphId subgraphNode] rest]|] eqn:Hpop;
    [|inv_M].
  apply pop_Some in Hpop. rewrite Hstack in Hpop.
  apply app_inj_tail in Hpop as [Hrest [= Hid Hnode]]. subst rest newGraphId subgraphNode.
  inv_M.
  match goal with Hb : boundaryInterfaces _ = (Normal ?r, _) |- _ =>
    rewrite Hboundary in Hb; injection Hb as <- <- end.
  assert (HNb : nodeStore eb !! n = Some N1).
  { unfold boundaryInterfaces in Hboundary. inv_all.
    unfold ret in Hboundary. injection Hboundary as _ <-. simpl in *. congruence. }
  inv_M.
  match goal with Hi : reconcileInputs _ _ _ = _ |- _ =>
    apply reconcileInputs_reconciles in Hi as (Na & HNa & Hea & _) end.
  rewrite HNb in HNa. injection HNa as <-.
  match goal with Ho : reconcileOutputs _ _ ?ea = _ |- _ =>
    assert (HNa : nodeStore ea !! n = Some (reconciled_inputs inputs N1))
      by (rewrite Hea; simpl; apply lookup_insert_eq);
    apply reconcileOutputs_reconciles in Ho as (Nc & HNc & Hec & _) end.
  rewrite HNa in HNc. injection HNc as <-.
  simpl. rewrite Hec. simpl. rewrite lookup_insert_eq. eexists. split; [reflexivity|].
  destruct (reconciled_inputs_frame inputs N1) as (_ & _ & _ & Houts & _).
  destruct (reconciled_outputs_frame outputs (reconciled_inputs inputs N1))
    as (_ & _ & _ & Hins & _).
  rewrite <- Hi1 in Hin. rewrite <- Ho1, <- Houts in Hout.
  destruct (reconciled_inputs_in_sync inputs N1 Hin) as [Hkin Hfin].
  destruct (reconciled_outputs_in_sync outputs (reconciled_inputs inputs N1) Hout)
    as [Hkout Hfout].
  rewrite Hins. rewrite <- Hi1, <- Ho1, <- Houts.
  split; [exact Hkin|]. split; [exact Hkout|]. split; [exact Hfin|]. exact Hfout.
Qed.

End Reconcile.

Lemma forEach_load_Normal f nodes used errs nodes' used' :
  forEach_load f nodes used = Some (Normal (errs, nodes', used')) ->
  match nodes with
  | [] => errs = [] /\ nodes' = [] /\ used' = used
  | n :: rest =>
      exists e1 n1 u1 e2 rest',
        f n used = Some (Normal (e1, n1, u1))
        /\ forEach_load f rest u1 = Some (Normal (e2, rest', used'))
        /\ errs = e1 ++ e2 /\ nodes' = n1 :: rest'
  end.
Proof.
  destruct nodes as [|n rest]; simpl.
  - intros [= <- <- <-]. auto.
  - destruct (f n used) as [[[[e1 n1] u1]|?]|] eqn:Hn; [|done..].
    destruct (forEach_load f rest u1) as [[[[e2 rest'] u2]|?]|] eqn:Hrest; [|done..].
    intros [= <- <- <-]. by eexists _, _, _, _, _.
Qed.

Section First_load.

Context (R : string -> Prop) (subgraphs : option (list GraphState)).

Hypothesis templates_plain :
  forall t m, t ∈ default [] subgraphs -> m ∈ gs_nodes t ->
              plain m = true /\ forall s, ns_subgraph m = Some s -> R s.

Lemma forEach_load_Inst f nodes :
  (forall n used n' used',
      n ∈ nodes -> f n used = Some (Normal ([], n', used')) -> Inst R used n' used') ->
  forall used nodes' used',
    forEach_load f nodes used = Some (Normal ([], nodes', used')) ->
    InstList R used nodes' used'.
Proof.
  induction nodes as [|n rest IH]; intros Hf used nodes' used' Hrun;
    apply forEach_load_Normal in Hrun.
  - destruct Hrun as (_ & -> & ->). constructor.
  - destruct Hrun as (e1 & n1 & u1 & e2 & rest' & Hn & Hrest & Herr & ->).
    symmetry in Herr. apply app_eq_nil in Herr as [-> ->].
    econstructor.
    + eapply Hf; [left | exact Hn].
    + eapply IH; [|exact Hrest]. intros m u m' u' Hm. apply Hf. by right.
Qed.

Lemma recurrentSubgraphLoad_Inst fuel :
  forall n used n' used',
    plain n = true -> (forall s, ns_subgraph n = Some s -> R s) ->
    recurrentSubgraphLoad fuel subgraphs n used = Some (Normal ([], n', used')) ->
    Inst R used n' used'.
Proof.
  induction fuel as [|fuel IH]; intros n used n' used' Hplain HR; simpl; [done|].
  destruct (ns_subgraph n) as [s|] eqn:Hs.
  - destruct subgraphs as [templates|] eqn:Hsub; [|done].
    destruct (List.filter _ templates) as [|template [|]] eqn:Hfit; [done| |done].
    case_bool_decide as Hused; [done|].
    destruct (forEach_load _ _ _) as [[[[errs nodes'] u']|?]|] eqn:Hload; [|done..].
    intros [= -> <- <-].
    assert (Ht : template ∈ templates /\ gs_id template = s).
    { assert (Hin : List.In template (List.filter
                      (fun template => bool_decide (gs_id template = s)) templates))
        by (rewrite Hfit; by left).
      apply filter_In in Hin as [Hin Hid]. apply bool_decide_eq_true in Hid.
      split; [by apply list_elem_of_In | done]. }
    destruct Ht as [Ht Hid]. destruct n as [fields gs]. destruct template as [gfields gnodes].
    unfold set_graphState, set_nodes. simpl in *.
    eapply Inst_owner; [exact Hs | exact Hid | exact Hused | by apply HR |].
    eapply forEach_load_Inst; [|exact Hload].
    intros m um m' um' Hm. destruct (templates_plain _ m Ht Hm) as [Hp Hr].
    by apply IH.
  - intros [= <- <-]. destruct n as [fields [g|]]; unfold plain, ns_subgraph in *;
      simpl in *; [by rewrite Hs in Hplain|]. by constructor.
Qed.

End First_load.

Lemma referenced_app (a b : list GraphState) s :
  referenced (a ++ b) s <-> referenced a s \/ referenced b s.
Proof.
  unfold referenced. split.
  - intros (t & n & [Ht|Ht]%elem_of_app & Hn & Hs); [left | right]; eauto.
  - intros [(t & n & Ht & Hn & Hs)|(t & n & Ht & Hn & Hs)]; exists t, n;
      (split; [apply elem_of_app; auto | done]).
Qed.

Lemma referenced_singleton (t : GraphState) s :
  referenced [t] s <-> exists n, n ∈ gs_nodes t /\ ns_subgraph n = Some s.
Proof.
  unfold referenced. split.
  - intros (t' & n & ->%list_elem_of_singleton & Hn & Hs). eauto.
  - intros (n & Hn & Hs). exists t, n. split; [by apply list_elem_of_singleton | done].
Qed.

Lemma elem_of_heads (nodes : list NodeState) s :
  s ∈ omap ns_subgraph nodes <-> exists n, n ∈ nodes /\ ns_subgraph n = Some s.
Proof. apply list_elem_of_omap. Qed.

Lemma elem_of_heads_strip (nodes : list NodeState) s :
  (exists n, n ∈ map strip nodes /\ ns_subgraph n = Some s) <-> s ∈ omap ns_subgraph nodes.
Proof.
  rewrite elem_of_heads. split.
  - intros (n & (m & -> & Hm)%list_elem_of_fmap & Hs). exists m. split; [done|].
    by destruct m.
  - intros (n & Hn & Hs). exists (strip n). split.
    + apply list_elem_of_fmap. eauto.
    + by destruct n.
Qed.

Lemma saved_nil (R : string -> Prop) (used : gset string) : saved R used used [] [] [].
Proof.
  split.
  - done.
  - constructor.
  - intros id. split; [auto | intros [Hid|Hid]; [by apply elem_of_nil in Hid | done]].
  - intros id Hid. by apply elem_of_nil in Hid.
  - intros id Hid. by apply elem_of_nil in Hid.
  - intros s [Hid|(t & n & Ht & _)]; [by apply elem_of_nil in Hid | by apply elem_of_nil in Ht].
Qed.

Lemma save_then_load (R : string -> Prop) :
  (forall used n used',
      Inst R used n used' ->
      exists pushed,
        recurrentSubgraphSave n = Normal (pushed, strip n)
        /\ saved R used used' (omap ns_subgraph [n]) (subgraph_ids n) pushed
        /\ reloads_node n used used' pushed)
  /\ (forall used nodes used',
         InstList R used nodes used' ->
         exists pushed,
           forEach_save nodes = Normal (pushed, map strip nodes)
           /\ saved R used used' (omap ns_subgraph nodes) (flat_map subgraph_ids nodes) pushed
           /\ reloads_nodes nodes used used' pushed).
Proof.
  apply Inst_mutind.
  - (* a node without a subgraph *)
    intros fields used Hs. exists []. split; [|split].
    + rewrite recurrentSubgraphSave_unfold. simpl. by rewrite Hs.
    + unfold ns_subgraph. simpl. rewrite Hs. simpl. apply saved_nil.
    + intros subgraphs [|fuel] _ Hfuel; [simpl in Hfuel; lia|].
      simpl. unfold ns_subgraph. simpl. by rewrite Hs.
  - (* a node with its expanded subgraph *)
    intros fields s gfields nodes used used' Hs Hid Hused HR _
      (pc & Hsave & [Hids Hnd Hu Hfresh Hparent Hrefs] & Hreload).
    set (t0 := mkGraphState gfields (map strip nodes)).
    exists (t0 :: pc). split; [|split].
    + rewrite recurrentSubgraphSave_unfold. simpl. rewrite Hs, Hsave. done.
    + unfold ns_subgraph. simpl. rewrite Hs. simpl. split; simpl.
      * unfold gs_id at 1. simpl. by rewrite Hid, Hids.
      * rewrite Hid. constructor; [|exact Hnd].
        intros Hin. apply Hfresh in Hin as [Hin _]. set_solver.
      * intros id. rewrite Hu, Hid. rewrite elem_of_cons. set_solver.
      * rewrite Hid. intros id [->|Hin]%elem_of_cons; [done|].
        apply Hfresh in Hin as [Hin Hr]. split; [set_solver | done].
      * rewrite Hid. intros id [->|Hin]%elem_of_cons; [left; by left|].
        right. apply Hparent in Hin as [Hin|Hin].
        -- apply (referenced_app [t0] pc). left. apply referenced_singleton.
           by apply elem_of_heads_strip.
        -- apply (referenced_app [t0] pc). by right.
      * rewrite Hid. intros s' [Hin|Hin].
        -- apply list_elem_of_singleton in Hin as ->. by left.
        -- right. apply Hrefs. apply (referenced_app [t0] pc) in Hin as [Hin|Hin];
             [left | by right].
           apply referenced_singleton in Hin. by apply elem_of_heads_strip.
    + intros subgraphs [|fuel] Huniq Hfuel; [simpl in Hfuel; lia|].
      destruct (Huniq t0) as (l & -> & Hfilter); [by left|].
      simpl. unfold ns_subgraph at 1. simpl. rewrite Hs. subst s.
      replace (List.filter _ l) with [t0] by (symmetry; exact Hfilter).
      rewrite bool_decide_eq_false_2 by done.
      simpl. rewrite Hreload; [done | | simpl in Hfuel; lia].
      intros t Ht. apply Huniq. by right.
  - (* no node *)
    intros used. exists []. split; [done|]. split.
    + apply saved_nil.
    + intros subgraphs fuel _ _. done.
  - (* a node and the rest *)
    intros n rest used used1 used2 _
      (p1 & Hsave1 & [Hids1 Hnd1 Hu1 Hfresh1 Hparent1 Hrefs1] & Hreload1) _
      (p2 & Hsave2 & [Hids2 Hnd2 Hu2 Hfresh2 Hparent2 Hrefs2] & Hreload2).
    exists (p1 ++ p2). split; [|split].
    + simpl. by rewrite Hsave1, Hsave2.
    + replace (omap ns_subgraph (n :: rest))
        with (omap ns_subgraph [n] ++ omap ns_subgraph rest)
        by (symmetry; apply (omap_app _ [n] rest)).
      change (flat_map subgraph_ids (n :: rest))
        with (subgraph_ids n ++ flat_map subgraph_ids rest).
      split.
      * by rewrite map_app, Hids1, Hids2.
      * apply NoDup_app. split; [done|]. split; [|done].
        intros id Hin1 Hin2. apply Hfresh2 in Hin2 as [Hin2 _]. apply Hin2.
        apply Hu1. by left.
      * intros id. rewrite Hu2, Hu1, elem_of_app. tauto.
      * intros id [Hin|Hin]%elem_of_app; [by apply Hfresh1|].
        apply Hfresh2 in Hin as [Hin Hr]. split; [|done].
        intros Hid. apply Hin. apply Hu1. by right.
      * intros id. rewrite !elem_of_app, referenced_app.
        intros [Hin|Hin]; [apply Hparent1 in Hin | apply Hparent2 in Hin]; tauto.
      * intros s. rewrite !elem_of_app, referenced_app. intros Hin.
        destruct Hin as [[Hin|Hin]|[Hin|Hin]];
          [left; apply Hrefs1; by left | right; apply Hrefs2; by left
          |left; apply Hrefs1; by right | right; apply Hrefs2; by right].
    + intros subgraphs fuel Huniq Hfuel. simpl.
      rewrite length_app in Hfuel.
      rewrite Hreload1; [| intros t Ht; apply Huniq, elem_of_app; by left | lia].
      rewrite Hreload2; [done | intros t Ht; apply Huniq, elem_of_app; by right | lia].
Qed.



Lemma forallb_elem_of {A} (p : A -> bool) (l : list A) x :
  forallb p l = true -> x ∈ l -> p x = true.
Proof.
  intros Hall Hx. apply list_elem_of_In in Hx.
  by apply (proj1 (forallb_forall p l) Hall).
Qed.

Lemma plain_strip (n : NodeState) : ns_subgraph (strip n) = ns_subgraph n.
Proof. by destruct n. Qed.

(** ** The round trip: what was saved is what is loaded *)
Lemma Inst_weaken (R R' : string -> Prop) :
  (forall s, R s -> R' s) ->
  (forall used n used', Inst R used n used' -> Inst R' used n used')
  /\ (forall used nodes used', InstList R used nodes used' -> InstList R' used nodes used').
Proof.
  intros HR. apply Inst_mutind.
  - intros. by constructor.
  - intros fields s gfields nodes used used' Hs Hid Hused Hr _ IH.
    eapply Inst_owner; eauto.
  - constructor.
  - intros n rest used used1 used2 _ IHn _ IHrest. econstructor; eauto.
Qed.

(** The tree that [load] hands to the graph model is a loaded tree. *)
Lemma document_tree_loaded (D : Dataflow) (T entry : GraphState) :
  valid_document D = true -> document_tree D = Some (T, entry) -> loaded_tree T.
Proof.
  intros Hvalid Htree. unfold document_tree in Htree.
  destruct (resolveGraphs D) as [[errs|[root entry0]]|err] eqn:Hresolve; try done.
  destruct (instantiateRoot D root) as [[[errs|T0]|err]|] eqn:Hinst; try done.
  injection Htree as -> ->.
  unfold instantiateRoot in Hinst.
  destruct (forEach_load _ _ _) as [[[[errs nodes'] used']|?]|] eqn:Hload; [|done..].
  destruct errs; [|done]. injection Hinst as <-.
  set (templates := default [] (df_subgraphs D)) in *.
  set (R := referenced (root :: templates)).
  apply andb_true_iff in Hvalid as [Htemplates Hroot].
  fold templates in Htemplates.
  (* the root is in this document and no node refers to it *)
  assert (Hroot' : forallb plain (gs_nodes root) = true /\ ~ R (gs_id root)).
  { unfold resolveGraphs in Hresolve. destruct (df_graph D) as [graph|entryId].
    - injection Hresolve as <- <-. apply andb_true_iff in Hroot as [Hp Hu].
      split; [done|]. apply negb_true_iff, bool_decide_eq_false in Hu.
      intros Href. apply Hu. by apply elem_of_usedSubgraphs.
    - destruct (df_subgraphs D) as [l|] eqn:Hsub; [|done]. simpl in templates.
      destruct (List.find _ l) as [rootGraph|] eqn:Hfind; [|done].
      destruct (List.find _ l) as [entryGraph|] in Hresolve; [|done].
      injection Hresolve as <- <-.
      apply find_some in Hfind as [Hin Hun]. apply list_elem_of_In in Hin.
      apply negb_true_iff, bool_decide_eq_false in Hun.
      split; [exact (forallb_elem_of _ _ _ Htemplates Hin)|].
      intros (t & n & Ht & Hn & Hs). apply Hun. apply elem_of_usedSubgraphs.
      exists t, n. split; [|done].
      apply elem_of_cons in Ht as [->|Ht]; done. }
  destruct Hroot' as [Hrootplain HrootR].
  (* the tree is one [load] instantiated *)
  assert (HInst : InstList R ∅ nodes' used').
  { eapply (forEach_load_Inst R); [|exact Hload].
    intros n used n1 used1 Hn. apply (recurrentSubgraphLoad_Inst R (df_subgraphs D)).
    - intros t m Ht Hm. split.
      + eapply forallb_elem_of; [|exact Hm]. by eapply forallb_elem_of in Htemplates.
      + intros s Hs. exists t, m. split; [by right | done].
    - by eapply forallb_elem_of.
    - intros s Hs. exists root, n. split; [by left | done]. }
  exists used'. destruct root as [rfields rnodes]. simpl in *.
  assert (HR : forall s, R s -> s <> gf_id rfields) by (intros s Hs ->; by apply HrootR).
  exact (proj2 (Inst_weaken R _ HR) _ _ _ HInst).
Qed.


Section Round_trip.
Context `{Collaborators}.

(** [load] up to the call of the graph model. *)
Lemma load_body_to_graph_load (state : Dataflow) (T entry : GraphState) (e e0 : Editor)
    (g : gref) :
  unregisterGraphs e = (Normal tt, e0) ->
  document_tree state = Some (T, entry) ->
  _graph e0 = Some g ->
  load_body state e
  = (do r <-
       try_catch
         (do errors <- graph_load T g in
          ret (inr (hooks_load_execute state, errors)))
         (fun err =>
            run cleanEditor true in
            run modify (set_readonly (readonly e)) in
            ret (inl [err])) in
     match r with
     | inl errors => ret errors
     | inr (state', errors) => load_finish state' entry (readonly e) errors
     end) (set_readonly true e0).
Proof.
  intros Hu Htree Hg. unfold load_body.
  rewrite (bind_run _ _ e tt e0) by done.
  rewrite (bind_run _ _ e0 e0 e0) by done.
  rewrite (bind_run _ _ e0 tt (set_readonly true e0)) by done.
  destruct (unregisterGraphs_keeps _ _ _ Hu) as (_ & _ & _ & Hro & Hpre).
  assert (Hreadonly : readonly e0 = readonly e) by (unfold readonly; by rewrite Hro, Hpre).
  rewrite Hreadonly. unfold document_tree in Htree.
  destruct (resolveGraphs state) as [[errs|[root entry0]]|err]; try done.
  destruct (instantiateRoot state root) as [[[errs|T0]|err]|]; try done.
  injection Htree as -> ->.
  unfold bind at 1 3. unfold try_catch.
  unfold bind at 1. unfold get at 1. unfold bind at 1. simpl. rewrite Hg. simpl.
  done.
Qed.


End Round_trip.

(** The document with one subgraph, saved from inside the subgraph. *)
Lemma save_document_forms_witness :
  exists e1 g1,
    forEach (subgraphStack nested_editor)
      (fun _ => @backFromSubgraph SpecModel.collaborators) nested_editor = (Normal tt, e1)
    /\ _graph e1 = Some g1
    /\ ((Forall (fun n => ns_subgraph n = None)
           (gs_nodes (@graph_save SpecModel.collaborators e1 g1))
         /\ single_form nested_saved.1)
        \/ (Exists (fun n => ns_subgraph n <> None)
              (gs_nodes (@graph_save SpecModel.collaborators e1 g1))
            /\ multi_form "inner" nested_saved.1)).
Proof.
  apply (@save_document_forms SpecModel.collaborators nested_editor nested_saved.2
           nested_saved.1 1
           (mkGraph "inner" (Some "inner") [0] [] [] [] None None [])).
  - vm_compute. reflexivity.
  - vm_compute. reflexivity.
  - vm_compute. reflexivity.
Defined.

(** The same editor: one frame on the stack before and after [save]. *)
Lemma save_restores_navigation_witness :
  subgraphStack nested_editor = [("outer", 1)]
  /\ _graph nested_saved.2 = _graph nested_editor
  /\ subgraphStack nested_saved.2 = subgraphStack nested_editor.
Proof.
  split; [vm_compute; reflexivity|].
  apply (@save_restores_navigation SpecModel.collaborators nested_editor nested_saved.2
           nested_saved.1).
  - split; vm_compute; [exact Logic.I | reflexivity].
  - vm_compute. reflexivity.
Defined.

(** Claim C6 fails for a stack that does not lead to the graph shown. The
    innermost graph of the document nested twice is shown with one frame on
    the stack, the frame of the outermost graph node: [save] returns, and
    the graph shown is then the middle one. *)
Lemma save_moves_from_popped_stack :
  (exists state, (@save SpecModel.collaborators popped_editor).1 = Normal state)
  /\ subgraphStack popped_editor = [("outer", 2)]
  /\ (graph_id <$> (_graph popped_editor ≫= (graphStore popped_editor !!.))) = Some "inner"
  /\ (let e' := (@save SpecModel.collaborators popped_editor).2 in
      graph_id <$> (_graph e' ≫= (graphStore e' !!.))) = Some "middle".
Proof.
  split; [eexists; vm_compute; reflexivity|]. repeat split; vm_compute; reflexivity.
Qed.

(** Claim C8 fails on the pass-through subgraph: inlining the node between
    [A] and [C] leaves the parent graph with the nodes [A] and [C] and no
    connection between them. *)
Lemma unwrapSubgraph_passthrough_disconnects :
  (unwrapped false).1 = Normal tt
  /\ graph_connections <$> graphStore (unwrapped false).2 !! 0 = Some []
  /\ graph_nodes <$> graphStore (unwrapped false).2 !! 0 = Some [0; 2].
Proof. repeat split; vm_compute; reflexivity. Qed.

(** The pass-through subgraph satisfies the hypotheses. *)
Lemma unwrapSubgraph_reconnects_witness :
  exists e' G',
    unwrapped false = (Normal tt, e')
    /\ nodeStore e' = nodeStore (passthrough false)
    /\ _graphTemplates e' = _graphTemplates (passthrough false)
    /\ graphStore e' !! 0 = Some G'
    /\ graph_nodes G' = [0; 2]
    /\ (1 ∉ graph_nodes G')
    /\ graph_connections G' = [].
Proof.
  destruct (@unwrapSubgraph_reconnects SpecModel.collaborators (passthrough false) 1
            (mkNode "N" "Group" (Some (mkVec2 (js_int 10) (js_int 4)))
               [("n_in", port "N" "n_in" (Some "bi"))]
               [("n_out", port "N" "n_out" (Some "bo"))] (Some 1))
            0 1
            (mkGraph "root" None [0; 1; 2]
               [mkConnection (port "A" "a_out" None) (port "N" "n_in" (Some "bi"));
                mkConnection (port "N" "n_out" (Some "bo")) (port "C" "c_in" None)]
               [] [] None None [])
            (mkGraph "sub" None [3; 4]
               [mkConnection (port "BI" "bi" None) (port "BO" "bo" None)]
               [] [] None None [])
            eq_refl eq_refl eq_refl eq_refl eq_refl) as [_ Hmarkers].
  match type of Hmarkers with
  | _ -> _ -> _ -> _ -> _ -> match ?m with Normal _ => _ | Throw _ => _ end =>
      destruct m as [m0|err] eqn:Hm; [|vm_compute in Hm; discriminate Hm]
  end.
  apply Hmarkers.
  - discriminate.
  - apply Forall_forall. apply (bool_decide_unpack _). vm_compute. exact Logic.I.
  - apply (bool_decide_unpack _). vm_compute. exact Logic.I.
  - apply (bool_decide_unpack _). vm_compute. exact Logic.I.
  - intros r M Hin. revert r M Hin.
    assert (Hall : Forall
              (fun rn : nref * Node =>
                 rn.1 <> 1 ->
                 node_id rn.2 <> "N"
                 /\ Forall (fun c => node_id rn.2 <> intf_nodeId (conn_from c)
                                     /\ node_id rn.2 <> intf_nodeId (conn_to c))
                      [mkConnection (port "BI" "bi" None) (port "BO" "bo" None)])
              (node_objects (passthrough false)
                 (mkGraph "root" None [0; 1; 2]
                    [mkConnection (port "A" "a_out" None) (port "N" "n_in" (Some "bi"));
                     mkConnection (port "N" "n_out" (Some "bo")) (port "C" "c_in" None)]
                    [] [] None None []))).
    { apply (bool_decide_unpack _). vm_compute. exact Logic.I. }
    intros r M Hin Hne. rewrite Forall_forall in Hall.
    destruct (Hall _ Hin Hne) as [HidN Hc]. split; [exact HidN|].
    intros c Hcin. rewrite Forall_forall in Hc. exact (Hc c Hcin).
Defined.

(** With an ordinary node between the markers the two outer connections are
    led to that node: [A] -> [F] -> [C]. *)
Example unwrapSubgraph_filter_reconnects :
  (@unwrapSubgraph SpecModel.collaborators 1 filtered).1 = Normal tt
  /\ (fun G => map (fun c => (intf_id (conn_from c), intf_id (conn_to c)))
                  (graph_connections G))
       <$> graphStore (@unwrapSubgraph SpecModel.collaborators 1 filtered).2 !! 0
     = Some [("a_out", "f_in"); ("f_out", "c_in")].
Proof. split; vm_compute; reflexivity. Qed.

(** An interface of the graph node with the id [size]: the assignment to
    [subgraphNodeToNode] throws and nothing is inlined. *)
Example unwrapSubgraph_size_throws :
  @unwrapSubgraph SpecModel.collaborators 1 sized
  = (Throw "TypeError: Cannot set property size of #<Map> which has only a getter", sized).
Proof. vm_compute. reflexivity. Qed.

(** C10: a subgraph with one ordinary node, which is put where the graph
    node was. *)
Lemma unwrapSubgraph_centroid_witness :
  length (@subgraphNodes SpecModel.collaborators (passthrough true)
            (mkGraph "sub" None [3; 4; 5]
               [mkConnection (port "BI" "bi" None) (port "BO" "bo" None)]
               [] [] None None [])) <> 0
  /\ exists N', nodeStore (unwrapped true).2 !! 5 = Some N'
                /\ node_position N' = Some (mkVec2 (js_int 10) (js_int 4)).
Proof.
  destruct (@unwrapSubgraph_centroid SpecModel.collaborators (passthrough true) 1
              (mkNode "N" "Group" (Some (mkVec2 (js_int 10) (js_int 4)))
                 [("n_in", port "N" "n_in" (Some "bi"))]
                 [("n_out", port "N" "n_out" (Some "bo"))] (Some 1))
              1
              (mkGraph "sub" None [3; 4; 5]
                 [mkConnection (port "BI" "bi" None) (port "BO" "bo" None)]
                 [] [] None None [])
              eq_refl eq_refl eq_refl) as [Hsome _].
  destruct Hsome as [Hlen Hpos].
  - exists (5, mkNode "F" "Filter" (Some (mkVec2 (js_int 2) (js_int 6))) [] [] None).
    split.
    + apply elem_of_node_objects. split; [|reflexivity].
      apply (bool_decide_unpack _). vm_compute. exact Logic.I.
    + apply (bool_decide_unpack _). vm_compute. exact Logic.I.
  - split; [exact Hlen|].
    destruct (Hpos ltac:(apply (bool_decide_unpack _); vm_compute; exact Logic.I)
                ltac:(apply (bool_decide_unpack _); vm_compute; exact Logic.I)
                tt (unwrapped true).2 ltac:(vm_compute; reflexivity)
                5 (mkNode "F" "Filter" (Some (mkVec2 (js_int 2) (js_int 6))) [] [] None)
                ltac:(apply elem_of_subgraphNodes; split;
                      [apply elem_of_node_objects; split; [|reflexivity]|];
                      apply (bool_decide_unpack _); vm_compute; exact Logic.I))
      as (N' & HN' & p & Hp & Hmoved).
    exists N'. split; [exact HN'|].
    injection Hp as <-. destruct Hmoved as (pN & HpN & ->).
    injection HpN as <-. vm_compute. reflexivity.
Defined.

(** Claim C10 fails where it says finite: all positions are finite numbers,
    and the node copied out of the subgraph ends at [x = -Infinity]. *)
Lemma unwrapSubgraph_position_overflows :
  map_Forall (fun _ N => finite_position N = true) (nodeStore far_apart)
  /\ (@unwrapSubgraph SpecModel.collaborators 1 far_apart).1 = Normal tt
  /\ node_position
       <$> nodeStore (@unwrapSubgraph SpecModel.collaborators 1 far_apart).2 !! 5
     = Some (Some (mkVec2 (S754_infinity true) (js_int 4))).
Proof.
  split; [|split; vm_compute; reflexivity].
  apply map_Forall_to_list. apply (bool_decide_unpack _). vm_compute. exact Logic.I.
Qed.

(** Claim C7 fails for a graph node whose interface names a boundary marker
    that its subgraph does not hold: entering and leaving removes the
    interface. *)
Lemma enter_leave_drops_stale_interface :
  exists e',
    enter_and_leave 0 stale_editor = (Normal tt, e')
    /\ obj_keys <$> (node_inputs <$> nodeStore stale_editor !! 0) = Some ["data"]
    /\ obj_keys <$> (node_inputs <$> nodeStore e' !! 0) = Some [].
Proof.
  eexists. split; [vm_compute; reflexivity|]. split; vm_compute; reflexivity.
Qed.

(** A graph node in agreement with the marker of its subgraph. *)
Lemma enter_leave_keeps_interfaces_witness :
  exists N2,
    nodeStore
      (backFromSubgraph (H := SpecModel.collaborators)
         (switchToSubgraph (H := SpecModel.collaborators) 0 synced_editor).2).2 !! 0
    = Some N2
    /\ obj_keys (node_inputs N2) = obj_keys (node_inputs owner_node)
    /\ obj_keys (node_outputs N2) = obj_keys (node_outputs owner_node)
    /\ (settled_side [("x", mkGraphInterface "x" "data" (Some "x") "left" (Some 0))]
          (node_inputs owner_node) -> node_inputs N2 = node_inputs owner_node)
    /\ (settled_side [] (node_outputs owner_node) ->
        node_outputs N2 = node_outputs owner_node).
Proof.
  apply (enter_leave_keeps_interfaces (H := SpecModel.collaborators) 0 owner_node
           synced_editor
           (switchToSubgraph (H := SpecModel.collaborators) 0 synced_editor).2
           (backFromSubgraph (H := SpecModel.collaborators)
              (switchToSubgraph (H := SpecModel.collaborators) 0 synced_editor).2).2
           (boundaryInterfaces (H := SpecModel.collaborators)
              (suppressHistoryLogging true
                 (set_subgraphStack (subgraphStack synced_editor)
                    (switchToSubgraph (H := SpecModel.collaborators) 0 synced_editor).2))).2).
  - vm_compute. reflexivity.
  - intros e0 w Hw. simpl in Hw. by apply elem_of_nil in Hw.
  - vm_compute. reflexivity.
  - vm_compute. reflexivity.
  - vm_compute. reflexivity.
  - vm_compute. reflexivity.
  - vm_compute. reflexivity.
Defined.

(** Entering the subgraph of the graph node from the root. *)
Lemma switchToSubgraph_consistent_witness :
  navigation_consistent (switchToSubgraph (H := SpecModel.collaborators) 0 synced_editor).2.
Proof.
  apply (switchToSubgraph_consistent (H := SpecModel.collaborators) 0 synced_editor tt).
  - split; exact Logic.I.
  - vm_compute. reflexivity.
Defined.




(** The same round trip run in the model of the graph library: the editor
    loaded from the saved document holds the tree of the first load, shows
    the graph with the same id and has a stack of the same graph ids. *)
Example load_save_load_in_model :
  (@load SpecModel.collaborators nested_saved.1 nested_saved.2).1 = Resolved []
  /\ @graph_save SpecModel.collaborators reloaded 1
      = @graph_save SpecModel.collaborators nested_editor 0
  /\ graph_id <$> (_graph reloaded ≫= (graphStore reloaded !!.))
      = graph_id <$> (_graph nested_editor ≫= (graphStore nested_editor !!.))
  /\ map fst (subgraphStack reloaded) = map fst (subgraphStack nested_editor).
Proof. repeat split; vm_compute; reflexivity. Qed.

(* ===================================================================== *)
(** * 13. Further properties of the code                                  *)
(* ===================================================================== *)

(** Every node of the list is live: the form in which the examples check it. *)
Lemma all_live (e : Editor) (l : list nref) :
  forallb (fun r => bool_decide (is_Some (nodeStore e !! r))) l = true ->
  forall r, r ∈ l -> is_Some (nodeStore e !! r).
Proof.
  intros Hall r Hr. apply (forallb_elem_of _ _ _ Hall) in Hr.
  by apply bool_decide_eq_true in Hr.
Qed.

(** ** Cleaning the editor *)

Lemma put_id g G e : graphStore e !! g = Some G -> put g G e = e.
Proof. intros HG. unfold put. rewrite insert_id by done. by destruct e. Qed.

Lemma put_put g G G' e : put g G' (put g G e) = put g G' e.
Proof. unfold put. simpl. by rewrite insert_insert_eq. Qed.

Lemma put_lookup g G e : graphStore (put g G e) !! g = Some G.
Proof. apply lookup_insert_eq. Qed.

Lemma reverse_seq_S n : reverse (seq 0 (S n)) = n :: reverse (seq 0 n).
Proof. by rewrite seq_S, reverse_snoc. Qed.

Lemma length_remove_first n l : n ∈ l -> length (remove_first n l) = pred (length l).
Proof.
  induction l as [|x l IH]; simpl; intros Hn; [by apply elem_of_nil in Hn|].
  case_bool_decide as Hx; [done|].
  apply elem_of_cons in Hn as [->|Hn]; [done|].
  simpl. rewrite IH by done. destruct l; [by apply elem_of_nil in Hn | done].
Qed.

Section Clean.
Context `{Collaborators}.

(** The loop of [cleanEditor] over the connections, last to first. *)
Lemma remove_connections_loop g n :
  forall G e,
    graphStore e !! g = Some G -> length (graph_connections G) = n ->
    forEach (reverse (seq 0 n)) (fun i => removeConnection g i) e
    = (Normal tt, put g (with_connections [] G) e).
Proof.
  induction n as [|n IH]; intros G e HG Hlen.
  - simpl. unfold ret. f_equal. symmetry. apply put_id.
    apply nil_length_inv in Hlen. rewrite HG. f_equal. destruct G. simpl in *. by subst.
  - rewrite reverse_seq_S. simpl.
    rewrite (bind_run _ _ e tt (put g (with_connections (delete n (graph_connections G)) G) e)).
    2: { unfold removeConnection.
         by rewrite (bind_run _ _ e (g, G) e) by (by apply the_graph_run). }
    rewrite (IH (with_connections (delete n (graph_connections G)) G)).
    + by rewrite put_put.
    + apply put_lookup.
    + simpl. rewrite length_delete; [lia|]. apply lookup_lt_is_Some. lia.
Qed.

(** The loop over the nodes. *)
Lemma remove_nodes_loop g n :
  forall G e,
    graphStore e !! g = Some G -> length (graph_nodes G) = n ->
    graph_connections G = [] ->
    (forall r, r ∈ graph_nodes G -> is_Some (nodeStore e !! r)) ->
    forEach (reverse (seq 0 n))
      (fun i =>
         do '(_, G') <- the_graph "nodes" (Some g) in
         match graph_nodes G' !! i with
         | Some r => removeNode g r
         | None => ret tt
         end) e
    = (Normal tt, put g (with_nodes [] G) e).
Proof.
  induction n as [|n IH]; intros G e HG Hlen Hconns Halive.
  - simpl. unfold ret. f_equal. symmetry. apply put_id.
    apply nil_length_inv in Hlen. rewrite HG. f_equal. destruct G. simpl in *. by subst.
  - rewrite reverse_seq_S. simpl.
    destruct (lookup_lt_is_Some_2 (graph_nodes G) n) as [r Hr]; [lia|].
    assert (Hin : r ∈ graph_nodes G) by (by eapply list_elem_of_lookup_2).
    destruct (Halive r Hin) as [N HN].
    set (G1 := with_nodes (remove_first r (graph_nodes G)) G).
    rewrite (bind_run _ _ e tt (put g G1 e)).
    2: { rewrite (bind_run _ _ e (g, G) e) by (by apply the_graph_run).
         rewrite Hr. unfold removeNode.
         rewrite (bind_run _ _ e (g, G) e) by (by apply the_graph_run).
         rewrite bool_decide_eq_true_2 by done.
         rewrite (bind_run _ _ e N e) by (by apply the_node_run).
         rewrite Hconns. simpl. unfold write_graph, modify, put. do 3 f_equal.
         subst G1. destruct G. simpl in *. by subst. }
    rewrite (IH G1).
    + by rewrite put_put.
    + apply put_lookup.
    + subst G1. simpl. rewrite length_remove_first by done. lia.
    + done.
    + subst G1. simpl. intros x Hx. apply Halive. by eapply elem_of_remove_first_sub.
Qed.

Lemma cleanEditor_run (suppressHistory : bool) (e : Editor) (g : gref) (G : Graph) :
  _graph e = Some g -> graphStore e !! g = Some G ->
  (forall r, r ∈ graph_nodes G -> is_Some (nodeStore e !! r)) ->
  cleanEditor suppressHistory e = (Normal tt, cleaned g G e).
Proof.
  intros Hg HG Halive. unfold cleanEditor.
  rewrite (bind_run _ _ e e e) by done. rewrite Hg.
  rewrite (bind_run _ _ e (g, G) e) by (by apply the_graph_run).
  set (e1 := suppressHistoryLogging suppressHistory e).
  rewrite (bind_run _ _ e tt e1) by done.
  rewrite (bind_run _ _ _ tt _ (remove_connections_loop g _ G e1 HG eq_refl)).
  rewrite (bind_run _ _ _ tt _
             (remove_nodes_loop g (length (graph_nodes G)) (with_connections [] G)
                (put g (with_connections [] G) e1) (put_lookup _ _ _)
                eq_refl eq_refl Halive)).
  unfold modify, cleaned. f_equal. rewrite put_put. by destruct e.
Qed.


End Clean.


(** ** Leaving every subgraph before cleaning *)

Section DeepClean.
Context `{Collaborators}.

Lemma removeConnection_stack g i e u e' :
  removeConnection g i e = (Normal u, e') -> subgraphStack e' = subgraphStack e.
Proof. unfold removeConnection. intros Hrun. by inv_all. Qed.

Lemma removeNode_stack g n e u e' :
  removeNode g n e = (Normal u, e') -> subgraphStack e' = subgraphStack e.
Proof. unfold removeNode. intros Hrun. inv_M. destruct (bool_decide _); by inv_all. Qed.

Lemma forEach_stack {A} (l : list A) (f : A -> M unit) e u e' :
  (forall a e u e', f a e = (Normal u, e') -> subgraphStack e' = subgraphStack e) ->
  forEach l f e = (Normal u, e') -> subgraphStack e' = subgraphStack e.
Proof.
  intros Hf Hrun.
  eapply (forEach_preserves (fun e e' => subgraphStack e' = subgraphStack e) l f);
    [done | intros ? ? ? H12 H23; by rewrite H23 | | exact Hrun].
  intros a ex ux ey _. apply Hf.
Qed.

Lemma cleanEditor_stack b e u e' :
  cleanEditor b e = (Normal u, e') -> subgraphStack e' = subgraphStack e.
Proof.
  unfold cleanEditor. intros Hrun. inv_M.
  match goal with
  | H1 : forEach _ (fun i => removeConnection _ i) _ = _, H2 : forEach _ _ _ = (_, ?e3) |- _ =>
      apply forEach_stack in H1; [|intros ? ? ? ?; apply removeConnection_stack];
      apply forEach_stack in H2
  end.
  - simpl in *. congruence.
  - intros i ex ux ey Hstep. inv_M. destruct (graph_nodes _ !! i); [|by inv_M].
    by eapply removeNode_stack.
Qed.

(** The loop of [deepCleanEditor]: the index goes up while the stack goes
    down, so they meet in the middle. *)
Lemma deepClean_loop_stack rounds :
  forall i e u e',
    i <= S (length (subgraphStack e)) -> length (subgraphStack e) <= i + rounds ->
    deepClean_loop i rounds e = (Normal u, e') ->
    subgraphStack e' = take ((i + length (subgraphStack e)) / 2) (subgraphStack e).
Proof.
  assert (Hstop : forall i (e : Editor),
            i <= S (length (subgraphStack e)) -> length (subgraphStack e) <= i ->
            subgraphStack e = take ((i + length (subgraphStack e)) / 2) (subgraphStack e)).
  { intros i e Hi Hle. rewrite take_ge; [done|].
    apply Nat.div_le_lower_bound; lia. }
  induction rounds as [|rounds IH]; intros i e u e' Hi Hrounds Hrun; simpl in Hrun.
  - inv_M. apply Hstop; lia.
  - inv_M. case_bool_decide as Hlt; [|inv_M; apply Hstop; lia].
    inv_M.
    match goal with Hb : backFromSubgraph _ = _ |- _ =>
      apply backFromSubgraph_spec in Hb
        as (gid & n & rest & newGraph & Hst & Hst1 & _) end.
    rewrite Hst, length_app in *. cbn [length] in *.
    apply IH in Hrun; [|rewrite Hst1; lia..].
    rewrite Hrun, Hst1.
    replace (S i + length rest) with (i + (length rest + 1)) by lia.
    rewrite take_app_le; [done|].
    assert ((i + (length rest + 1)) / 2 < S (length rest))
      by (apply Nat.div_lt_upper_bound; lia).
    lia.
Qed.

(** [deepCleanEditor] walks the navigation stack with [forEach] while
    [backFromSubgraph] pops it: when it returns, the lower half of the
    stack (rounded down) is still there, so from a depth of two or more the
    editor is still inside a subgraph; the graph name is cleared. *)
Theorem deepCleanEditor_leaves_half (suppressHistory : bool) (e e' : Editor) (u : unit) :
  deepCleanEditor suppressHistory e = (Normal u, e') ->
  subgraphStack e' = take (length (subgraphStack e) / 2) (subgraphStack e)
  /\ graphName e' = None
  /\ (2 <= length (subgraphStack e) -> isInSubgraph e' = true).
Proof.
  unfold deepCleanEditor. intros Hrun. inv_M.
  rename select (deepClean_loop _ _ _ = _) into Hl.
  rename select (cleanEditor _ _ = _) into Hc.
  apply deepClean_loop_stack in Hl.
  2: lia. 2: lia.
  apply cleanEditor_stack in Hc.
  assert (Hst : subgraphStack (set_graphName None e2)
                = take (length (subgraphStack e) / 2) (subgraphStack e)).
  { simpl. rewrite Hc, Hl. done. }
  split; [exact Hst|]. split; [done|].
  intros Hdepth. unfold isInSubgraph. rewrite Hst.
  apply negb_true_iff, bool_decide_eq_false. rewrite length_take.
  assert (1 <= length (subgraphStack e) / 2) by (apply Nat.div_le_lower_bound; lia).
  lia.
Qed.

End DeepClean.

Lemma deepCleanEditor_leaves_half_witness :
  subgraphStack (@deepCleanEditor SpecModel.collaborators true deep_editor).2
  = take (length (subgraphStack deep_editor) / 2) (subgraphStack deep_editor)
  /\ graphName (@deepCleanEditor SpecModel.collaborators true deep_editor).2 = None
  /\ (2 <= length (subgraphStack deep_editor) ->
      isInSubgraph (@deepCleanEditor SpecModel.collaborators true deep_editor).2 = true).
Proof.
  apply (deepCleanEditor_leaves_half (H := SpecModel.collaborators) true deep_editor _ tt).
  vm_compute. reflexivity.
Defined.

(** ** The registry of node types and the templates *)

Section Registry_facts.
Context `{Collaborators}.

(** [unregisterNodes] empties the registry of node types and changes
    nothing else. *)
Theorem unregisterNodes_empties (e : Editor) :
  unregisterNodes e = (Normal tt, set__nodeTypes ∅ e).
Proof.
  unfold unregisterNodes. rewrite (bind_run _ _ e e e) by done.
  destruct (forEach_returns (fun _ => True) (map fst (map_to_list (_nodeTypes e)))
              unregisterNodeType) with (e := e) as (e' & Hrun & _); [|done|].
  { intros k e0 _. by eexists. }
  rewrite Hrun. f_equal. apply unregister_all in Hrun.
  by rewrite Hrun, delete_all_keys.
Qed.

(** Registering a node type that is not in the registry and unregistering
    it again gives back the editor as it was; in between the type is found
    under the [type] of its instance, with the defaults for the options
    left out. *)
Theorem register_unregister (type : NodeClass) (options : option RegisterOptions)
    (e : Editor) :
  beforeRegisterNodeType_prevented type = false ->
  _nodeTypes e !! nc_type type = None ->
  (exists e1,
      registerNodeType type options e = (Normal tt, e1)
      /\ _nodeTypes e1 !! nc_type type
         = Some (mkNodeTypeInformation type
                   (default "default" (options ≫= opt_category))
                   (default (nc_title type) (options ≫= opt_title))
                   (default false (options ≫= opt_isCategory)))
      /\ unregisterNodeType (nc_type type) e1 = (Normal tt, e)).
Proof.
  intros Hprev Hnew. unfold registerNodeType. rewrite Hprev.
  eexists. split; [reflexivity|]. split.
  - simpl. apply lookup_insert_eq.
  - unfold unregisterNodeType, modify. f_equal. simpl.
    rewrite delete_insert_eq, delete_id by done. by destruct e.
Qed.

(** [addGraphTemplate] keeps the templates registered: no template id is
    listed twice and every template has its graph node type, as long as the
    registration of the graph node type is not vetoed. *)
Theorem addGraphTemplate_registered (template : GraphState) (category : string)
    (nodeClass : NodeClass) (e e' : Editor) (u : unit) :
  nc_type nodeClass = GRAPH_NODE_TYPE_PREFIX +:+ gs_id template ->
  beforeRegisterNodeType_prevented nodeClass = false ->
  templates_registered e ->
  addGraphTemplate template category nodeClass e = (Normal u, e') ->
  templates_registered e'.
Proof.
  intros Htype Hprev [Hnd Hreg]. destruct u. unfold addGraphTemplate.
  destruct (beforeAddGraphTemplate_prevented template);
    [unfold ret; intros [= <-]; split; assumption|].
  rewrite (bind_run _ _ e e e) by done.
  case_bool_decide as Hkey; [unfold ret; intros [= <-]; split; assumption|].
  unfold registerNodeType. rewrite Hprev. unfold bind, modify. simpl. intros [= <-].
  split; simpl.
  - rewrite map_app. apply NoDup_app. split; [done|]. split; [|apply NoDup_singleton].
    intros id Hid ->%list_elem_of_singleton.
    apply list_elem_of_fmap in Hid as (t & Hid & Ht). apply Hkey.
    rewrite Hid. by apply Hreg.
  - intros t [Ht|Ht]%elem_of_app.
    + destruct (decide (GRAPH_NODE_TYPE_PREFIX +:+ gs_id t = nc_type nodeClass)) as [->|Hne].
      * rewrite lookup_insert_eq. by eexists.
      * rewrite lookup_insert_ne by done. by apply Hreg.
    + apply list_elem_of_singleton in Ht as ->. rewrite Htype, lookup_insert_eq. by eexists.
Qed.

(** Adding the same template a second time changes nothing. *)
Theorem addGraphTemplate_twice (template : GraphState) (category : string)
    (nodeClass : NodeClass) (e : Editor) :
  nc_type nodeClass = GRAPH_NODE_TYPE_PREFIX +:+ gs_id template ->
  beforeRegisterNodeType_prevented nodeClass = false ->
  (run addGraphTemplate template category nodeClass in
   addGraphTemplate template category nodeClass) e
  = addGraphTemplate template category nodeClass e.
Proof.
  intros Htype Hprev.
  assert (Hnoop : forall e0,
            beforeAddGraphTemplate_prevented template = true
            \/ is_Some (_nodeTypes e0 !! (GRAPH_NODE_TYPE_PREFIX +:+ gs_id template)) ->
            addGraphTemplate template category nodeClass e0 = (Normal tt, e0)).
  { intros e0 Hcase. unfold addGraphTemplate.
    destruct (beforeAddGraphTemplate_prevented template); [done|].
    destruct Hcase as [?|Hkey]; [done|].
    rewrite (bind_run _ _ e0 e0 e0) by done. by rewrite bool_decide_eq_true_2. }
  destruct (beforeAddGraphTemplate_prevented template) eqn:Hveto.
  { rewrite (bind_run _ _ e tt e) by (apply Hnoop; by left). done. }
  destruct (decide (is_Some (_nodeTypes e !! (GRAPH_NODE_TYPE_PREFIX +:+ gs_id template))))
    as [Hkey|Hkey].
  { rewrite (bind_run _ _ e tt e) by (apply Hnoop; by right). done. }
  assert (Hfirst : exists e1,
             addGraphTemplate template category nodeClass e = (Normal tt, e1)
             /\ is_Some (_nodeTypes e1 !! (GRAPH_NODE_TYPE_PREFIX +:+ gs_id template))).
  { unfold addGraphTemplate. rewrite Hveto.
    rewrite (bind_run _ _ e e e) by done. rewrite bool_decide_eq_false_2 by done.
    unfold registerNodeType. rewrite Hprev. unfold bind, modify. simpl.
    eexists. split; [reflexivity|]. simpl. rewrite Htype, lookup_insert_eq. by eexists. }
  destruct Hfirst as (e1 & Hrun & Hkey1).
  rewrite (bind_run _ _ e tt e1) by done. rewrite Hrun. apply Hnoop. by right.
Qed.

End Registry_facts.

Lemma register_unregister_witness :
  exists e1,
    @registerNodeType SpecModel.collaborators (mkNodeClass "Source" "Source") None
      SpecModel.new_editor = (Normal tt, e1)
    /\ _nodeTypes e1 !! "Source"
       = Some (mkNodeTypeInformation (mkNodeClass "Source" "Source") "default" "Source" false)
    /\ unregisterNodeType "Source" e1 = (Normal tt, SpecModel.new_editor).
Proof.
  apply (register_unregister (H := SpecModel.collaborators) (mkNodeClass "Source" "Source")
           None SpecModel.new_editor); reflexivity.
Defined.

Lemma addGraphTemplate_registered_witness :
  templates_registered
    (@addGraphTemplate SpecModel.collaborators a_template "Subgraphs"
       (mkNodeClass (GRAPH_NODE_TYPE_PREFIX +:+ "t") "Template") SpecModel.new_editor).2.
Proof.
  apply (addGraphTemplate_registered (H := SpecModel.collaborators) a_template "Subgraphs"
           (mkNodeClass (GRAPH_NODE_TYPE_PREFIX +:+ "t") "Template") SpecModel.new_editor _ tt).
  - reflexivity.
  - reflexivity.
  - split; [constructor|]. intros t Ht. by apply elem_of_nil in Ht.
  - vm_compute. reflexivity.
Defined.

Lemma addGraphTemplate_twice_witness :
  (run @addGraphTemplate SpecModel.collaborators a_template "Subgraphs"
         (mkNodeClass (GRAPH_NODE_TYPE_PREFIX +:+ "t") "Template") in
   @addGraphTemplate SpecModel.collaborators a_template "Subgraphs"
     (mkNodeClass (GRAPH_NODE_TYPE_PREFIX +:+ "t") "Template")) SpecModel.new_editor
  = @addGraphTemplate SpecModel.collaborators a_template "Subgraphs"
      (mkNodeClass (GRAPH_NODE_TYPE_PREFIX +:+ "t") "Template") SpecModel.new_editor.
Proof.
  apply (addGraphTemplate_twice (H := SpecModel.collaborators)); reflexivity.
Defined.

(** ** Navigation there and back *)

Section Navigation_round_trip.
Context `{Collaborators}.

(** Entering a subgraph and leaving it restores the navigation stack and
    shows a graph with the id of the graph left; when no other graph of the
    store has that id, it is the graph left. *)
Theorem enter_leave_returns (n : nref) (e e1 e2 : Editor) (u1 u2 : unit)
    (g : gref) (G : Graph) :
  _graph e = Some g -> graphStore e !! g = Some G ->
  switchToSubgraph n e = (Normal u1, e1) ->
  backFromSubgraph e1 = (Normal u2, e2) ->
  subgraphStack e2 = subgraphStack e
  /\ (exists g2, _graph e2 = Some g2 /\ id_of e2 g2 = Some (graph_id G))
  /\ ((forall g', id_of e g' = Some (graph_id G) -> g' = g) -> _graph e2 = Some g).
Proof.
  intros Hg HG Henter Hleave.
  apply switchToSubgraph_spec in Henter
    as (g0 & G0 & N & sg & Hg0 & HG0 & _ & _ & _ & _ & Hst1 & Hk1).
  rewrite Hg in Hg0. injection Hg0 as <-. rewrite HG in HG0. injection HG0 as <-.
  apply backFromSubgraph_spec in Hleave
    as (gid & m & rest & g2 & Hst & Hst2 & Hg2 & Hid & Hk2).
  rewrite Hst1 in Hst. apply app_inj_tail in Hst as [Hrest [= Hgid Hm]]. subst rest gid m.
  assert (Hid0 : id_of e g2 = Some (graph_id G)).
  { unfold id_of. by rewrite <- (skeleton_ids _ _ Hk1). }
  split; [done|]. split.
  - exists g2. split; [done|]. by rewrite (skeleton_id_of e1 e2 g2 Hk2), (skeleton_id_of e e1 g2 Hk1).
  - intros Huniq. by rewrite Hg2, (Huniq g2 Hid0).
Qed.

End Navigation_round_trip.

(** ** Looking up an interface *)

Section FindInterface.
Context `{Collaborators}.

(** [findInterface] changes nothing. What it finds is an interface of the
    first node of the active graph with the given id, and has the id asked
    for or, when no interface of that node has it, the [subgraphNodeId]
    asked for; an interface with the id asked for is always found. *)
Theorem findInterface_sound (nodeId intfId : string) (subgraphNodeId : option string)
    (e e' : Editor) (found : option NodeInterface) :
  findInterface nodeId intfId subgraphNodeId e = (Normal found, e') ->
  e' = e
  /\ exists g G, _graph e = Some g /\ graphStore e !! g = Some G
     /\ match List.find (fun rn => bool_decide (node_id rn.2 = nodeId)) (node_objects e G) with
        | None => found = None
        | Some (_, N) =>
            let all := obj_values (node_inputs N) ++ obj_values (node_outputs N) in
            (forall i, found = Some i ->
               i ∈ all
               /\ (intf_id i = intfId
                   \/ (Forall (fun j => intf_id j <> intfId) all
                       /\ exists s, subgraphNodeId = Some s /\ s <> ""
                                    /\ intf_subgraphNodeId i = Some s)))
            /\ (forall j, j ∈ all -> intf_id j = intfId ->
                  exists i, found = Some i /\ intf_id i = intfId)
        end.
Proof.
  intros Hrun. split; [by eapply findInterface_same|].
  unfold findInterface in Hrun. inv_M.
  match goal with Hr : _graph e = Some ?g, HG : graphStore e !! ?g = Some ?G |- _ =>
    exists g, G; split; [exact Hr|]; split; [exact HG|] end.
  destruct (List.find _ (node_objects e _)) as [[r N]|] eqn:Hnode; [|by inv_M].
  cbv zeta.
  set (all := obj_values (node_inputs N) ++ obj_values (node_outputs N)) in *.
  destruct (List.find (fun intf => bool_decide (intf_id intf = intfId)) all)
    as [i|] eqn:Hintf.
  - inv_M. apply find_some in Hintf as [Hin Hid].
    apply bool_decide_eq_true in Hid. apply list_elem_of_In in Hin. split.
    + intros i0 [= <-]. split; [done | by left].
    + intros j _ _. by exists i.
  - assert (Hnone : Forall (fun j => intf_id j <> intfId) all).
    { apply Forall_forall. intros j Hj. apply list_elem_of_In in Hj.
      apply (find_none _ _ Hintf) in Hj. by apply bool_decide_eq_false in Hj. }
    assert (Hcomplete : forall j, j ∈ all -> intf_id j = intfId ->
                          exists i, found = Some i /\ intf_id i = intfId).
    { intros j Hj Hid. by apply (proj1 (Forall_forall _ _) Hnone j) in Hid. }
    split; [|exact Hcomplete].
    destruct subgraphNodeId as [s|]; [|by inv_M].
    case_bool_decide as Hs; inv_M; [done|].
    intros i Hi. apply find_some in Hi as [Hin Hsg].
    apply bool_decide_eq_true in Hsg. apply list_elem_of_In in Hin.
    split; [done|]. right. split; [done|]. by exists s.
Qed.

End FindInterface.

Lemma enter_leave_returns_witness :
  subgraphStack (enter_and_leave 0 synced_editor).2 = subgraphStack synced_editor.
Proof.
  apply (enter_leave_returns (H := SpecModel.collaborators) 0 synced_editor
           (@switchToSubgraph SpecModel.collaborators 0 synced_editor).2
           (enter_and_leave 0 synced_editor).2 tt tt 0
           (mkGraph "root" None [0] [] [] [] None None [])).
  - reflexivity.
  - reflexivity.
  - vm_compute. reflexivity.
  - vm_compute. reflexivity.
Defined.

Lemma findInterface_sound_witness :
  (findInterface "N" "n_in" None (passthrough true)).2
  = passthrough true.
Proof.
  apply (findInterface_sound "N" "n_in" None (passthrough true)
           _ (Some (port "N" "n_in" (Some "bi")))).
  vm_compute. reflexivity.
Defined.

(** ** Positions from the layout *)

Lemma moved_refl e : moved e e.
Proof.
  repeat split. intros r. destruct (nodeStore e !! r) as [N|]; [|done]. by destruct N.
Qed.

Lemma moved_node_ids e e' G : moved e e' -> node_ids e' G = node_ids e G.
Proof.
  intros (_ & _ & _ & Hn). unfold node_ids, node_objects.
  induction (graph_nodes G) as [|r l IH]; simpl; [done|].
  specialize (Hn r).
  destruct (nodeStore e !! r) as [N|], (nodeStore e' !! r) as [N'|]; simpl in *;
    try done.
  f_equal; [by rewrite Hn | exact IH].
Qed.

Lemma filter_nil_iff {A} (p : A -> bool) (l : list A) :
  List.filter p l = [] <-> forall x, x ∈ l -> p x = false.
Proof.
  induction l as [|a l IH]; simpl.
  - split; [intros _ x Hx; by apply elem_of_nil in Hx | done].
  - destruct (p a) eqn:Hp.
    + split; [done | intros Hall; rewrite Hall in Hp; [done | left]].
    + rewrite IH. split.
      * intros Hall x [->|Hx]%elem_of_cons; auto.
      * intros Hall x Hx. apply Hall. by right.
Qed.

Section Layout.
Context `{Collaborators}.

(** One step of the loop of [updateNodesPosition]. *)
Lemma updateNodesPosition_step (updatedState : NodeState) e0 e g G :
  _graph e0 = Some g -> graphStore e0 !! g = Some G -> moved e0 e ->
  let body :=
    (do e <- get in
     do '(_, G) <- the_graph "nodes" (_graph e) in
     match List.filter (fun rn => bool_decide (nf_id (ns_fields updatedState) = node_id rn.2))
             (node_objects e G) with
     | (r, node) :: _ =>
         write_node r (with_position (nf_position (ns_fields updatedState)) node)
     | [] => throw (TypeError_set_undefined "position")
     end) in
  if bool_decide (nf_id (ns_fields updatedState) ∈ node_ids e0 G)
  then exists e', body e = (Normal tt, e') /\ moved e0 e'
  else body e = (Throw (TypeError_set_undefined "position"), e).
Proof.
  intros Hg HG Hmoved body. subst body.
  pose proof (moved_node_ids _ _ G Hmoved) as Hids.
  destruct Hmoved as (Hgs & Hcur & Hstack & Hn).
  rewrite (bind_run _ _ e e e) by done.
  rewrite Hcur, Hg.
  rewrite (bind_run _ _ e (g, G) e) by (apply the_graph_run; by rewrite Hgs).
  destruct (List.filter _ (node_objects e G)) as [|[r node] rest] eqn:Hfilter.
  - rewrite bool_decide_eq_false_2; [done|].
    rewrite <- Hids. intros (rn & Hid & Hrn)%list_elem_of_fmap.
    apply (proj1 (filter_nil_iff _ _) Hfilter) in Hrn.
    by apply bool_decide_eq_false in Hrn.
  - assert (Hin : List.In (r, node) (List.filter
               (fun rn => bool_decide (nf_id (ns_fields updatedState) = node_id rn.2))
               (node_objects e G))) by (rewrite Hfilter; by left).
    apply filter_In in Hin as [Hin Hid]. apply bool_decide_eq_true in Hid.
    apply list_elem_of_In in Hin.
    rewrite bool_decide_eq_true_2.
    2: { rewrite <- Hids. apply list_elem_of_fmap. by exists (r, node). }
    eexists. split; [reflexivity|]. repeat split; simpl; try done.
    intros r'. specialize (Hn r').
    destruct (decide (r' = r)) as [->|Hne].
    + rewrite lookup_insert_eq.
      rewrite (proj2 (proj1 (elem_of_node_objects _ _ _ _) Hin)) in Hn.
      destruct (nodeStore e0 !! r) as [N0|]; [|done]. rewrite Hn. by destruct N0.
    + by rewrite lookup_insert_ne.
Qed.

(** [updateNodesPosition] returns exactly when every node of the updated
    graph has the id of a live node of the active graph; a node it does not
    know makes it throw a TypeError. When it returns, only positions of
    nodes have changed. *)
Theorem updateNodesPosition_known (updatedGraph : GraphState) (e : Editor)
    (g : gref) (G : Graph) :
  _graph e = Some g -> graphStore e !! g = Some G ->
  if forallb (fun s => bool_decide (nf_id (ns_fields s) ∈ node_ids e G))
       (gs_nodes updatedGraph)
  then exists e', updateNodesPosition updatedGraph e = (Normal tt, e') /\ moved e e'
  else exists e', updateNodesPosition updatedGraph e
                  = (Throw (TypeError_set_undefined "position"), e').
Proof.
  intros Hg HG. unfold updateNodesPosition.
  assert (Hloop : forall nodes e1, moved e e1 ->
            if forallb (fun s => bool_decide (nf_id (ns_fields s) ∈ node_ids e G)) nodes
            then exists e',
                forEach nodes
                  (fun updatedState =>
                     do e <- get in
                     do '(_, G) <- the_graph "nodes" (_graph e) in
                     match List.filter
                             (fun rn => bool_decide
                                          (nf_id (ns_fields updatedState) = node_id rn.2))
                             (node_objects e G) with
                     | (r, node) :: _ =>
                         write_node r
                           (with_position (nf_position (ns_fields updatedState)) node)
                     | [] => throw (TypeError_set_undefined "position")
                     end) e1 = (Normal tt, e') /\ moved e e'
            else exists e',
                forEach nodes
                  (fun updatedState =>
                     do e <- get in
                     do '(_, G) <- the_graph "nodes" (_graph e) in
                     match List.filter
                             (fun rn => bool_decide
                                          (nf_id (ns_fields updatedState) = node_id rn.2))
                             (node_objects e G) with
                     | (r, node) :: _ =>
                         write_node r
                           (with_position (nf_position (ns_fields updatedState)) node)
                     | [] => throw (TypeError_set_undefined "position")
                     end) e1 = (Throw (TypeError_set_undefined "position"), e')).
  { induction nodes as [|s nodes IH]; intros e1 Hmoved; simpl.
    - by exists e1.
    - pose proof (updateNodesPosition_step s e e1 g G Hg HG Hmoved) as Hstep.
      cbv zeta in Hstep.
      destruct (bool_decide (nf_id (ns_fields s) ∈ node_ids e G)); simpl.
      + destruct Hstep as (e2 & Hrun & Hmoved2).
        rewrite (bind_run _ _ e1 tt e2) by exact Hrun. by apply IH.
      + exists e1. unfold bind at 1. by rewrite Hstep. }
  apply Hloop, moved_refl.
Qed.

End Layout.

Lemma updateNodesPosition_known_witness :
  exists e',
    updateNodesPosition (example_graph "root" [example_node "A" None])
      (passthrough true) = (Normal tt, e')
    /\ moved (passthrough true) e'.
Proof.
  apply (updateNodesPosition_known
           (example_graph "root" [example_node "A" None]) (passthrough true) 0
           (mkGraph "root" None [0; 1; 2]
              [mkConnection (port "A" "a_out" None) (port "N" "n_in" (Some "bi"));
               mkConnection (port "N" "n_out" (Some "bo")) (port "C" "c_in" None)]
              [] [] None None [])); reflexivity.
Defined.

(** A node the graph does not know: the assignment to [position] throws. *)
Example updateNodesPosition_unknown_throws :
  (updateNodesPosition (example_graph "root" [example_node "Z" None]) (passthrough true)).1
  = Throw "TypeError: Cannot set properties of undefined (setting 'position')".
Proof. vm_compute. reflexivity. Qed.

(** ** The page and the flags after a specification *)

Lemma interface_styles_remove_first h :
  interface_styles (remove_first_style interfacesStyleId h) = pred (interface_styles h).
Proof.
  unfold interface_styles. induction h as [|s h IH]; simpl; [done|].
  case_bool_decide as Hs; simpl; [done|].
  by rewrite bool_decide_eq_false_2 by done.
Qed.

Lemma interface_styles_app h h' :
  interface_styles (h ++ h') = interface_styles h + interface_styles h'.
Proof. unfold interface_styles. by rewrite List.filter_app, length_app. Qed.

Section Manager.
Context `{Collaborators}.
Context (readInterfaceTypes : list SpecNode -> jsobj string).
Context (NodeFactory : string -> string -> list InterfaceState -> list string ->
                       list InterfaceState -> jsobj string -> NodeClass).

(** What the manager's [cleanEditor] does not touch. *)
Lemma manager_cleanEditor_frame mgr u mgr' :
  manager_cleanEditor mgr = (Normal u, mgr') ->
  nodeInterfaceTypes mgr' = nodeInterfaceTypes mgr
  /\ toasts mgr' = toasts mgr
  /\ preview (editor mgr') = preview (editor mgr).
Proof.
  unfold manager_cleanEditor. intros Hrun.
  apply mm_bind_Normal in Hrun as (a & mgr1 & Hed & Hstyle).
  apply on_editor_Normal in Hed as (e1 & Hed & ->).
  unfold removeInterfacesStyle, mm_modify in Hstyle. injection Hstyle as Hstyle.
  subst mgr'. simpl. split; [done|]. split; [done|].
  inv_M.
  rename select (forEach _ (fun i => removeConnection _ i) _ = _) into Hc.
  apply (forEach_preserves only_graphs) in Hc;
    [|apply only_graphs_refl|apply only_graphs_trans
     |intros ? ? ? ? _; apply removeConnection_only_graphs].
  rename select (forEach (reverse _) _ _ = _) into Hn.
  apply (forEach_preserves only_graphs) in Hn;
    [|apply only_graphs_refl|apply only_graphs_trans|].
  2: { intros i ex ux ey _ Hi. cbv beta in Hi. inv_M.
       destruct (graph_nodes _ !! i); [by eapply removeNode_only_graphs|].
       inv_M. apply only_graphs_refl. }
  apply unregister_all in Hed. subst e1. simpl.
  rewrite Hn. simpl. rewrite Hc. done.
Qed.

(** The manager after [updateEditorSpecification] has returned. *)
Lemma updateEditorSpecification_run (m m' : EditorManager) (spec : Specification) :
  updateEditorSpecification readInterfaceTypes NodeFactory (Some spec) m = (Normal tt, m') ->
  specificationLoaded m' = true
  /\ _readonly (editor m') = default false (md_readonly (spec_metadata spec))
  /\ allowLoopbacks (editor m') = default false (md_allowLoopbacks (spec_metadata spec))
  /\ preview (editor m') = preview (editor m)
  /\ nodeInterfaceTypes m'
     = nodeInterfaceTypes m ++ obj_values (readInterfaceTypes (spec_nodes spec))
  /\ toasts m'
     = toasts m ++
       (if default false (md_readonly (spec_metadata spec)) || preview (editor m)
        then ["The specification is read-only. Only dataflow loading is allowed."]
        else [])
  /\ document_head m'
     = (if specificationLoaded m
        then remove_first_style interfacesStyleId (document_head m)
        else document_head m) ++ interface_style spec.
Proof.
  intros Hrun. unfold updateEditorSpecification in Hrun.
  apply mm_bind_Normal in Hrun as (a & ma & Hclean & Hrun).
  assert (Hma : nodeInterfaceTypes ma = nodeInterfaceTypes m
                /\ toasts ma = toasts m
                /\ preview (editor ma) = preview (editor m)
                /\ document_head ma
                   = if specificationLoaded m
                     then remove_first_style interfacesStyleId (document_head m)
                     else document_head m).
  { destruct (specificationLoaded m).
    - destruct (manager_cleanEditor_frame _ _ _ Hclean) as (? & ? & ?).
      destruct (manager_cleanEditor_spec _ _ _ Hclean) as (_ & _ & ? & _). done.
    - unfold mm_ret in Hclean. injection Hclean as Hclean. by subst ma. }
  destruct Hma as (Hit & Ht & Hp & Hh).
  apply mm_bind_Normal in Hrun as (a0 & mb & Hmod & Hrun).
  unfold mm_modify in Hmod. injection Hmod as Hmod. subst mb.
  apply mm_bind_Normal in Hrun as (a1 & mc & Hstyle & Hrun).
  apply updateInterfacesStyle_spec in Hstyle. subst mc.
  apply mm_bind_Normal in Hrun as (a2 & md & Hreg & Hrun).
  apply on_editor_Normal in Hreg as (e1 & Hreg & ->).
  apply (register_loop NodeFactory) in Hreg. subst e1.
  apply mm_bind_Normal in Hrun as (a3 & me & Hro & Hrun).
  apply on_editor_Normal in Hro as (e2 & Hro & ->). inv_M.
  apply mm_bind_Normal in Hrun as (a4 & mf & Htoast & Hrun).
  apply mm_bind_Normal in Hrun as (a5 & mg & Hloop & Hrun).
  apply on_editor_Normal in Hloop as (e3 & Hloop & ->). inv_M.
  unfold mm_modify in Hrun. injection Hrun as Hrun. subst m'.
  simpl in Htoast. unfold readonly in Htoast. simpl in Htoast. rewrite Hp in Htoast.
  destruct (default false (md_readonly (spec_metadata spec)) || preview (editor m));
    injection Htoast as Htoast; subst mf; simpl;
    rewrite ?Hit, ?Ht, ?Hp, ?Hh, ?app_nil_r; done.
Qed.

(** Every specification sets the flags anew: afterwards [_readonly] and
    [allowLoopbacks] are the values of the metadata, [false] where the
    metadata has no such key, whatever they were; the interface types of
    earlier specifications are kept and those of the new one added; and the
    notice that the specification is read-only is shown exactly when the
    editor then reads as read-only, which a preview always does. *)
Theorem updateEditorSpecification_settings (m m' : EditorManager) (spec : Specification) :
  updateEditorSpecification readInterfaceTypes NodeFactory (Some spec) m = (Normal tt, m') ->
  specificationLoaded m' = true
  /\ _readonly (editor m') = default false (md_readonly (spec_metadata spec))
  /\ allowLoopbacks (editor m') = default false (md_allowLoopbacks (spec_metadata spec))
  /\ nodeInterfaceTypes m'
     = nodeInterfaceTypes m ++ obj_values (readInterfaceTypes (spec_nodes spec))
  /\ toasts m'
     = toasts m ++
       (if readonly (editor m')
        then ["The specification is read-only. Only dataflow loading is allowed."]
        else []).
Proof.
  intros Hrun. apply updateEditorSpecification_run in Hrun
    as (Hl & Hr & Ha & Hp & Hi & Ht & _).
  split; [done|]. split; [done|]. split; [done|]. split; [done|].
  unfold readonly. by rewrite Hr, Hp.
Qed.

(** The interface stylesheets of the page: a specification takes one away
    when one was loaded before, and adds one when its metadata has
    [interfaces]. So the page never holds more than one, provided it held
    none when the first specification came. *)
Theorem updateEditorSpecification_stylesheets (m m' : EditorManager)
    (spec : Specification) :
  updateEditorSpecification readInterfaceTypes NodeFactory (Some spec) m = (Normal tt, m') ->
  interface_styles (document_head m')
  = (if specificationLoaded m
     then pred (interface_styles (document_head m))
     else interface_styles (document_head m))
    + (if md_interfaces (spec_metadata spec) then 1 else 0)
  /\ (interface_styles (document_head m)
      <= (if specificationLoaded m then 1 else 0) ->
      interface_styles (document_head m') <= 1).
Proof.
  intros Hrun. apply updateEditorSpecification_run in Hrun
    as (_ & _ & _ & _ & _ & _ & Hh).
  assert (Hnew : interface_styles (interface_style spec)
                 = if md_interfaces (spec_metadata spec) then 1 else 0).
  { unfold interface_style. destruct (md_interfaces _); [|done].
    reflexivity. }
  rewrite Hh, interface_styles_app, Hnew.
  destruct (specificationLoaded m); rewrite ?interface_styles_remove_first;
    (split; [done|]); destruct (md_interfaces _); lia.
Qed.

End Manager.

Lemma updateEditorSpecification_settings_witness :
  specificationLoaded (plain_update first_specification new_manager).2 = true.
Proof.
  apply (updateEditorSpecification_settings (H := SpecModel.collaborators) (fun _ => [])
           plain_factory new_manager _ first_specification).
  vm_compute. reflexivity.
Defined.

Lemma updateEditorSpecification_stylesheets_witness :
  interface_styles (document_head (plain_update first_specification new_manager).2) = 1.
Proof.
  apply (updateEditorSpecification_stylesheets (H := SpecModel.collaborators) (fun _ => [])
           plain_factory new_manager _ first_specification).
  vm_compute. reflexivity.
Defined.

(** ** What [load] guarantees of the tree, and when [save] throws *)

(** The tree of a valid document is one [load] instantiated. *)
Lemma document_tree_Inst (D : Dataflow) (T entry : GraphState) :
  valid_document D = true ->
  document_tree D = Some (T, entry) ->
  exists root nodes' used',
    T = empty_io (set_nodes root nodes')
    /\ ~ referenced (root :: default [] (df_subgraphs D)) (gs_id root)
    /\ InstList (referenced (root :: default [] (df_subgraphs D))) ∅ nodes' used'.
Proof.
  intros Hvalid Htree. unfold document_tree in Htree.
  destruct (resolveGraphs D) as [[errs|[root entry0]]|err] eqn:Hresolve; try done.
  destruct (instantiateRoot D root) as [[[errs|T0]|err]|] eqn:Hinst; try done.
  injection Htree as -> ->.
  unfold instantiateRoot in Hinst.
  destruct (forEach_load _ _ _) as [[[[errs nodes'] used']|?]|] eqn:Hload; [|done..].
  destruct errs; [|done]. injection Hinst as <-.
  set (templates := default [] (df_subgraphs D)) in *.
  set (R := referenced (root :: templates)).
  apply andb_true_iff in Hvalid as [Htemplates Hroot].
  fold templates in Htemplates.
  assert (Hroot' : forallb plain (gs_nodes root) = true /\ ~ R (gs_id root)).
  { unfold resolveGraphs in Hresolve. destruct (df_graph D) as [graph|entryId].
    - injection Hresolve as <- <-. apply andb_true_iff in Hroot as [Hp Hu].
      split; [done|]. apply negb_true_iff, bool_decide_eq_false in Hu.
      intros Href. apply Hu. by apply elem_of_usedSubgraphs.
    - destruct (df_subgraphs D) as [l|] eqn:Hsub; [|done]. simpl in templates.
      destruct (List.find _ l) as [rootGraph|] eqn:Hfind; [|done].
      destruct (List.find _ l) as [entryGraph|] in Hresolve; [|done].
      injection Hresolve as <- <-.
      apply find_some in Hfind as [Hin Hun]. apply list_elem_of_In in Hin.
      apply negb_true_iff, bool_decide_eq_false in Hun.
      split; [exact (forallb_elem_of _ _ _ Htemplates Hin)|].
      intros (t & n & Ht & Hn & Hs). apply Hun. apply elem_of_usedSubgraphs.
      exists t, n. split; [|done].
      apply elem_of_cons in Ht as [->|Ht]; done. }
  destruct Hroot' as [Hrootplain HrootR].
  exists root, nodes', used'. split; [done|]. split; [done|].
  eapply (forEach_load_Inst R); [|exact Hload].
  intros n used n1 used1 Hn. apply (recurrentSubgraphLoad_Inst R (df_subgraphs D)).
  - intros t m Ht Hm. split.
    + eapply forallb_elem_of; [|exact Hm]. by eapply forallb_elem_of in Htemplates.
    + intros s Hs. exists t, m. split; [by right | done].
  - by eapply forallb_elem_of.
  - intros s Hs. exists root, n. split; [by left | done].
Qed.

(** When [load] instantiates a valid document without error, no two nodes
    of the tree expand the same template and none expands the root: the
    ids of the root and of the expanded subgraphs are pairwise distinct,
    and every node that names a subgraph carries its [graphState]. *)
Theorem load_instances_unique (D : Dataflow) (T entry : GraphState) :
  valid_document D = true ->
  document_tree D = Some (T, entry) ->
  NoDup (gs_id T :: flat_map subgraph_ids (gs_nodes T))
  /\ forallb expanded (gs_nodes T) = true.
Proof.
  intros Hvalid Htree.
  destruct (document_tree_Inst D T entry Hvalid Htree)
    as (root & nodes' & used' & -> & HrootR & HInst).
  destruct (proj2 (save_then_load _) _ _ _ HInst)
    as (pushed & Hsave & [Hids Hnd Hu Hfresh Hparent Hrefs] & _).
  destruct root as [rfields rnodes]. simpl. split.
  - constructor; [|exact Hnd].
    intros Hin. apply Hfresh in Hin as [_ Hin]. by apply HrootR.
  - clear -HInst.
    pose (P := fun (_ : gset string) (n : NodeState) (_ : gset string) =>
                 expanded n = true).
    pose (Q := fun (_ : gset string) (l : list NodeState) (_ : gset string) =>
                 forallb expanded l = true).
    refine (proj2 (Inst_mutind _ P Q _ _ _ _) _ _ _ HInst); subst P Q; simpl.
    + intros fields _ ->. done.
    + intros fields s gfields nodes _ _ -> _ _ _ _ IH. exact IH.
    + done.
    + intros n rest _ _ _ _ Hn _ Hrest. by rewrite Hn, Hrest.
Qed.

(** [forEach_save] on any list of nodes: it throws exactly when a node
    names a subgraph without carrying its [graphState], and what it pushes
    are the expanded subgraphs in preorder. *)
Lemma forEach_save_expanded (nodes : list NodeState) :
  match forEach_save nodes with
  | Normal (pushed, nodes') =>
      forallb expanded nodes = true /\ map gs_id pushed = flat_map subgraph_ids nodes
  | Throw err => forallb expanded nodes = false /\ err = TypeError_undefined "nodes"
  end.
Proof.
  induction nodes as [|n rest IH]; simpl; [done|].
  assert (Hn : match recurrentSubgraphSave n with
               | Normal (pushed, n') =>
                   expanded n = true /\ map gs_id pushed = subgraph_ids n
               | Throw err => expanded n = false /\ err = TypeError_undefined "nodes"
               end).
  { clear. induction n as [fields | fields g IHg | gfields gnodes IHn]
      using NodeState_tree_ind
      with (Q := fun g =>
                   match forEach_save (gs_nodes g) with
                   | Normal (pushed, nodes') =>
                       forallb expanded (gs_nodes g) = true
                       /\ map gs_id pushed = flat_map subgraph_ids (gs_nodes g)
                   | Throw err =>
                       forallb expanded (gs_nodes g) = false
                       /\ err = TypeError_undefined "nodes"
                   end).
    - rewrite recurrentSubgraphSave_unfold. simpl. by destruct (nf_subgraph fields).
    - rewrite recurrentSubgraphSave_unfold. simpl. destruct g as [gfields gnodes].
      destruct (nf_subgraph fields); [|done]. simpl in *.
      destruct (forEach_save gnodes) as [[pushed nodes']|err]; [|done].
      destruct IHg as [He Hp]. split; [done|]. simpl. by rewrite Hp.
    - simpl. induction IHn as [|n rest Hn _ IH]; simpl; [done|].
      destruct (recurrentSubgraphSave n) as [[p1 n']|err].
      + destruct Hn as [-> Hp1]. simpl.
        destruct (forEach_save rest) as [[p2 rest']|err]; [|done].
        destruct IH as [-> Hp2]. split; [done|]. by rewrite map_app, Hp1, Hp2.
      + destruct Hn as [-> ->]. done. }
  destruct (recurrentSubgraphSave n) as [[p1 n']|err].
  - destruct Hn as [-> Hp1]. simpl.
    destruct (forEach_save rest) as [[p2 rest']|err]; [|done].
    destruct IH as [-> Hp2]. split; [done|]. by rewrite map_app, Hp1, Hp2.
  - destruct Hn as [-> ->]. done.
Qed.

(** The document [save] builds from a snapshot: a TypeError is thrown
    exactly when some node names a subgraph without carrying its
    [graphState]; otherwise the templates of the document are the expanded
    subgraphs in preorder followed by the root, and there is no
    [subgraphs] when nothing is expanded. *)
Theorem saveState_templates (currentGraphId : string) (graph : GraphState)
    (panning : option Vec2) (scaling : option jsnum) :
  match saveState currentGraphId graph panning scaling with
  | Normal state =>
      forallb expanded (gs_nodes graph) = true
      /\ match df_subgraphs state with
         | Some templates =>
             map gs_id templates = flat_map subgraph_ids (gs_nodes graph) ++ [gs_id graph]
             /\ flat_map subgraph_ids (gs_nodes graph) <> []
         | None => flat_map subgraph_ids (gs_nodes graph) = []
         end
  | Throw err =>
      forallb expanded (gs_nodes graph) = false /\ err = TypeError_undefined "nodes"
  end.
Proof.
  unfold saveState. destruct graph as [fields nodes]. simpl.
  pose proof (forEach_save_expanded nodes) as Hsave.
  destruct (forEach_save nodes) as [[pushed nodes']|err]; [|done].
  destruct Hsave as [Hexp Hids]. destruct pushed as [|t pushed]; simpl.
  - split; [done|]. by rewrite <- Hids.
  - split; [done|]. rewrite <- Hids. split; [|done].
    simpl. by rewrite map_app.
Qed.

Lemma load_instances_unique_witness :
  NoDup (gs_id nested_tree :: flat_map subgraph_ids (gs_nodes nested_tree))
  /\ forallb expanded (gs_nodes nested_tree) = true.
Proof.
  apply (load_instances_unique nested_document nested_tree
           (example_graph "inner" [example_node "leaf" None])); vm_compute; reflexivity.
Defined.

(** ** The path to the entry graph *)

Lemma leads_to_chain e entry path : forall g, leads_to e entry g path -> chain e entry path.
Proof.
  induction path as [|r rest IH]; simpl; [done|].
  intros g (G & N & sg & _ & _ & HN & Hsg & Hrest).
  exists sg. split; [unfold subgraph_of; by rewrite HN|].
  destruct rest; [done|]. by eapply IH.
Qed.

Lemma chain_skeleton e e' entry path : skeleton e e' -> chain e entry path -> chain e' entry path.
Proof.
  intros Hk. induction path as [|r rest IH]; simpl; [done|].
  intros (sg & Hsg & Hrest). exists sg.
  split; [by rewrite (skeleton_subgraph_of e e' r Hk)|].
  destruct rest; [by rewrite (skeleton_id_of e e' sg Hk) | by apply IH].
Qed.

(** What [dfs] returns is empty or extends [path] by nodes that lead to
    the entry graph. *)
Lemma dfs_sound (e : Editor) (entry : string) (fuel : nat) :
  forall g path found,
    dfs fuel e entry (Some g) path = Some found ->
    found = [] \/ exists q, found = path ++ q /\ leads_to e entry g q.
Proof.
  induction fuel as [|fuel IH]; intros g path found; simpl; [done|].
  destruct (graphStore e !! g) as [G|] eqn:HG; simpl; [|intros [= <-]; by left].
  assert (Hsub : forall rn, rn ∈ node_objects e G -> rn ∈ node_objects e G) by done.
  revert Hsub. generalize (node_objects e G) at 1 3. intros l.
  induction l as [|[r N] l IHl]; intros Hsub; [intros [= <-]; by left|].
  assert (Hr : r ∈ graph_nodes G /\ nodeStore e !! r = Some N)
    by (apply elem_of_node_objects, Hsub; left).
  destruct Hr as [Hr HN].
  assert (Hl : forall rn, rn ∈ l -> rn ∈ node_objects e G)
    by (intros rn Hrn; apply Hsub; by right).
  destruct (node_subgraph N) as [sg|] eqn:Hsg; [|by apply IHl].
  case_bool_decide as Hid.
  - intros [= <-]. right. exists [r]. split; [done|].
    simpl. by exists G, N, sg.
  - destruct (dfs fuel e entry (Some sg) (path ++ [r])) as [[|x found']|] eqn:Hdfs;
      [by apply IHl| |done].
    intros [= <-]. right.
    apply IH in Hdfs as [Hnil|(q & Hq & Hlead)]; [done|].
    exists (r :: q). split; [by rewrite Hq, <- app_assoc|].
    simpl. exists G, N, sg. repeat (split; [done|]).
    destruct q; [done | exact Hlead].
Qed.

Section Entry_navigation.
Context `{Collaborators}.

Lemma follow_chain (entry : string) (path : list nref) :
  forall e u e',
    chain e entry path ->
    forEach path switchToSubgraph e = (Normal u, e') ->
    (exists g', _graph e' = Some g' /\ id_of e' g' = Some entry)
    /\ map snd (subgraphStack e') = map snd (subgraphStack e) ++ path.
Proof.
  induction path as [|r rest IH]; intros e u e' Hchain Hrun; [done|].
  simpl in Hrun. inv_M.
  rename select (switchToSubgraph _ _ = _) into Hstep.
  apply switchToSubgraph_spec in Hstep
    as (g & G & N & sg & Hg & HG & HN & Hsg & _ & Hg1 & Hst1 & Hk).
  destruct Hchain as (sg' & Hsg' & Hrest).
  unfold subgraph_of in Hsg'. rewrite HN in Hsg'. simpl in Hsg'.
  rewrite Hsg in Hsg'. injection Hsg' as <-.
  destruct rest as [|r' rest].
  - simpl in Hrun. inv_M. split.
    + exists sg. split; [done|]. by rewrite (skeleton_id_of _ _ sg Hk).
    + rewrite Hst1, map_app. done.
  - apply IH in Hrun as [Hend Hstack]; [|by apply (chain_skeleton e)].
    split; [done|]. rewrite Hstack, Hst1, map_app. simpl. by rewrite <- app_assoc.
Qed.

(** The path [load] searches for with [dfs] starts in the active graph and
    leads through nodes of successive subgraphs to a graph with the entry
    id; when [switchToSubgraph] has followed it, a graph with the entry id
    is on display and the navigation stack has grown by the nodes of the
    path. *)
Theorem dfs_path_to_entry (e : Editor) (entry : string) (fuel : nat) (g : gref)
    (path : list nref) :
  _graph e = Some g ->
  dfs fuel e entry (_graph e) [] = Some path -> path <> [] ->
  leads_to e entry g path
  /\ forall u e',
       forEach path switchToSubgraph e = (Normal u, e') ->
       (exists g', _graph e' = Some g' /\ id_of e' g' = Some entry)
       /\ map snd (subgraphStack e') = map snd (subgraphStack e) ++ path.
Proof.
  intros Hg Hdfs Hne. rewrite Hg in Hdfs.
  apply dfs_sound in Hdfs as [->|(q & -> & Hlead)]; [done|]. simpl.
  split; [done|]. intros u e'. apply follow_chain. by eapply leads_to_chain.
Qed.

End Entry_navigation.

Lemma dfs_path_to_entry_witness :
  leads_to synced_editor "s" 0 [0].
Proof.
  apply (dfs_path_to_entry (H := SpecModel.collaborators) synced_editor "s" 3 0 [0]).
  - reflexivity.
  - vm_compute. reflexivity.
  - discriminate.
Defined.

(** ** [load] when the graph model fails *)

Section Load_failures.
Context `{Collaborators}.

(** An exception of the graph model inside the [try] block is caught:
    [load] resolves with the exception as its only error, the graph on
    display is emptied and [readonly] is set back. *)
Theorem load_catches_exception (state : Dataflow) (T entry : GraphState)
    (e e0 e1 : Editor) (g g1 : gref) (G1 : Graph) (err : string) :
  unregisterGraphs e = (Normal tt, e0) ->
  document_tree state = Some (T, entry) ->
  _graph e0 = Some g ->
  graph_load T g (set_readonly true e0) = (Throw err, e1) ->
  _graph e1 = Some g1 -> graphStore e1 !! g1 = Some G1 ->
  (forall r, r ∈ graph_nodes G1 -> is_Some (nodeStore e1 !! r)) ->
  load state e = (Resolved [err], set_readonly (readonly e) (cleaned g1 G1 e1)).
Proof.
  intros Hu Htree Hg Hload Hg1 HG1 Halive. unfold load.
  rewrite (load_body_to_graph_load state T entry e e0 g) by done.
  unfold bind at 1. unfold try_catch. unfold bind at 1. rewrite Hload.
  rewrite (bind_run _ _ e1 tt (cleaned g1 G1 e1)) by (by apply cleanEditor_run).
  done.
Qed.

(** Errors returned by the graph model make [load] resolve with them,
    outside the development mode: the graph on display is emptied and
    [readonly] is set back. *)
Theorem load_returns_graph_errors (state : Dataflow) (T entry : GraphState)
    (e e0 e1 : Editor) (g g1 : gref) (G1 : Graph) (errors : list string) :
  unregisterGraphs e = (Normal tt, e0) ->
  document_tree state = Some (T, entry) ->
  _graph e0 = Some g ->
  graph_load T g (set_readonly true e0) = (Normal errors, e1) ->
  errors <> [] -> developmentMode = false ->
  _graph e1 = Some g1 -> graphStore e1 !! g1 = Some G1 ->
  (forall r, r ∈ graph_nodes G1 -> is_Some (nodeStore e1 !! r)) ->
  load state e = (Resolved errors, set_readonly (readonly e) (cleaned g1 G1 e1)).
Proof.
  intros Hu Htree Hg Hload Herrors Hdev Hg1 HG1 Halive. unfold load.
  rewrite (load_body_to_graph_load state T entry e e0 g) by done.
  unfold bind at 1. unfold try_catch. unfold bind at 1. rewrite Hload.
  unfold ret at 1. unfold load_finish.
  rewrite bool_decide_eq_false_2 by done. rewrite Hdev. simpl.
  rewrite (bind_run _ _ e1 tt (cleaned g1 G1 e1)) by (by apply cleanEditor_run).
  done.
Qed.

End Load_failures.

Lemma load_catches_exception_witness :
  (@load failing_collaborators flat_document (passthrough true)).1
  = Resolved ["Error: the graph cannot be loaded"].
Proof.
  erewrite (load_catches_exception (H := failing_collaborators) flat_document _ _
              (passthrough true) _ _ 0 0).
  - reflexivity.
  - vm_compute. reflexivity.
  - vm_compute. reflexivity.
  - reflexivity.
  - vm_compute. reflexivity.
  - reflexivity.
  - vm_compute. reflexivity.
  - apply all_live. vm_compute. reflexivity.
Defined.

Lemma load_returns_graph_errors_witness :
  (@load SpecModel.collaborators dangling_document (passthrough true)).1
  = Resolved ["Connection from x to y names a missing interface"].
Proof.
  erewrite (load_returns_graph_errors (H := SpecModel.collaborators) dangling_document _ _
              (passthrough true) _ _ 0 0).
  - reflexivity.
  - vm_compute. reflexivity.
  - vm_compute. reflexivity.
  - reflexivity.
  - vm_compute. reflexivity.
  - discriminate.
  - reflexivity.
  - reflexivity.
  - vm_compute. reflexivity.
  - apply all_live. vm_compute. reflexivity.
Defined.

(** ** Inlining a subgraph: the nodes *)

Lemma same_types_refl e : same_types e e.
Proof. done. Qed.

Lemma same_types_trans e1 e2 e3 : same_types e1 e2 -> same_types e2 e3 -> same_types e1 e3.
Proof. intros H12 H23 r. by rewrite H23. Qed.

Lemma same_types_eq e e' : nodeStore e' = nodeStore e -> same_types e e'.
Proof. intros Heq r. by rewrite Heq. Qed.

Lemma remove_first_not_in n l : n ∉ l -> remove_first n l = l.
Proof.
  induction l as [|x l IH]; simpl; [done|]. intros Hn.
  apply not_elem_of_cons in Hn as [Hne Hn].
  rewrite bool_decide_eq_false_2 by done. by rewrite IH.
Qed.

Section Inline_nodes.
Context `{Collaborators}.

Lemma copyNode_appends node meanX meanY r e u e' g nodes selected :
  (forall N, beforeAddNode_prevented N = false) ->
  shows g nodes selected e ->
  (forall N, nodeStore e !! r = Some N -> node_type N ∉ subgraphTypes) ->
  copyNode node meanX meanY r e = (Normal u, e') ->
  shows g (nodes ++ [r]) (selected ++ [r]) e' /\ same_types e e'.
Proof.
  intros Hveto (Hg & G & HG & Hnodes & Hsel) Htype Hrun. unfold copyNode in Hrun. inv_M.
  match goal with Hn : nodeStore e !! r = Some ?N |- _ =>
    specialize (Htype _ Hn); rename Hn into HN; rename N into N0 end.
  case_bool_decide; [done|]. inv_M.
  match goal with Hp : (match node_position N0 with Some _ => _ | None => _ end) _ = (_, ?e1) |- _ =>
    assert (Hpos : nodeStore e1 = nodeStore e /\ graphStore e1 = graphStore e
                   /\ _graph e1 = _graph e)
      by (destruct (node_position N0); inv_M; done);
    destruct Hpos as (Hpn & Hpg & Hpc) end.
  unfold addNode in *. inv_M.
  match goal with Ha : (if beforeAddNode_prevented _ then _ else _) _ = _ |- _ =>
    rewrite Hveto in Ha end.
  inv_all. unfold position_x, position_y in *. inv_all. simpl in *.
  rewrite lookup_insert_eq in *. simplify_eq.
  match goal with Hc : _graph ?e0 = Some _, Hpc : _graph ?e0 = _graph e |- _ =>
    rewrite Hpc, Hg in Hc; injection Hc as <- end.
  match goal with Hc : graphStore ?e0 !! g = Some _, Hpg : graphStore ?e0 = graphStore e |- _ =>
    rewrite Hpg, HG in Hc; injection Hc as <- end.
  match goal with Hc : nodeStore ?e0 !! r = Some _, Hpn : nodeStore ?e0 = nodeStore e |- _ =>
    rewrite Hpn, HN in Hc; injection Hc as <- end.
  match goal with Hc : <[g := _]> _ !! g = Some _ |- _ =>
    rewrite lookup_insert_eq in Hc; injection Hc as <- end.
  split.
  - split; [simpl; by rewrite Hpc|]. simpl. rewrite insert_insert_eq, lookup_insert_eq.
    eexists. split; [reflexivity|]. done.
  - intros r0. simpl. destruct (decide (r0 = r)) as [->|Hne].
    + rewrite lookup_insert_eq, HN. reflexivity.
    + rewrite !lookup_insert_ne by done. by rewrite Hpn.
Qed.

Lemma forEach_copyNode_appends node meanX meanY (l : list nref) e u e' g nodes selected :
  (forall N, beforeAddNode_prevented N = false) ->
  shows g nodes selected e ->
  (forall r N, r ∈ l -> nodeStore e !! r = Some N -> node_type N ∉ subgraphTypes) ->
  forEach l (copyNode node meanX meanY) e = (Normal u, e') ->
  shows g (nodes ++ l) (selected ++ l) e' /\ same_types e e'.
Proof.
  intros Hveto. revert e nodes selected.
  induction l as [|r l IH]; simpl; intros e nodes selected Hshows Htypes Hrun.
  - inv_M. rewrite !app_nil_r. split; [done | apply same_types_refl].
  - inv_M.
    match goal with Hc : copyNode _ _ _ _ _ = _ |- _ =>
      eapply copyNode_appends in Hc as [Hs1 Ht1]; [|done|exact Hshows|] end.
    2: { intros N. apply Htypes. left. }
    match goal with Hf : forEach _ _ _ = _ |- _ =>
      eapply IH in Hf as [Hs2 Ht2]; [| exact Hs1 |] end.
    + rewrite <- !app_assoc in Hs2. split; [exact Hs2 | by eapply same_types_trans].
    + intros r0 N0 Hr0 HN0. specialize (Ht1 r0). rewrite HN0 in Ht1.
      destruct (nodeStore e !! r0) as [N1|] eqn:HN1; [|done].
      simpl in Ht1. injection Ht1 as Ht1. rewrite Ht1. eapply Htypes; [by right | done].
Qed.

Lemma removeNode_shows g node nodes selected e u e' :
  shows g nodes selected e -> removeNode g node e = (Normal u, e') ->
  shows g (remove_first node nodes) selected e' /\ same_types e e'.
Proof.
  intros (Hg & G & HG & Hnodes & Hsel) Hrun. unfold removeNode in Hrun. inv_M.
  simplify_eq. case_bool_decide.
  - inv_all. split; [|done]. split; [done|]. simpl. rewrite lookup_insert_eq.
    eexists. split; [reflexivity|]. done.
  - inv_M. split; [|done]. rewrite remove_first_not_in by done.
    split; [done|]. eauto.
Qed.

Lemma reconnect_shows m c g nodes selected e u e' :
  shows g nodes selected e -> reconnect m c e = (Normal u, e') ->
  shows g nodes selected e' /\ same_types e e'.
Proof.
  intros Hshows Hrun. unfold reconnect in Hrun.
  destruct (_ || _); [by inv_M|]. inv_M.
  repeat match goal with Hf : findResolved _ _ = _ |- _ =>
    apply findResolved_same in Hf as -> end.
  match goal with Hk : (match ?a with Some _ => _ | None => _ end) _ = _ |- _ =>
    destruct a as [from|]; [|by inv_M] end.
  match goal with Hk : (match ?a with Some _ => _ | None => _ end) _ = _ |- _ =>
    destruct a as [to|]; [|by inv_M] end.
  inv_M. unfold addConnection in *. inv_M.
  destruct (connectionAccepted _ _ _ _); [|by inv_M]. inv_all.
  destruct Hshows as (Hcur & G & Hlive & Hnodes & Hsel). simplify_eq.
  split; [|done]. split; [done|]. simpl. rewrite lookup_insert_eq.
  eexists. split; [reflexivity|]. done.
Qed.

Lemma forEach_reconnect_shows m (l : list Connection) g nodes selected e u e' :
  shows g nodes selected e -> forEach l (reconnect m) e = (Normal u, e') ->
  shows g nodes selected e'.
Proof.
  revert e. induction l as [|c l IH]; simpl; intros e Hshows Hrun; inv_M; [done|].
  match goal with Hc : reconnect _ _ _ = _ |- _ =>
    eapply reconnect_shows in Hc as [Hs _]; [|exact Hshows] end.
  eauto.
Qed.

(** [unwrapSubgraph] puts the nodes of the subgraph in the place of
    the graph node. When no listener vetoes a node and the call returns,
    the graph shown holds the nodes it held, then the nodes of the subgraph
    that are not boundary markers, in their order, without the (first
    occurrence of the) graph node; and exactly the copied nodes are
    selected. *)
Theorem unwrapSubgraph_inlines (e : Editor) (node : nref) (N : Node) (sg g : gref)
    (Sub G : Graph) u e' :
  nodeStore e !! node = Some N -> node_subgraph N = Some sg ->
  graphStore e !! sg = Some Sub ->
  _graph e = Some g -> graphStore e !! g = Some G ->
  (forall N', beforeAddNode_prevented N' = false) ->
  unwrapSubgraph node e = (Normal u, e') ->
  let copied := map fst (subgraphNodes e Sub) in
  _graph e' = Some g /\
  exists G', graphStore e' !! g = Some G'
             /\ graph_nodes G' = remove_first node (graph_nodes G ++ copied)
             /\ graph_selectedNodes G' = copied.
Proof.
  intros HN Hsg HSub Hg HG Hveto Hrun copied. unfold unwrapSubgraph in Hrun. inv_M.
  simplify_eq.
  repeat match goal with
         | Hx : mapM (fun rn => position_x rn.2) _ _ = _ |- _ =>
             apply mapM_position_x in Hx as (-> & _ & _)
         | Hy : mapM (fun rn => position_y rn.2) _ _ = _ |- _ =>
             apply mapM_position_y in Hy as (-> & _)
         end.
  inv_all. simplify_eq.
  match goal with Hc : forEach _ (copyNode _ _ _) ?e1 = _ |- _ =>
    eapply (forEach_copyNode_appends _ _ _ _ _ _ _ g (graph_nodes G) []) in Hc
      as [Hs1 Ht1]; [|done| |] end.
  2: { split; [done|]. simpl. rewrite lookup_insert_eq. eexists. done. }
  2: { intros r0 N0 Hcopied HN0. simpl in HN0.
       apply list_elem_of_fmap in Hcopied as ([r1 N1] & -> & Hin).
       apply elem_of_subgraphNodes in Hin as [Hin Htype].
       apply elem_of_node_objects in Hin as [_ Hin]. simpl in *. by simplify_eq. }
  pose proof Hs1 as (Hshown1 & _).
  match goal with Hc : _graph ?e1 = Some ?g1, Hrem : removeNode ?g1 _ ?e1 = _ |- _ =>
    rewrite Hshown1 in Hc; injection Hc as <- end.
  match goal with Hrem : removeNode _ _ _ = _ |- _ =>
    apply (removeNode_shows _ _ _ _ _ _ _ Hs1) in Hrem as [Hs2 _] end.
  match goal with Hre : forEach _ (reconnect _) _ = _ |- _ =>
    apply (forEach_reconnect_shows _ _ _ _ _ _ _ _ Hs2) in Hre
      as (Hcur & G3 & Hlive & Hn3 & Hsel3) end.
  split; [done|]. exists G3. done.
Qed.

End Inline_nodes.

Lemma unwrapSubgraph_inlines_witness :
  exists G', graphStore (unwrapped true).2 !! 0 = Some G'
             /\ graph_nodes G' = [0; 2; 5] /\ graph_selectedNodes G' = [5].
Proof.
  assert (Hrun : @unwrapSubgraph SpecModel.collaborators 1 (passthrough true)
                 = (Normal tt, (unwrapped true).2)) by (vm_compute; reflexivity).
  destruct (unwrapSubgraph_inlines (H := SpecModel.collaborators) (passthrough true) 1
              (mkNode "N" "Group" (Some (mkVec2 (js_int 10) (js_int 4)))
                 [("n_in", port "N" "n_in" (Some "bi"))]
                 [("n_out", port "N" "n_out" (Some "bo"))] (Some 1))
              1 0
              (mkGraph "sub" None [3; 4; 5]
                 [mkConnection (port "BI" "bi" None) (port "BO" "bo" None)]
                 [] [] None None [])
              (mkGraph "root" None [0; 1; 2]
                 [mkConnection (port "A" "a_out" None) (port "N" "n_in" (Some "bi"));
                  mkConnection (port "N" "n_out" (Some "bo")) (port "C" "c_in" None)]
                 [] [] None None [])
              tt (unwrapped true).2 eq_refl eq_refl eq_refl eq_refl eq_refl
              (fun _ => eq_refl) Hrun) as (_ & G' & Hlive & Hnodes & Hselected).
  exists G'. split; [exact Hlive|].
  split; [rewrite Hnodes | rewrite Hselected]; vm_compute; reflexivity.
Defined.

(** ** The notification and terminal stores *)

Lemma storage_get_set key value s :
  storage_get key (storage_set key value s) = Some value.
Proof.
  unfold storage_get, storage_set.
  destruct (storageAvailable s) eqn:Ha; simpl; rewrite ?Ha; apply lookup_insert_eq.
Qed.

Lemma storage_get_set_ne key key' value s :
  key <> key' -> storage_get key' (storage_set key value s) = storage_get key' s.
Proof.
  intros Hne. unfold storage_get, storage_set.
  destruct (storageAvailable s) eqn:Ha; simpl; rewrite ?Ha; by apply lookup_insert_ne.
Qed.

Lemma storage_get_remove key s :
  storage_get key (storage_remove key s) = None.
Proof.
  unfold storage_get, storage_remove.
  destruct (storageAvailable s) eqn:Ha; simpl; rewrite ?Ha; apply lookup_delete_eq.
Qed.

Lemma storage_get_remove_ne key key' s :
  key <> key' -> storage_get key' (storage_remove key s) = storage_get key' s.
Proof.
  intros Hne. unfold storage_get, storage_remove.
  destruct (storageAvailable s) eqn:Ha; simpl; rewrite ?Ha; by apply lookup_delete_ne.
Qed.

Lemma filter_index_delete {A} (index : Z) (i : nat) (l : list A) :
  filter_index (fun idx => negb (Z.eqb index (Z.of_nat idx))) i l =
  if decide (Z.of_nat i <= index < Z.of_nat (i + length l))%Z
  then delete (Z.to_nat index - i) l else l.
Proof.
  revert i. induction l as [|a l IH]; intros i.
  - simpl. by destruct (decide _).
  - cbn [filter_index]. rewrite IH. destruct (Z.eqb_spec index (Z.of_nat i)) as [->|Hne]; simpl.
    + rewrite Nat2Z.id, Nat.sub_diag.
      rewrite decide_False by lia. rewrite decide_True by lia. reflexivity.
    + destruct (decide (Z.of_nat (S i) <= index < _)%Z) as [Hin|Hout].
      * rewrite decide_True by lia.
        replace (Z.to_nat index - i) with (S (Z.to_nat index - S i)) by lia. reflexivity.
      * rewrite decide_False by lia. reflexivity.
Qed.

Lemma string_app_nil_r (s : string) : s +:+ "" = s.
Proof.
  induction s as [|a s IH]; [done|].
  change (String a (s +:+ "") = String a s). by f_equal.
Qed.

Lemma string_app_assoc (s1 s2 s3 : string) : (s1 +:+ s2) +:+ s3 = s1 +:+ (s2 +:+ s3).
Proof.
  induction s1 as [|a s1 IH]; [done|].
  change (String a ((s1 +:+ s2) +:+ s3) = String a (s1 +:+ (s2 +:+ s3))). by f_equal.
Qed.

Lemma concat_empty_cons (x : string) (xs : list string) :
  String.concat "" (x :: xs) = x +:+ String.concat "" xs.
Proof. destruct xs; cbn [String.concat]; [by rewrite string_app_nil_r|done]. Qed.

Lemma fold_left_lines (l : list string) (acc : string) :
  fold_left (fun parsed m => parsed +:+ newline +:+ "    " +:+ m) l acc =
  acc +:+ String.concat "" (map (fun m => newline +:+ "    " +:+ m) l).
Proof.
  revert acc. induction l as [|m l IH]; intros acc.
  - simpl. by rewrite string_app_nil_r.
  - cbn [fold_left map]. rewrite IH, concat_empty_cons.
    by rewrite !string_app_assoc.
Qed.

Section Store_facts.
Context {Notification : Type} `{JSON Notification}.

(** what is in the storage is what the stores hold. If both stores
    agree with the storage, they still do after any of their six methods,
    provided the two arrays the method leaves read back from their JSON
    text: a method writes the array it assigns under its own key, in
    [localStorage] or in the fallback map alike, and leaves the key of the
    other store alone. *)
Theorem stores_persisted (op : Stores Notification -> Stores Notification)
    (notification : Notification) (index : Z) (log title : string) (messages : Messages)
    (st : Stores Notification) :
  op ∈ [notificationStore.add notification; notificationStore.removeOne index;
        notificationStore.remove;
        terminalStore.add log; terminalStore.addParsed title messages;
        terminalStore.remove] ->
  persisted st ->
  parse_notifications (stringify_notifications (notifications (op st)))
    = Normal (notifications (op st)) ->
  parse_logs (stringify_logs (logs (op st))) = Normal (logs (op st)) ->
  persisted (op st).
Proof.
  intros Hop [Hn Hl] Hrn Hrl.
  unfold persisted, notificationStore.initial, terminalStore.initial in *.
  repeat (apply elem_of_cons in Hop as [->|Hop]); [..|by apply elem_of_nil in Hop];
    simpl in *;
    rewrite ?storage_get_set, ?storage_get_remove,
      ?(storage_get_set_ne "notifications" "logs"),
      ?(storage_get_set_ne "logs" "notifications"),
      ?(storage_get_remove_ne "notifications" "logs"),
      ?(storage_get_remove_ne "logs" "notifications") by done;
    by split.
Qed.

(** [removeOne(index)] deletes the notification at [index] and
    nothing else; an index outside the array (negative, or the length and
    beyond) leaves the notifications as they are. Removing the index a
    notification was just added at gives the earlier notifications back. *)
Theorem removeOne_deletes (index : Z) (notification : Notification)
    (st : Stores Notification) :
  notifications (notificationStore.removeOne index st)
    = (if decide (0 <= index < Z.of_nat (length (notifications st)))%Z
       then delete (Z.to_nat index) (notifications st)
       else notifications st)
  /\ notifications
       (notificationStore.removeOne (Z.of_nat (length (notifications st)))
          (notificationStore.add notification st))
     = notifications st.
Proof.
  split.
  - simpl. rewrite filter_index_delete. simpl. by rewrite Nat.sub_0_r.
  - simpl. rewrite filter_index_delete. simpl. rewrite length_app. simpl.
    rewrite decide_True by lia. rewrite Nat2Z.id, Nat.sub_0_r.
    induction (notifications st) as [|a l IH]; simpl; [done|]. by rewrite IH.
Qed.

(** the text [addParsed] logs. With an array, the title and a colon
    are followed by every message on a line of its own after four spaces,
    so the empty array gives the title and a colon. Without messages the
    title is followed by a full stop. A string is read as the array of that
    one string, except the empty string, which is read as no messages. *)
Theorem addParsed_text (title message : string) (messages : list string)
    (st : Stores Notification) :
  logs (terminalStore.addParsed title (ManyMessages messages) st)
    = logs st ++ [title +:+ ":" +:+
                  String.concat "" (map (fun m => newline +:+ "    " +:+ m) messages)]
  /\ logs (terminalStore.addParsed title NoMessages st) = logs st ++ [title +:+ "."]
  /\ logs (terminalStore.addParsed title (OneMessage message) st)
     = (if decide (message = "")
        then logs (terminalStore.addParsed title NoMessages st)
        else logs (terminalStore.addParsed title (ManyMessages [message]) st)).
Proof.
  split; [|split].
  - simpl. unfold parsedMessage. cbn [truthy]. by rewrite fold_left_lines, string_app_assoc.
  - reflexivity.
  - destruct (decide (message = "")) as [->|Hne]; [reflexivity|].
    simpl. unfold parsedMessage. cbn [truthy].
    by rewrite bool_decide_eq_false_2.
Qed.

End Store_facts.

Lemma stores_persisted_witness :
  @persisted string word_json (@notificationStore.add string word_json "saved" empty_stores).
Proof.
  apply (stores_persisted (H := word_json) (notificationStore.add "saved") "saved" 0%Z
           "log" "title" NoMessages empty_stores).
  - left.
  - split; reflexivity.
  - reflexivity.
  - reflexivity.
Defined.
